(** * Azulejo: synteny windows, proxy-gene downselection, cluster parsing

    A shallow embedding of the algorithmic core of azulejo:
    - [synteny_block_func] with its closures [kmer_block] and [rmer_block]
      (src/azulejo/synteny.py);
    - the [ProxySelector] class and the driver loop of [proxy_genes]
      (src/azulejo/synteny.py);
    - [parse_clusters] (src/azulejo/core.py), with its networkx co-membership
      graph and its [Counter]s. *)

From Stdlib Require Import ZArith Lia Bool.
From stdpp Require Import base list gmap strings.
From Stdlib Require Import Ascii Sorted.
Import ListNotations.

Open Scope Z_scope.

(* ===================================================================== *)
(** ** Synteny windows ([synteny_block_func], synteny.py lines 33-91) *)
(* ===================================================================== *)

Module Synteny.

(** One row of a scaffold frame, as read by [frame.iloc[idx, col]]:
    only the columns [cluster_id] and [cluster_size] are used. *)
Record locus := mk_locus {
  cluster_id : Z;
  cluster_size : Z;
}.

(** A window result [(span, direction, hash)]. *)
Definition window := (Z * Z * Z)%type.

Definition undefined_window : window := (0, 0, 0).

Definition wspan (w : window) : Z := fst (fst w).
Definition wdir (w : window) : Z := snd (fst w).
Definition whash (w : window) : Z := snd w.

Section Window.

(** Python's [hash] on a tuple of cluster ids: an arbitrary function. *)
Variable hash_tuple : list Z -> Z.
(** The window length [k] closed over by the closures. *)
Variable k : nat.

(** The tail shared by [kmer_block] and [rmer_block]:
    [fwd_hash = hash(tuple(cluster_list))],
    [rev_hash = hash(tuple(reversed(cluster_list)))],
    [return span, 1, fwd_hash] if [fwd_hash > rev_hash],
    else [return span, -1, rev_hash]. *)
Definition canonical (cluster_list : list Z) (span : nat) : window :=
  let fwd_hash := hash_tuple cluster_list in
  let rev_hash := hash_tuple (rev cluster_list) in
  if fwd_hash >? rev_hash then (Z.of_nat span, 1, fwd_hash)
  else (Z.of_nat span, -1, rev_hash).

(** The loop of [kmer_block] over [range(first_index, first_index + k)],
    run on the suffix [frame[first_index:]] ([l]); [n] iterations are left.
    [idx + 1 > frame_len] is the suffix being exhausted. *)
Fixpoint kmer_collect (l : list locus) (n : nat) : option (list Z) :=
  match n with
  | O => Some []
  | S n' =>
      match l with
      | [] => None
      | x :: r =>
          if cluster_size x =? 1 then None
          else match kmer_collect r n' with
               | Some cs => Some (cluster_id x :: cs)
               | None => None
               end
      end
  end.

Definition kmer_block (frame : list locus) (first_index : nat) : window :=
  match kmer_collect (drop first_index frame) k with
  | None => undefined_window
  | Some cluster_list => canonical cluster_list k
  end.

(** The [while len(cluster_list) < k] loop of [rmer_block], run on the
    suffix [frame[idx:]] ([l]); [last] is [last_cluster] ([None] at the
    start) and [consumed] is [idx - first_index]. *)
Fixpoint rmer_go (l : list locus) (cluster_list : list Z) (last : option Z)
    (consumed : nat) : option (list Z * nat) :=
  if (length cluster_list <? k)%nat then
    match l with
    | [] => None
    | x :: r =>
        if cluster_size x =? 1 then None
        else if decide (Some (cluster_id x) = last) then
          rmer_go r cluster_list last (S consumed)
        else
          rmer_go r (cluster_list ++ [cluster_id x]) (Some (cluster_id x))
            (S consumed)
    end
  else Some (cluster_list, consumed).

Definition rmer_block (frame : list locus) (first_index : nat) : window :=
  match rmer_go (drop first_index frame) [] None O with
  | None => undefined_window
  | Some (cluster_list, span) => canonical cluster_list span
  end.

(** [synteny_block_func(k, rmer, frame)] returns one of the closures. *)
Definition synteny_block_func (rmer : bool) (frame : list locus)
    : nat -> window :=
  if rmer then rmer_block frame else kmer_block frame.

(** The cluster ids a window collects before hashing, when it is defined. *)
Definition window_tokens (rmer : bool) (frame : list locus) (first_index : nat)
    : option (list Z) :=
  if rmer then
    match rmer_go (drop first_index frame) [] None O with
    | Some (cl, _) => Some cl
    | None => None
    end
  else kmer_collect (drop first_index frame) k.

End Window.

(** Repeat collapsing, after the spec's wording: every maximal run of equal
    consecutive cluster ids becomes one token. *)
Fixpoint collapse_from (last : option Z) (l : list Z) : list Z :=
  match l with
  | [] => []
  | x :: r =>
      if decide (Some x = last) then collapse_from last r
      else x :: collapse_from (Some x) r
  end.

Definition collapse (l : list Z) : list Z := collapse_from None l.

(** A concrete stand-in for Python's tuple hash, used on sample scaffolds. *)
Definition demo_hash (l : list Z) : Z := fold_left (fun a x => a * 31 + x) l 7.

End Synteny.

(* ===================================================================== *)
(** ** Proxy-gene downselection ([ProxySelector], synteny.py 472-588) *)
(* ===================================================================== *)

Module Proxy.

(** A row of the proxy frame, indexed by the gene id [rid]; the columns
    read by [ProxySelector]. *)
Record row := mk_row {
  rid : string;
  cluster_id : Z;
  synteny_id : Z;
  protein_len : Z;
  stem : string;
}.

(** The reason strings written to the [reason] column:
    "singleton", f"mode{len(modal_cluster)}", "median", "bad_synteny",
    "single". *)
Inductive reason :=
  | Singleton
  | Mode (n : nat)
  | Median
  | BadSynteny
  | Single.

(** Python exceptions the selection code can raise. *)
Inductive exc :=
  | ValueError
  | IndexError
  | ZeroDivisionError.

(** The attributes of a [ProxySelector] object. [reasons] records the
    writes [self.frame.loc[chosen_one, "reason"] = reason], latest first. *)
Record selector := mk_selector {
  frame : list row;
  prefs : list string;
  reasons : list (string * reason);
  drop_ids : list string;
  first_choice : string;
  first_choice_hits : Z;
  first_choice_unavailable : Z;
  cluster_count : Z;
}.

(** Methods run in a state-and-exception monad over the selector. *)
Definition M (A : Type) : Type := selector -> exc + (A * selector).

Definition ret {A} (a : A) : M A := fun st => inr (a, st).
Definition bind {A B} (m : M A) (f : A -> M B) : M B :=
  fun st => match m st with
            | inl e => inl e
            | inr (a, st') => f a st'
            end.
Definition raise {A} (e : exc) : M A := fun _ => inl e.
Definition modify (f : selector -> selector) : M unit :=
  fun st => inr (tt, f st).

Notation "x <- m ;; k" := (bind m (fun x => k))
  (at level 65, m at next level, right associativity).
Notation "m ;;; k" := (bind m (fun _ => k))
  (at level 65, right associativity).

(** [for x in l: f(x)] *)
Fixpoint for_each {A} (f : A -> M unit) (l : list A) : M unit :=
  match l with
  | [] => ret tt
  | x :: r => f x ;;; for_each f r
  end.

(** [ProxySelector.__init__]: [self.first_choice = prefs[0]]. *)
Definition init (fr : list row) (ps : list string) : exc + selector :=
  match ps with
  | [] => inl IndexError
  | p :: _ => inr (mk_selector fr ps [] [] p 0 0 0)
  end.

(** [list.remove(x)]: drop the first occurrence, [ValueError] if absent. *)
Fixpoint remove_first (x : string) (l : list string) : option (list string) :=
  match l with
  | [] => None
  | y :: r =>
      if String.eqb x y then Some r
      else match remove_first x r with
           | Some r' => Some (y :: r')
           | None => None
           end
  end.

(** [ProxySelector.choose]. [cluster.loc[chosen_one, "stem"]] is the stem of
    the chosen row (gene ids index the frame). *)
Definition choose (chosen : row) (cluster : list row) (rsn : reason)
    (drop_non_chosen : bool) : M unit :=
  fun st =>
    match remove_first (rid chosen) (map rid cluster) with
    | None => inl ValueError
    | Some non_chosen_ones =>
        inr (tt, mk_selector (frame st) (prefs st)
              ((rid chosen, rsn) :: reasons st)
              (if drop_non_chosen then drop_ids st ++ non_chosen_ones
               else drop_ids st)
              (first_choice st)
              (first_choice_hits st
                 + (if String.eqb (stem chosen) (first_choice st) then 1 else 0))
              (first_choice_unavailable st
                 + (if existsb (String.eqb (first_choice st)) (map stem cluster)
                    then 0 else 1))
              (if drop_non_chosen then cluster_count st
               else cluster_count st + Z.of_nat (length non_chosen_ones)))
    end.

(** [np.argmax]: the first index of the maximum; [ValueError] on an empty
    array. [argmax_from l i best bv]: [i] is the index of the head of [l],
    [best] the index of the maximum [bv] seen so far. *)
Fixpoint argmax_from (l : list nat) (i best bv : nat) : nat :=
  match l with
  | [] => best
  | x :: r =>
      if (bv <? x)%nat then argmax_from r (S i) i x
      else argmax_from r (S i) best bv
  end.

Definition argmax (l : list nat) : option nat :=
  match l with
  | [] => None
  | x :: r => Some (argmax_from r 1 0 x)
  end.

(** The row chosen in [choose_by_preference]:
    [pref_idxs = [subcluster[stems == pref].index for pref in self.prefs]],
    [pref_lens = np.array([int(len(idx) > 0) for idx in pref_idxs])],
    [best_choice = np.argmax(pref_lens)], the [ValueError] test
    [pref_lens[best_choice] > 1], then [pref_idxs[best_choice][0]]. *)
Definition pick_by_preference (ps : list string) (subcluster : list row)
    : exc + row :=
  let pref_idxs :=
    map (fun pref => List.filter (fun r => String.eqb (stem r) pref) subcluster)
      ps in
  let pref_lens :=
    map (fun idx => if (0 <? length idx)%nat then 1%nat else 0%nat) pref_idxs in
  match argmax pref_lens with
  | None => inl ValueError
  | Some best_choice =>
      if (1 <? nth best_choice pref_lens 0)%nat then inl ValueError
      else match nth best_choice pref_idxs [] with
           | [] => inl IndexError
           | r :: _ => inr r
           end
  end.

Definition choose_by_preference (subcluster cluster : list row) (rsn : reason)
    (drop_non_chosen : bool) : M unit :=
  fun st =>
    match pick_by_preference (prefs st) subcluster with
    | inl e => inl e
    | inr chosen => choose chosen cluster rsn drop_non_chosen st
    end.

(** [sorted()] on integers (insertion sort). *)
Fixpoint insert_Z (x : Z) (l : list Z) : list Z :=
  match l with
  | [] => [x]
  | y :: r => if x <=? y then x :: l else y :: insert_Z x r
  end.

Fixpoint sort_Z (l : list Z) : list Z :=
  match l with
  | [] => []
  | x :: r => insert_Z x (sort_Z r)
  end.

(** [statistics.median_low] and [statistics.median_high]; on empty data they
    raise [StatisticsError], a subclass of [ValueError] ([None] here). *)
Definition median_low (data : list Z) : option Z :=
  let d := sort_Z data in
  let n := length d in
  if (n =? 0)%nat then None
  else if Nat.odd n then Some (nth (n / 2) d 0)
  else Some (nth (n / 2 - 1) d 0).

Definition median_high (data : list Z) : option Z :=
  let d := sort_Z data in
  let n := length d in
  if (n =? 0)%nat then None else Some (nth (n / 2) d 0).

(** [Series.value_counts()]: each distinct value with its count. *)
Definition value_counts (l : list Z) : list (Z * nat) :=
  map (fun v => (v, count_occ Z.eq_dec l v)) (List.nodup Z.eq_dec l).

(** Python's [max] on an iterable; [ValueError] ([None]) when empty. *)
Definition list_max (l : list nat) : option nat :=
  match l with
  | [] => None
  | x :: r => Some (fold_left Nat.max r x)
  end.

(** [ProxySelector.choose_by_length]. *)
Definition choose_by_length (subcluster cluster : list row)
    (drop_non_chosen : bool) : M unit :=
  let lengths := map protein_len subcluster in
  let counts := value_counts lengths in
  match list_max (map snd counts) with
  | None => raise ValueError
  | Some max_count =>
      if (1 <? max_count)%nat then
        let max_vals :=
          map fst (List.filter (fun vc => (snd vc =? max_count)%nat) counts) in
        let modal_cluster :=
          List.filter (fun r => existsb (Z.eqb (protein_len r)) max_vals)
            subcluster in
        choose_by_preference modal_cluster cluster
          (Mode (length modal_cluster)) drop_non_chosen
      else
        match median_low lengths, median_high lengths with
        | Some lo, Some hi =>
            let median_pair :=
              List.filter (fun r => existsb (Z.eqb (protein_len r)) [lo; hi])
                subcluster in
            choose_by_preference median_pair cluster Median drop_non_chosen
        | _, _ => raise ValueError
        end
  end.

(** [frame.groupby(by=[key])]: the groups in increasing key order, each
    with its rows in frame order. *)
Definition group_by (key : row -> Z) (l : list row) : list (Z * list row) :=
  map (fun v => (v, List.filter (fun r => key r =? v) l))
    (sort_Z (List.nodup Z.eq_dec (map key l))).

(** The body of the [for synteny_id, subcluster in ...] loop of
    [cluster_selector]; [drop_non_chosen=(not synteny_id)] is [synteny_id = 0]
    on the integer group key, and [subcluster["synteny_id"][0]] is the
    first row's value (positional fallback on a string index). *)
Definition select_group (cluster : list row) (sid : Z) (subcluster : list row)
    : M unit :=
  if (1 <? length subcluster)%nat then
    choose_by_length subcluster cluster (sid =? 0)
  else
    match subcluster with
    | [] => ret tt
    | r :: _ =>
        if negb (synteny_id r =? 0) then
          choose r cluster BadSynteny (sid =? 0)
        else choose r cluster Single (sid =? 0)
    end.

Definition incr_cluster_count (st : selector) : selector :=
  mk_selector (frame st) (prefs st) (reasons st) (drop_ids st)
    (first_choice st) (first_choice_hits st) (first_choice_unavailable st)
    (cluster_count st + 1).

(** [ProxySelector.cluster_selector]. *)
Definition cluster_selector (cluster : list row) : M unit :=
  modify incr_cluster_count ;;;
  if (length cluster =? 1)%nat then
    match cluster with
    | [] => ret tt
    | r :: _ => choose r cluster Singleton true
    end
  else
    for_each (fun '(sid, sub) => select_group cluster sid sub)
      (group_by synteny_id cluster).

(** [ProxySelector.downselect_frame]: [self.frame.drop(self.drop_ids)];
    the logged percentage divides by [len(self.frame)]. *)
Definition downselect_frame (st : selector) : exc + list row :=
  match frame st with
  | [] => inl ZeroDivisionError
  | _ =>
      inr (List.filter
             (fun r => negb (existsb (String.eqb (rid r)) (drop_ids st)))
             (frame st))
  end.

(** The selection part of [proxy_genes]: build the selector, run
    [cluster_selector] on every [cluster_id] group, then downselect. *)
Definition proxy_select (fr : list row) (ps : list string)
    : exc + (list row * selector) :=
  match init fr ps with
  | inl e => inl e
  | inr st0 =>
      match for_each (fun '(_, cl) => cluster_selector cl)
              (group_by cluster_id fr) st0 with
      | inl e => inl e
      | inr (_, st) =>
          match downselect_frame st with
          | inl e => inl e
          | inr out => inr (out, st)
          end
      end
  end.

(** After the spec's wording: how many members of [subcluster] have the
    protein length of [r]. *)
Definition length_count (subcluster : list row) (r : row) : nat :=
  count_occ Z.eq_dec (map protein_len subcluster) (protein_len r).

(** After the spec's wording: a cluster is left with a single row when it
    has one row or some row with [synteny_id = 0]. *)
Definition keeps_one (cluster : list row) : bool :=
  (length cluster =? 1)%nat || existsb (fun r => synteny_id r =? 0) cluster.

(** The rows of a frame that [drop_ids] leaves in place. *)
Definition not_dropped (ds : list string) (r : row) : bool :=
  negb (existsb (String.eqb (rid r)) ds).

(** The statistics [proxy_genes] prints from [selection_stats()]:
    [first_choice_percent = first_choice_hits * 100.0 /
       (cluster_count - first_choice_unavailable)] and
    [first_choice_unavailable_percent =
       first_choice_unavailable * 100.0 / cluster_count],
    kept as (numerator, denominator) pairs; a float division by zero
    raises [ZeroDivisionError]. *)
Definition selection_percents (st : selector) : exc + ((Z * Z) * (Z * Z)) :=
  if cluster_count st - first_choice_unavailable st =? 0 then
    inl ZeroDivisionError
  else if cluster_count st =? 0 then inl ZeroDivisionError
  else inr ((first_choice_hits st * 100,
             cluster_count st - first_choice_unavailable st),
            (first_choice_unavailable st * 100, cluster_count st)).

(** The preference loop of [proxy_genes]: [default_prefs] is [set_keys]
    reversed; each given stem must be in it ([logger.error] and
    [sys.exit(1)] otherwise, [None] here) and is then removed from it. *)
Fixpoint remove_prefs (ps default_prefs : list string) : option (list string) :=
  match ps with
  | [] => Some default_prefs
  | stem :: r =>
      if negb (existsb (String.eqb stem) default_prefs) then None
      else match remove_first stem default_prefs with
           | Some d => remove_prefs r d
           | None => None
           end
  end.

(** [prefs = list(prefs) + default_prefs] when stems are given, else
    [prefs = default_prefs]. *)
Definition build_prefs (set_keys ps : list string) : option (list string) :=
  let default_prefs := rev set_keys in
  match ps with
  | [] => Some default_prefs
  | _ =>
      match remove_prefs ps default_prefs with
      | Some d => Some (ps ++ d)
      | None => None
      end
  end.

(** The stems of [default_prefs] that the given stems leave in place. *)
Definition not_in_prefs (ps : list string) (y : string) : bool :=
  negb (existsb (String.eqb y) ps).

(** The bookkeeping of a run of the selector methods from [st] to [st'] on
    the rows [cl]: the frame and the preferences are untouched, reasons and
    [drop_ids] only grow, by gene ids of [cl], the first-choice counters
    grow by at most one per recorded reason together, and [cluster_count]
    never decreases. *)
Definition grows (cl : list row) (st st' : selector) : Prop :=
  frame st' = frame st /\ prefs st' = prefs st /\
  first_choice st' = first_choice st /\
  (exists R D,
     reasons st' = R ++ reasons st /\ drop_ids st' = drop_ids st ++ D /\
     (forall g, In g (map fst R) -> In g (map rid cl)) /\
     (forall g, In g D -> In g (map rid cl)) /\
     first_choice_hits st <= first_choice_hits st' /\
     first_choice_unavailable st <= first_choice_unavailable st' /\
     (first_choice_hits st' - first_choice_hits st) +
       (first_choice_unavailable st' - first_choice_unavailable st)
     <= Z.of_nat (length R)) /\
  cluster_count st <= cluster_count st'.

End Proxy.

(* ===================================================================== *)
(** ** Cluster parsing ([parse_clusters], core.py lines 209-271) *)
(* ===================================================================== *)

Module Clusters.

(** Python's [str.split(sep)] for a one-character separator. *)
Fixpoint split_on (sep : Ascii.ascii) (s : string) : list string :=
  match s with
  | EmptyString => [EmptyString]
  | String a r =>
      let parts := split_on sep r in
      if Ascii.eqb a sep then EmptyString :: parts
      else match parts with
           | p :: ps => String a p :: ps
           | [] => [String a EmptyString]
           end
  end.

(** [ID_SEPARATOR = "."] *)
Definition ID_SEPARATOR : Ascii.ascii := Ascii.ascii_of_nat 46.

(** A networkx [Graph] as its adjacency dict of dicts, each edge carrying
    its [weight]; the nodes are the keys. *)
Abbreviation graph := (gmap string (gmap string Z)).

(** [Graph.add_node]: a new node gets an empty adjacency. *)
Definition add_node (g : graph) (n : string) : graph :=
  match g !! n with
  | Some _ => g
  | None => <[n := ∅]> g
  end.

(** [Graph.add_edge(u, v, weight=w)] as done by [add_edges_from]: both
    endpoints are added as nodes, then [adj[u][v] = adj[v][u] = datadict]
    with the weight updated. *)
Definition add_edge (w : Z) (g : graph) (e : string * string) : graph :=
  let '(u, v) := e in
  let g1 := add_node (add_node g u) v in
  let g2 := <[u := <[v := w]> (default ∅ (g1 !! u))]> g1 in
  <[v := <[u := w]> (default ∅ (g2 !! v))]> g2.

(** The weight of the edge [u]-[v], if there is one. *)
Definition edge_weight (g : graph) (u v : string) : option Z :=
  match g !! u with
  | Some nbrs => nbrs !! v
  | None => None
  end.

(** [itertools.combinations(ids, 2)]. *)
Fixpoint combinations2 (l : list string) : list (string * string) :=
  match l with
  | [] => []
  | x :: r => map (fun y => (x, y)) r ++ combinations2 r
  end.

(** A [collections.Counter] keyed by strings or by integers; a missing key
    counts 0. *)
Definition counter_get {K} `{Countable K} (m : gmap K Z) (k : K) : Z :=
  default 0 (m !! k).

Definition counter_add {K} `{Countable K} (m : gmap K Z) (k : K) (n : Z)
    : gmap K Z :=
  <[k := counter_get m k + n]> m.

(** [Counter.update(keys)] adds 1 per key; [Counter.update({k: n ...})]
    adds [n] per key (the keys given are distinct). *)
Definition counter_update {K} `{Countable K} (ks : list K) (n : Z)
    (m : gmap K Z) : gmap K Z :=
  fold_left (fun m k => counter_add m k n) ks m.

(** The results of [parse_clusters], accumulated cluster by cluster. *)
Record parsed := mk_parsed {
  graph_of : graph;
  cluster_list : list Z;
  id_list : list string;
  size_list : list Z;
  degree_list : list Z;
  degree_counter : gmap Z Z;
  any_counter : gmap string Z;
  all_counter : gmap string Z;
}.

Definition parsed_empty : parsed := mk_parsed ∅ [] [] [] [] ∅ ∅ ∅.

Section Parse.

(** [parse_chromosome], whose integer parsing is not needed by the
    properties below: any function from an identifier part to an optional
    chromosome name. *)
Variable parse_chromosome : string -> option string.

(** [parse_subids]. *)
Definition parse_subids (ident : string) : list string :=
  let subids := split_on ID_SEPARATOR ident in
  subids ++ omap parse_chromosome subids.

(** Synonym expansion: for each id of [set(ids) & synonyms.keys()] (taken in
    the order of [ids], which [get_fasta_ids] returns without repeats),
    [ids.extend(synonyms[i])]. *)
Definition expand (synonyms : gmap string (list string)) (ids : list string)
    : list string :=
  if bool_decide (synonyms = ∅) then ids
  else
    let syn_ids :=
      List.filter (fun i => match synonyms !! i with Some _ => true | None => false end)
        (List.nodup String.string_dec ids) in
    ids ++ concat (map (fun i => default [] (synonyms !! i)) syn_ids).

(** The body of the loop over cluster files. *)
Definition parse_cluster (count_clusters : bool)
    (synonyms : gmap string (list string)) (s : parsed)
    (cluster : Z * list string) : parsed :=
  let '(cluster_id, raw_ids) := cluster in
  let ids := expand synonyms raw_ids in
  let n_ids := length ids in
  let comps := concat (map parse_subids ids) in
  let keys := List.nodup String.string_dec comps in
  let all_keys :=
    List.filter (fun k => (count_occ String.string_dec comps k =? n_ids)%nat) keys in
  let '(any_c, all_c) :=
    if count_clusters then
      (counter_update keys 1 (any_counter s),
       counter_update all_keys 1 (all_counter s))
    else if (1 <? n_ids)%nat then
      (counter_update keys (Z.of_nat n_ids) (any_counter s),
       counter_update all_keys (Z.of_nat n_ids) (all_counter s))
    else (any_counter s, all_counter s) in
  let g1 := fold_left add_node ids (graph_of s) in
  let g2 :=
    if (1 <? n_ids)%nat then
      fold_left (add_edge (Z.of_nat n_ids)) (combinations2 ids) g1
    else g1 in
  mk_parsed g2
    (cluster_list s ++ repeat cluster_id n_ids)
    (id_list s ++ ids)
    (size_list s ++ repeat (Z.of_nat n_ids) n_ids)
    (degree_list s ++ [Z.of_nat n_ids])
    (counter_add (degree_counter s) (Z.of_nat n_ids) 1)
    any_c all_c.

(** [parse_clusters(outdir, count_clusters=..., synonyms=...)] over the
    cluster files in the order [outdir.glob("*")] yields them, each given
    as its [cluster_id] and the ids read by [get_fasta_ids]. *)
Definition parse_clusters (count_clusters : bool)
    (synonyms : gmap string (list string))
    (clusters : list (Z * list string)) : parsed :=
  fold_left (parse_cluster count_clusters synonyms) clusters parsed_empty.

End Parse.

(** The edge [x]-[y] is the undirected edge [e]. *)
Definition pair_hit (x y : string) (e : string * string) : Prop :=
  (x = e.1 /\ y = e.2) \/ (x = e.2 /\ y = e.1).

(** Python's [sum] on integers. *)
Definition sum_Z (l : list Z) : Z := fold_right Z.add 0 l.

(** [sep.join(parts)] for a one-character separator. *)
Fixpoint join (sep : ascii) (parts : list string) : string :=
  match parts with
  | [] => EmptyString
  | [p] => p
  | p :: r => p +:+ String sep (join sep r)
  end.

(** The "any" and "all" histograms of [usearch_cluster] (core.py lines
    471-484), as the ids they list: the items of the counter, filtered by
    [hist[hist_value] > min_id_freq] when [min_id_freq] is non-zero. *)
Definition hist_ids (min_id_freq : Z) (counts : gmap string Z) : list string :=
  map fst (if Z.eqb min_id_freq 0 then map_to_list counts
           else List.filter (fun kv => min_id_freq <? kv.2) (map_to_list counts)).

(** [list(clusters.loc[(clusters["cluster"] == idx)]["id"])] on the rows
    [(cluster, id)] of a cluster table. *)
Definition cluster_ids (rows : list (Z * string)) (idx : Z) : list string :=
  map snd (List.filter (fun r => r.1 =? idx) rows).

(** [grouping.index] lists the labels in non-increasing order of group
    size: [i] comes before [j] only if [j]'s group is no larger. *)
Definition by_size_desc (rows : list (Z * string)) (i j : Z) : Prop :=
  (length (cluster_ids rows j) <= length (cluster_ids rows i))%nat.

(** The loop body of [adjacency_to_graph] for the cluster [idx].
    [adjacency_to_graph] (core.py lines 809-826), up to writing the GML
    file. [order] is [grouping.index], the cluster labels sorted by
    [sort_values(ascending=False)] on their group sizes; that sort does
    not fix the order among equal sizes, so [order] is an argument. *)
Definition adjacency_step (rows : list (Z * string)) (g : graph) (idx : Z) : graph :=
  let ids := cluster_ids rows idx in
  let g1 := fold_left add_node ids g in
  if (1 <? length ids)%nat then
    fold_left (add_edge (Z.of_nat (length ids))) (combinations2 ids) g1
  else g1.

Definition adjacency_graph (rows : list (Z * string)) (order : list Z) : graph :=
  fold_left (adjacency_step rows) order ∅.

(** [len(group)] for [clusters.groupby(["cluster"])], in label order, on the
    [cluster] column of a cluster table. *)
Definition group_sizes (cluster_col : list Z) : list nat :=
  map (fun v => count_occ Z.eq_dec cluster_col v)
    (Proxy.sort_Z (List.nodup Z.eq_dec cluster_col)).

(** [cluster_counter] of [clusters_to_histograms] (core.py lines 584-613):
    [cluster_counter.update({len(group): 1})] for every group. *)
Definition size_histogram (cluster_col : list Z) : gmap Z Z :=
  fold_left (fun m sz => counter_add m (Z.of_nat sz) 1) (group_sizes cluster_col) ∅.

End Clusters.

(* ===================================================================== *)
(** ** Identifiers ([parse_chromosome], core.py 181-195;
       [dagchainer_id_to_int] and [dagchainer_synteny], synteny.py 389-464) *)
(* ===================================================================== *)

Module Idents.
Import Clusters.

(** Python strings whose characters all lie in Latin-1, one byte per
    character. *)

(** Python exceptions these functions can raise. *)
Inductive exc :=
  | ValueError
  | TypeError.

Definition code (c : ascii) : nat := nat_of_ascii c.

(** The ASCII digits, the only decimal digits of Latin-1. *)
Definition is_digit (c : ascii) : bool := (48 <=? code c)%nat && (code c <=? 57)%nat.
Definition digit_value (c : ascii) : N := N.of_nat (code c - 48).
Definition digit_char (d : N) : ascii := ascii_of_nat (48 + N.to_nat d).

(** White space for [int()]: [int] first maps U+0085 and U+00A0 to spaces,
    then skips the ASCII spaces [\t \n \v \f \r] and [' ']. *)
Definition int_space (c : ascii) : bool :=
  let n := code c in
  ((9 <=? n) && (n <=? 13))%nat || (n =? 32)%nat || (n =? 133)%nat || (n =? 160)%nat.

(** [str.isnumeric] on one character: the digits, the superscripts
    U+00B2, U+00B3, U+00B9 and the fractions U+00BC-U+00BE. *)
Definition is_numeric_char (c : ascii) : bool :=
  let n := code c in
  is_digit c || (n =? 178)%nat || (n =? 179)%nat || (n =? 185)%nat
  || ((188 <=? n) && (n <=? 190))%nat.

Fixpoint str_forallb (p : ascii -> bool) (s : string) : bool :=
  match s with
  | EmptyString => true
  | String c r => p c && str_forallb p r
  end.

(** [str.isnumeric()]: non-empty, every character numeric. *)
Definition isnumeric (s : string) : bool :=
  match s with
  | EmptyString => false
  | _ => str_forallb is_numeric_char s
  end.

(** [sys.get_int_max_str_digits()] by default (Python 3.11 and later). *)
Definition max_str_digits : nat := 4300.

(** The digit loop of [PyLong_FromString] in base 10: digits, with single
    underscores between digits; [prev_us] holds while the last character
    read is an underscore, or nothing has been read yet (a leading
    underscore is refused). Returns the value, the number of digits and
    the rest of the string. *)
Fixpoint scan_digits (s : string) (acc : N) (ndigits : nat) (prev_us : bool)
    : option (N * nat * string) :=
  match s with
  | EmptyString => if prev_us then None else Some (acc, ndigits, EmptyString)
  | String c r =>
      if is_digit c then scan_digits r (acc * 10 + digit_value c)%N (S ndigits) false
      else if Ascii.eqb c "_"%char then
        if prev_us then None else scan_digits r acc ndigits true
      else if prev_us then None else Some (acc, ndigits, s)
  end.

Fixpoint lstrip_int (s : string) : string :=
  match s with
  | EmptyString => EmptyString
  | String c r => if int_space c then lstrip_int r else s
  end.

(** [int(s)]: [None] when it raises [ValueError]. Leading white space, an
    optional sign, the digits, trailing white space. *)
Definition py_int (s : string) : option Z :=
  let s1 := lstrip_int s in
  let '(neg, s2) :=
    match s1 with
    | String c r =>
        if Ascii.eqb c "-"%char then (true, r)
        else if Ascii.eqb c "+"%char then (false, r)
        else (false, s1)
    | EmptyString => (false, s1)
    end in
  match scan_digits s2 0%N 0 true with
  | Some (v, nd, rest) =>
      if (max_str_digits <? nd)%nat then None
      else if str_forallb int_space rest then
        Some (if neg then - Z.of_N v else Z.of_N v)
      else None
  | None => None
  end.

(** The decimal digits of [n], most significant first; [fuel] bounds the
    number of divisions by 10. *)
Fixpoint N_digits (fuel : nat) (n : N) (acc : list N) : list N :=
  match fuel with
  | O => acc
  | S f =>
      if (n <? 10)%N then n :: acc
      else N_digits f (n / 10)%N ((n mod 10)%N :: acc)
  end.

Fixpoint digits_to_string (ds : list N) : string :=
  match ds with
  | [] => EmptyString
  | d :: r => String (digit_char d) (digits_to_string r)
  end.

Definition N_to_dec (n : N) : string :=
  digits_to_string (N_digits (S (N.to_nat (N.size n))) n []).

(** [str(z)] for an integer. *)
Definition py_str (z : Z) : string :=
  if z <? 0 then String "-"%char (N_to_dec (Z.to_N (- z)))
  else N_to_dec (Z.to_N z).

(** [str.upper()] on one Latin-1 character: a-z and U+00E0-U+00FE (but
    U+00F7) move down by 32, U+00DF becomes "SS". U+00B5 and U+00FF, whose
    upper cases U+039C and U+0178 lie outside Latin-1, are kept: like
    them, they are neither a digit, nor white space, nor one of "C", "H",
    "R", "G", which is all [parse_chromosome] tests of the result. *)
Definition upper_char (c : ascii) : string :=
  let n := code c in
  if ((97 <=? n) && (n <=? 122))%nat then String (ascii_of_nat (n - 32)) EmptyString
  else if (n =? 223)%nat then "SS"%string
  else if ((224 <=? n) && (n <=? 254) && negb (n =? 247))%nat then
    String (ascii_of_nat (n - 32)) EmptyString
  else String c EmptyString.

Fixpoint upper (s : string) : string :=
  match s with
  | EmptyString => EmptyString
  | String c r => upper_char c +:+ upper r
  end.

Fixpoint starts_with (p s : string) : bool :=
  match p, s with
  | EmptyString, _ => true
  | String a p', String b s' => Ascii.eqb a b && starts_with p' s'
  | String _ _, EmptyString => false
  end.

(** [s[n:]] and [s[:n]]. *)
Fixpoint str_drop (n : nat) (s : string) : string :=
  match n, s with
  | O, _ => s
  | S n', String _ r => str_drop n' r
  | S _, EmptyString => EmptyString
  end.

Fixpoint str_take (n : nat) (s : string) : string :=
  match n, s with
  | O, _ => EmptyString
  | S n', String c r => String c (str_take n' r)
  | S _, EmptyString => EmptyString
  end.

(** [s.index(c)], [None] when it raises [ValueError]. *)
Fixpoint find_char (c : ascii) (s : string) : option nat :=
  match s with
  | EmptyString => None
  | String a r =>
      if Ascii.eqb a c then Some O
      else match find_char c r with Some i => Some (S i) | None => None end
  end.

(** The number a string of decimal digits denotes, read from the left
    after [a]. *)
Fixpoint dec_value_from (a : N) (s : string) : N :=
  match s with
  | EmptyString => a
  | String c r => dec_value_from (a * 10 + digit_value c)%N r
  end.

Definition dec_value (s : string) : N := dec_value_from 0%N s.

(** [parse_chromosome(ident)]. *)
Definition parse_chromosome (ident : string) : option string :=
  let undersplit := split_on "_"%char ident in
  let ident1 :=
    if (1 <? length undersplit)%nat then
      let u := upper (List.last undersplit EmptyString) in
      if starts_with "CHR" u then str_drop 3 u else u
    else ident in
  match find_char "G"%char ident1 with
  | None => None
  | Some i =>
      match py_int (str_take i ident1) with
      | Some z => Some ("Chr" +:+ py_str z)
      | None => None
      end
  end.

(** [dagchainer_id_to_int(ident)]. *)
Definition dagchainer_id_to_int (ident : string) : exc + Z :=
  if negb (starts_with "cl" ident) then inl ValueError
  else
    let id_val := str_drop 2 ident in
    if negb (isnumeric id_val) then inl ValueError
    else match py_int id_val with
         | Some z => inr z
         | None => inl ValueError
         end.

(** [synteny_frame["cluster"].map(dagchainer_id_to_int)] on the rows
    [(cluster, id)] of the DAGchainer file: the rows [(id, synteny_id)]. *)
Fixpoint map_synteny_ids (dag : list (string * string)) : exc + list (string * Z) :=
  match dag with
  | [] => inr []
  | (cl, i) :: r =>
      match dagchainer_id_to_int cl with
      | inl e => inl e
      | inr n =>
          match map_synteny_ids r with
          | inl e => inl e
          | inr l => inr ((i, n) :: l)
          end
      end
  end.

(** [synteny_frame] of [dagchainer_synteny]: rows [(id, synteny_id,
    synteny_count)], [synteny_count] mapping each [synteny_id] through
    its [value_counts()]. The final [sort_values] only reorders the rows,
    which the lookups by id below do not see. *)
Definition dagchainer_frame (dag : list (string * string))
    : exc + list (string * Z * Z) :=
  match map_synteny_ids dag with
  | inl e => inl e
  | inr l =>
      inr (map (fun r => (r.1, r.2, Z.of_nat (count_occ Z.eq_dec (map snd l) r.2))) l)
  end.

Inductive column := SyntenyId | SyntenyCount.

(** [id_to_synteny_property(ident, column)]:
    [int(synteny_frame.loc[ident, column])], 0 on [KeyError]; an id on
    several rows selects a [Series] of several values, on which [int]
    raises [TypeError]. *)
Definition id_to_synteny_property (fr : list (string * Z * Z)) (ident : string)
    (col : column) : exc + Z :=
  match List.filter (fun r => String.eqb r.1.1 ident) fr with
  | [] => inr 0
  | [r] => inr (match col with SyntenyId => r.1.2 | SyntenyCount => r.2 end)
  | _ => inl TypeError
  end.

End Idents.

(* ===================================================================== *)
(** * Proofs *)
(* ===================================================================== *)

Module SyntenyFacts.
Import Synteny.

Section WindowFacts.

Variable hash_tuple : list Z -> Z.
Variable k : nat.

Lemma kmer_collect_bad (l : list locus) (n j : nat) :
  (j < n)%nat ->
  (l !! j = None \/ exists x, l !! j = Some x /\ cluster_size x = 1) ->
  kmer_collect l n = None.
Proof.
  revert l j. induction n as [|n IH]; intros l j Hj Hbad; [lia|].
  destruct l as [|x r]; simpl; [reflexivity|].
  destruct (Z.eqb_spec (cluster_size x) 1) as [H1|H1]; [reflexivity|].
  destruct j as [|j].
  - destruct Hbad as [Hn|(y & Hy & Hs)]; simpl in *; [discriminate|].
    injection Hy as <-. contradiction.
  - rewrite (IH r j); [reflexivity|lia|exact Hbad].
Qed.

Lemma rmer_go_bad (l : list locus) (acc : list Z) (last : option Z)
    (c j : nat) :
  (length (acc ++ collapse_from last (map cluster_id (take j l))) < k)%nat ->
  (l !! j = None \/ exists x, l !! j = Some x /\ cluster_size x = 1) ->
  rmer_go k l acc last c = None.
Proof.
  revert acc last c j. induction l as [|x r IH]; intros acc last c j Hlen Hbad.
  - simpl. rewrite take_nil in Hlen. simpl in Hlen. rewrite app_nil_r in Hlen.
    apply Nat.ltb_lt in Hlen. rewrite Hlen. reflexivity.
  - assert (Hacc : (length acc < k)%nat).
    { rewrite length_app in Hlen. lia. }
    simpl. apply Nat.ltb_lt in Hacc. rewrite Hacc.
    destruct (Z.eqb_spec (cluster_size x) 1) as [H1|H1]; [reflexivity|].
    destruct j as [|j].
    + destruct Hbad as [Hn|(y & Hy & Hs)]; simpl in *; [discriminate|].
      injection Hy as <-. contradiction.
    + simpl in Hlen, Hbad.
      destruct (decide (Some (cluster_id x) = last)) as [He|He].
      * apply (IH acc last (S c) j); [exact Hlen|exact Hbad].
      * apply (IH (acc ++ [cluster_id x]) (Some (cluster_id x)) (S c) j);
          [|exact Hbad].
        rewrite <- app_assoc. exact Hlen.
Qed.

Lemma rmer_go_spec (l : list locus) (acc : list Z) (last : option Z)
    (c : nat) (T : list Z) (c' : nat) :
  (length acc <= k)%nat ->
  rmer_go k l acc last c = Some (T, c') ->
  exists m, c' = (c + m)%nat /\ (m <= length l)%nat /\
    T = acc ++ collapse_from last (map cluster_id (take m l)) /\
    length T = k /\
    Forall (fun x => cluster_size x <> 1) (take m l) /\
    ((k <= length acc)%nat -> m = O) /\
    ((length acc < k)%nat ->
       length (acc ++ collapse_from last (map cluster_id (take (m - 1) l)))
       = (k - 1)%nat).
Proof.
  revert acc last c. induction l as [|x r IH]; intros acc last c Hle Hgo.
  - simpl in Hgo. destruct (Nat.ltb_spec (length acc) k) as [Hlt|Hge];
      [discriminate|].
    injection Hgo as <- <-. exists O.
    rewrite take_nil. simpl. rewrite app_nil_r.
    repeat split; try lia; constructor.
  - simpl in Hgo. destruct (Nat.ltb_spec (length acc) k) as [Hlt|Hge].
    + destruct (Z.eqb_spec (cluster_size x) 1) as [H1|H1]; [discriminate|].
      destruct (decide (Some (cluster_id x) = last)) as [He|He].
      * destruct (IH acc last (S c) Hle Hgo)
          as (m & Hc & Hm & HT & HlenT & Hall & Hstop & Hprev).
        exists (S m). simpl. rewrite decide_True by exact He.
        repeat split.
        -- lia.
        -- lia.
        -- exact HT.
        -- exact HlenT.
        -- constructor; assumption.
        -- lia.
        -- intros _. destruct m as [|m].
           ++ rewrite HT in HlenT. simpl in HlenT. rewrite app_nil_r in HlenT.
              lia.
           ++ simpl. rewrite decide_True by exact He.
              specialize (Hprev Hlt). simpl in Hprev.
              rewrite Nat.sub_0_r in Hprev. exact Hprev.
      * assert (Hle' : (length (acc ++ [cluster_id x]) <= k)%nat).
        { rewrite length_app. simpl. lia. }
        destruct (IH _ _ (S c) Hle' Hgo)
          as (m & Hc & Hm & HT & HlenT & Hall & Hstop & Hprev).
        exists (S m). simpl. rewrite decide_False by exact He.
        repeat split.
        -- lia.
        -- lia.
        -- rewrite HT, <- app_assoc. reflexivity.
        -- exact HlenT.
        -- constructor; assumption.
        -- lia.
        -- intros _. destruct m as [|m].
           ++ rewrite HT in HlenT. simpl in HlenT. rewrite app_nil_r in HlenT.
              rewrite length_app in HlenT. simpl in HlenT. simpl.
              rewrite app_nil_r. lia.
           ++ simpl. rewrite decide_False by exact He.
              assert (Hlt' : (length (acc ++ [cluster_id x]) < k)%nat).
              { destruct (Nat.lt_ge_cases (length (acc ++ [cluster_id x])) k)
                  as [Hl|Hl]; [exact Hl|].
                specialize (Hstop Hl). discriminate. }
              specialize (Hprev Hlt'). simpl in Hprev.
              rewrite Nat.sub_0_r in Hprev.
              rewrite <- Hprev, <- app_assoc. reflexivity.
    + injection Hgo as <- <-. exists O.
      simpl. rewrite app_nil_r.
      repeat split; try lia; constructor.
Qed.

Lemma canonical_hash (T : list Z) (n : nat) :
  whash (canonical hash_tuple T n) = Z.max (hash_tuple T) (hash_tuple (rev T)).
Proof.
  unfold canonical, whash. simpl.
  destruct (Z.gtb_spec (hash_tuple T) (hash_tuple (rev T))); simpl; lia.
Qed.

Lemma window_tokens_block (rmer : bool) (frame : list locus) (i : nat)
    (T : list Z) :
  window_tokens k rmer frame i = Some T ->
  exists n, synteny_block_func hash_tuple k rmer frame i
            = canonical hash_tuple T n.
Proof.
  unfold window_tokens, synteny_block_func, rmer_block, kmer_block.
  destruct rmer.
  - destruct (rmer_go k (drop i frame) [] None 0) as [[cl n]|]; [|discriminate].
    intros H. injection H as ->. exists n. reflexivity.
  - intros ->. exists k. reflexivity.
Qed.

(** C5: for a tuple [T] of collected cluster ids, a window that collects [T]
    and a window that collects [reverse(T)] return the same hash, the larger
    of the forward and the reverse hash of [T]; the direction is [+1] with
    the forward hash exactly when the forward hash is greater than the
    reverse hash, else [-1] with the reverse hash. Both the k-mer and the
    r-mer closures. *)
Theorem window_hash_reversal (rmer : bool) (frame1 frame2 : list locus)
    (i1 i2 : nat) (T : list Z) :
  window_tokens k rmer frame1 i1 = Some T ->
  window_tokens k rmer frame2 i2 = Some (rev T) ->
  let w1 := synteny_block_func hash_tuple k rmer frame1 i1 in
  let w2 := synteny_block_func hash_tuple k rmer frame2 i2 in
  whash w1 = whash w2 /\
  whash w1 = Z.max (hash_tuple T) (hash_tuple (rev T)) /\
  (hash_tuple T > hash_tuple (rev T) -> wdir w1 = 1 /\ whash w1 = hash_tuple T) /\
  (hash_tuple T <= hash_tuple (rev T) ->
     wdir w1 = -1 /\ whash w1 = hash_tuple (rev T)).
Proof.
  intros H1 H2 w1 w2.
  destruct (window_tokens_block rmer frame1 i1 T H1) as [n1 E1].
  destruct (window_tokens_block rmer frame2 i2 (rev T) H2) as [n2 E2].
  subst w1 w2. rewrite E1, E2.
  split; [rewrite !canonical_hash, rev_involutive; lia|].
  split; [apply canonical_hash|].
  unfold canonical, wdir, whash; simpl.
  split; intros Hc.
  - destruct (Z.gtb_spec (hash_tuple T) (hash_tuple (rev T))); simpl; [|lia].
    split; reflexivity.
  - destruct (Z.gtb_spec (hash_tuple T) (hash_tuple (rev T))); simpl; [lia|].
    split; reflexivity.
Qed.

(** C6: a k-mer window whose range [first_index, first_index + k) holds a
    position past the end of the scaffold or a locus with [cluster_size = 1],
    and an r-mer window whose walk meets such a position before [k] tokens
    are collected, are the undefined window [(0, 0, 0)] (the functions are
    total: nothing is raised). *)
Theorem window_undefined_at_bad_locus :
  (forall (frame : list locus) (i j : nat),
     (i <= j < i + k)%nat ->
     (frame !! j = None \/
      exists x, frame !! j = Some x /\ cluster_size x = 1) ->
     kmer_block hash_tuple k frame i = undefined_window) /\
  (forall (frame : list locus) (i j : nat),
     (i <= j)%nat ->
     (length (collapse (map cluster_id (take (j - i) (drop i frame)))) < k)%nat ->
     (frame !! j = None \/
      exists x, frame !! j = Some x /\ cluster_size x = 1) ->
     rmer_block hash_tuple k frame i = undefined_window).
Proof.
  split.
  - intros frame i j Hj Hbad. unfold kmer_block.
    rewrite (kmer_collect_bad (drop i frame) k (j - i)); [reflexivity|lia|].
    rewrite lookup_drop. replace (i + (j - i))%nat with j by lia. exact Hbad.
  - intros frame i j Hj Hlen Hbad. unfold rmer_block.
    rewrite (rmer_go_bad (drop i frame) [] None O (j - i)); [reflexivity| |].
    + exact Hlen.
    + rewrite lookup_drop. replace (i + (j - i))%nat with j by lia.
      exact Hbad.
Qed.

(** C8: a defined r-mer window (direction [<> 0]) consumed [span] raw loci,
    none of them of cluster size 1; the tokens it hashed are the
    repeat-collapsed cluster ids of those loci (each run of consecutive equal
    ids becomes one token, so neighbouring tokens differ), exactly [k] of
    them; and [span] is the number of loci needed to obtain them: one locus
    fewer yields only [k - 1] tokens. *)
Theorem rmer_window_collapse (frame : list locus) (i : nat)
    (span dir h : Z) :
  rmer_block hash_tuple k frame i = (span, dir, h) ->
  dir <> 0 ->
  exists (n : nat) (T : list Z),
    span = Z.of_nat n /\
    (n <= length frame - i)%nat /\
    window_tokens k true frame i = Some T /\
    length T = k /\
    T = collapse (map cluster_id (take n (drop i frame))) /\
    Forall (fun x => cluster_size x <> 1) (take n (drop i frame)) /\
    ((0 < k)%nat ->
       length (collapse (map cluster_id (take (n - 1) (drop i frame))))
       = (k - 1)%nat) /\
    (span, dir, h) = canonical hash_tuple T n.
Proof.
  unfold rmer_block, window_tokens.
  destruct (rmer_go k (drop i frame) [] None 0) as [[T n]|] eqn:Hgo.
  - intros Hw Hdir.
    destruct (rmer_go_spec (drop i frame) [] None O T n) as
      (m & Hc & Hm & HT & HlenT & Hall & Hstop & Hprev);
      [simpl; lia|exact Hgo|].
    simpl in Hc. subst m.
    exists n, T. split.
    { unfold canonical in Hw.
      destruct (hash_tuple T >? hash_tuple (rev T));
        injection Hw as <- _ _; reflexivity. }
    repeat split.
    + rewrite length_drop in Hm. exact Hm.
    + exact HlenT.
    + exact HT.
    + exact Hall.
    + intros Hk. apply Hprev. simpl. exact Hk.
    + symmetry. exact Hw.
  - intros Hw Hdir. unfold undefined_window in Hw.
    injection Hw as _ <- _. contradiction.
Qed.

End WindowFacts.


Lemma window_hash_reversal_witness :
  window_tokens 2 false [mk_locus 5 2; mk_locus 7 2] 0%nat = Some [5; 7] /\
  window_tokens 2 false [mk_locus 7 2; mk_locus 5 2] 0%nat = Some (rev [5; 7]) /\
  whash (synteny_block_func demo_hash 2 false [mk_locus 5 2; mk_locus 7 2] 0%nat)
  = whash (synteny_block_func demo_hash 2 false [mk_locus 7 2; mk_locus 5 2] 0%nat).
Proof.
  split; [reflexivity|]. split; [reflexivity|].
  destruct (window_hash_reversal demo_hash 2 false
              [mk_locus 5 2; mk_locus 7 2] [mk_locus 7 2; mk_locus 5 2]
              0%nat 0%nat [5; 7]) as [H _]; [reflexivity|reflexivity|].
  exact H.
Defined.

Lemma window_undefined_at_bad_locus_witness :
  kmer_block demo_hash 3 [mk_locus 5 2; mk_locus 5 1; mk_locus 7 2] 0%nat
  = undefined_window /\
  rmer_block demo_hash 2 [mk_locus 5 2; mk_locus 5 2; mk_locus 7 1] 0%nat
  = undefined_window.
Proof.
  destruct (window_undefined_at_bad_locus demo_hash 3) as [Hk _].
  destruct (window_undefined_at_bad_locus demo_hash 2) as [_ Hr].
  split.
  - apply (Hk _ 0%nat 1%nat); [lia|]. right. eexists. split; reflexivity.
  - apply (Hr _ 0%nat 2%nat); [lia|vm_compute; lia|]. right. eexists.
    split; reflexivity.
Defined.

Lemma rmer_window_collapse_witness :
  exists (n : nat) (T : list Z), n = 3%nat /\ T = [5; 7] /\
    T = collapse (map cluster_id
          (take n [mk_locus 5 2; mk_locus 5 2; mk_locus 7 2; mk_locus 9 2])).
Proof.
  destruct (rmer_window_collapse demo_hash 2
              [mk_locus 5 2; mk_locus 5 2; mk_locus 7 2; mk_locus 9 2] 0%nat
              3 (-1) 6949) as (n & T & Hs & _ & Htok & _ & HT & _);
    [vm_compute; reflexivity|lia|].
  assert (Hn : n = 3%nat) by lia.
  exists n, T. split; [exact Hn|]. split.
  - vm_compute in Htok. congruence.
  - exact HT.
Defined.

End SyntenyFacts.

Module ProxyFacts.
Import Proxy.

(** ** Basic list facts *)

Lemma remove_first_in (x : string) (l : list string) :
  In x l -> exists rest, remove_first x l = Some rest /\
                         length rest = (length l - 1)%nat.
Proof.
  induction l as [|y r IH]; simpl; [intros []|]. intros Hin.
  destruct (String.eqb_spec x y) as [->|Hne].
  - exists r. split; [reflexivity|lia].
  - destruct Hin as [->|Hin]; [contradiction|].
    destruct (IH Hin) as (rest & Hr & Hl). rewrite Hr.
    exists (y :: rest). split; [reflexivity|].
    destruct r; simpl in *; [contradiction|lia].
Qed.

Lemma NoDup_map_inj {A B} (f : A -> B) (l : list A) (x y : A) :
  List.NoDup (map f l) -> In x l -> In y l -> f x = f y -> x = y.
Proof.
  induction l as [|a r IH]; simpl; [intros _ []|].
  intros Hnd Hx Hy Hf. inversion Hnd as [|? ? Hnin Hnd']; subst.
  destruct Hx as [<-|Hx], Hy as [<-|Hy]; try reflexivity.
  - exfalso. apply Hnin. rewrite Hf. apply in_map. exact Hy.
  - exfalso. apply Hnin. rewrite <- Hf. apply in_map. exact Hx.
  - apply IH; assumption.
Qed.

Lemma NoDup_map_filter {A B} (f : A -> B) (p : A -> bool) (l : list A) :
  List.NoDup (map f l) -> List.NoDup (map f (List.filter p l)).
Proof.
  induction l as [|a r IH]; simpl; [intros; constructor|].
  intros Hnd. inversion Hnd as [|? ? Hnin Hnd']; subst.
  destruct (p a); simpl; [|apply IH; exact Hnd'].
  constructor; [|apply IH; exact Hnd'].
  intros Hin. apply Hnin. apply in_map_iff in Hin as (b & Hb & Hbin).
  apply filter_In in Hbin as [Hbin _]. rewrite <- Hb. apply in_map. exact Hbin.
Qed.

Lemma filter_comm {A} (p q : A -> bool) (l : list A) :
  List.filter p (List.filter q l) = List.filter q (List.filter p l).
Proof.
  induction l as [|a r IH]; simpl; [reflexivity|].
  destruct (q a) eqn:Hq, (p a) eqn:Hp; simpl; rewrite ?Hq, ?Hp, IH; reflexivity.
Qed.

Lemma filter_all_false {A} (p : A -> bool) (l : list A) :
  (forall z, In z l -> p z = false) -> List.filter p l = [].
Proof.
  induction l as [|a r IH]; simpl; intros H; [reflexivity|].
  rewrite (H a (or_introl eq_refl)). apply IH. intros z Hz. apply H. right.
  exact Hz.
Qed.

Lemma not_dropped_false (ds : list string) (r : row) :
  not_dropped ds r = false <-> In (rid r) ds.
Proof.
  unfold not_dropped. rewrite negb_false_iff, existsb_exists. split.
  - intros (y & Hy & He). apply String.eqb_eq in He. subst. exact Hy.
  - intros Hin. exists (rid r). split; [exact Hin|apply String.eqb_refl].
Qed.

Lemma not_dropped_true (ds : list string) (r : row) :
  not_dropped ds r = true <-> ~ In (rid r) ds.
Proof.
  split.
  - intros H Hin. apply not_dropped_false in Hin. congruence.
  - intros Hn. destruct (not_dropped ds r) eqn:E; [reflexivity|].
    apply not_dropped_false in E. contradiction.
Qed.

Lemma not_dropped_app (d1 d2 : list string) (r : row) :
  not_dropped (d1 ++ d2) r = not_dropped d1 r && not_dropped d2 r.
Proof. unfold not_dropped. rewrite existsb_app, negb_orb. reflexivity. Qed.

(** Dropping the ids [remove_first (rid c) (map rid cl)] from [cl] keeps
    exactly [c]. *)
Lemma remove_first_keeps_one (cl : list row) (c : row) (rest : list string) :
  List.NoDup (map rid cl) -> In c cl ->
  remove_first (rid c) (map rid cl) = Some rest ->
  List.filter (not_dropped rest) cl = [c].
Proof.
  revert rest. induction cl as [|y r IH]; intros rest Hnd Hin Hrm;
    [destruct Hin|].
  simpl in Hnd. inversion Hnd as [|? ? Hnin Hnd']; subst.
  simpl in Hrm. destruct (String.eqb_spec (rid c) (rid y)) as [He|Hne].
  - injection Hrm as <-.
    assert (c = y) as ->.
    { destruct Hin as [->|Hin]; [reflexivity|].
      exfalso. apply Hnin. rewrite <- He. apply in_map. exact Hin. }
    simpl. assert (Hk : not_dropped (map rid r) y = true)
      by (apply not_dropped_true; exact Hnin).
    rewrite Hk. f_equal.
    apply filter_all_false. intros z Hz.
    apply not_dropped_false. apply in_map. exact Hz.
  - destruct (remove_first (rid c) (map rid r)) as [rest'|] eqn:Hr';
      [|discriminate].
    injection Hrm as <-.
    destruct Hin as [->|Hin]; [contradiction|].
    simpl. assert (Hk : not_dropped (rid y :: rest') y = false).
    { apply not_dropped_false. left. reflexivity. }
    rewrite Hk. rewrite <- (IH rest' Hnd' Hin eq_refl).
    apply filter_ext_in. intros z Hz. unfold not_dropped. simpl.
    destruct (String.eqb_spec (rid z) (rid y)) as [Hzy|]; [|reflexivity].
    exfalso. apply Hnin. rewrite <- Hzy. apply in_map. exact Hz.
Qed.

(** ** [choose] *)

Lemma choose_ok (c : row) (cl : list row) (rsn : reason) (drop : bool)
    (st : selector) :
  In c cl ->
  exists rest st',
    remove_first (rid c) (map rid cl) = Some rest /\
    length rest = (length cl - 1)%nat /\
    choose c cl rsn drop st = inr (tt, st') /\
    frame st' = frame st /\ prefs st' = prefs st /\
    reasons st' = (rid c, rsn) :: reasons st /\
    drop_ids st' = (if drop then drop_ids st ++ rest else drop_ids st) /\
    cluster_count st' =
      (if drop then cluster_count st
       else cluster_count st + Z.of_nat (length rest)).
Proof.
  intros Hin.
  destruct (remove_first_in (rid c) (map rid cl)) as (rest & Hr & Hl);
    [apply in_map; exact Hin|].
  rewrite length_map in Hl.
  unfold choose. rewrite Hr. eexists rest, _.
  split; [reflexivity|]. split; [exact Hl|]. split; [reflexivity|].
  simpl. repeat split.
Qed.

(** ** [np.argmax] on a 0/1 array and [choose_by_preference] *)

Lemma argmax_from_01 (l : list nat) (i best bv : nat) :
  Forall (fun x => (x <= 1)%nat) l -> (bv <= 1)%nat ->
  (bv = 1%nat -> argmax_from l i best bv = best) /\
  (bv = 0%nat -> In 1%nat l ->
   exists p, argmax_from l i best bv = (i + p)%nat /\ nth p l 0%nat = 1%nat /\
             (p < length l)%nat).
Proof.
  revert i best bv. induction l as [|x r IH]; intros i best bv Hall Hbv.
  - split; [reflexivity|intros _ []].
  - inversion Hall as [|? ? Hx Hr]; subst. simpl.
    split.
    + intros ->. destruct (Nat.ltb_spec 1 x); [lia|].
      apply (IH (S i) best 1%nat Hr); [lia|reflexivity].
    + intros -> Hin. destruct (Nat.ltb_spec 0 x) as [Hx0|Hx0].
      * exists O. split; [|split; simpl; lia].
        rewrite Nat.add_0_r. assert (x = 1%nat) as -> by lia.
        apply (IH (S i) i 1%nat Hr); [lia|reflexivity].
      * assert (x = 0%nat) as -> by lia.
        destruct Hin as [Hin|Hin]; [discriminate|].
        destruct (proj2 (IH (S i) best 0%nat Hr (Nat.le_0_l 1)) eq_refl Hin)
          as (p & Hp & Hn & Hl).
        exists (S p). split; [rewrite Hp; lia|]. split; [exact Hn|simpl; lia].
Qed.

Lemma argmax_01 (l : list nat) :
  Forall (fun x => (x <= 1)%nat) l -> In 1%nat l ->
  exists b, argmax l = Some b /\ nth b l 0%nat = 1%nat /\ (b < length l)%nat.
Proof.
  destruct l as [|x r]; [intros _ []|]. intros Hall Hin.
  inversion Hall as [|? ? Hx Hr]; subst. simpl.
  destruct (Nat.eq_dec x 1%nat) as [->|Hx1].
  - exists O. split; [|split; simpl; lia]. f_equal.
    apply (argmax_from_01 r 1%nat 0%nat 1%nat Hr); [lia|reflexivity].
  - assert (x = 0%nat) as -> by lia.
    destruct Hin as [Hin|Hin]; [discriminate|].
    destruct (proj2 (argmax_from_01 r 1%nat 0%nat 0%nat Hr (Nat.le_0_l 1)) eq_refl Hin)
      as (p & Hp & Hn & Hl).
    exists (S p). split; [rewrite Hp; reflexivity|]. split; [exact Hn|simpl; lia].
Qed.

(** When some candidate's stem is listed in the preferences, the choice
    succeeds and picks a candidate. *)
Lemma pick_in (ps : list string) (sub : list row) :
  (exists r, In r sub /\ In (stem r) ps) ->
  exists c, pick_by_preference ps sub = inr c /\ In c sub.
Proof.
  intros (r & Hr & Hs). unfold pick_by_preference.
  set (F := fun pref => List.filter (fun r0 => String.eqb (stem r0) pref) sub).
  set (G := fun idx : list row => if (0 <? length idx)%nat then 1%nat else 0%nat).
  fold F. fold G.
  assert (Hall : Forall (fun x => (x <= 1)%nat) (map G (map F ps))).
  { apply List.Forall_forall. intros x Hx. apply in_map_iff in Hx as (y & <- & _).
    unfold G. destruct (0 <? length y)%nat; lia. }
  assert (Hin : In 1%nat (map G (map F ps))).
  { apply in_map_iff. exists (F (stem r)). split.
    - unfold G, F. destruct (Nat.ltb_spec 0 (length (List.filter
        (fun r0 => String.eqb (stem r0) (stem r)) sub))) as [|Hz];
        [reflexivity|].
      exfalso. destruct (List.filter (fun r0 => String.eqb (stem r0) (stem r)) sub)
        eqn:E; [|simpl in Hz; lia].
      assert (Hf : In r (List.filter (fun r0 => String.eqb (stem r0) (stem r)) sub)).
      { apply filter_In. split; [exact Hr|apply String.eqb_refl]. }
      rewrite E in Hf. destruct Hf.
    - apply in_map. exact Hs. }
  destruct (argmax_01 _ Hall Hin) as (b & -> & Hb & Hlen).
  rewrite Hb. simpl.
  rewrite (nth_indep _ 0%nat (G [])) in Hb by exact Hlen.
  rewrite map_nth in Hb. rewrite length_map in Hlen.
  destruct (nth b (map F ps) []) as [|c rest] eqn:E; [discriminate|].
  exists c. split; [reflexivity|].
  assert (HinF : In (c :: rest) (map F ps)).
  { rewrite <- E. apply nth_In. exact Hlen. }
  apply in_map_iff in HinF as (pref & HF & _).
  assert (Hc : In c (F pref)) by (rewrite HF; left; reflexivity).
  apply filter_In in Hc as [Hc _]. exact Hc.
Qed.

(** ** [sorted], [max], [value_counts] and the medians *)

Lemma insert_Z_perm (x : Z) (l : list Z) : Permutation (insert_Z x l) (x :: l).
Proof.
  induction l as [|y r IH]; simpl; [reflexivity|].
  destruct (x <=? y); [reflexivity|].
  rewrite IH. apply perm_swap.
Qed.

Lemma sort_Z_perm (l : list Z) : Permutation (sort_Z l) l.
Proof.
  induction l as [|x r IH]; simpl; [reflexivity|].
  rewrite insert_Z_perm, IH. reflexivity.
Qed.

Lemma fold_max_spec (r : list nat) (acc : nat) :
  (acc = fold_left Nat.max r acc \/ In (fold_left Nat.max r acc) r) /\
  (acc <= fold_left Nat.max r acc)%nat /\
  (forall y, In y r -> (y <= fold_left Nat.max r acc)%nat).
Proof.
  revert acc. induction r as [|x r IH]; intros acc; simpl.
  - split; [left; reflexivity|]. split; [lia|intros _ []].
  - destruct (IH (Nat.max acc x)) as (H1 & H2 & H3).
    split; [|split].
    + destruct H1 as [H1|H1]; [|right; right; exact H1].
      rewrite <- H1. simpl.
      destruct (Nat.max_spec acc x) as [[_ ->]|[_ ->]];
        [right; left; reflexivity|left; reflexivity].
    + lia.
    + intros y [<-|Hy]; [lia|apply H3; exact Hy].
Qed.

Lemma list_max_spec (l : list nat) (m : nat) :
  list_max l = Some m -> In m l /\ (forall y, In y l -> (y <= m)%nat).
Proof.
  destruct l as [|x r]; simpl; [discriminate|]. intros H. injection H as <-.
  destruct (fold_max_spec r x) as (H1 & H2 & H3). split.
  - destruct H1 as [H1|H1]; [left; exact H1|right; exact H1].
  - intros y [<-|Hy]; [exact H2|apply H3; exact Hy].
Qed.

Lemma list_max_nonempty (l : list nat) :
  l <> [] -> exists m, list_max l = Some m.
Proof. destruct l; [contradiction|]. intros _. eexists. reflexivity. Qed.

Lemma median_low_in (data : list Z) :
  data <> [] -> exists lo, median_low data = Some lo /\ In lo data.
Proof.
  intros Hne. unfold median_low.
  assert (Hl : length (sort_Z data) = length data)
    by apply Permutation_length, sort_Z_perm.
  assert (Hpos : (0 < length data)%nat)
    by (destruct data; [contradiction|simpl; lia]).
  destruct (Nat.eqb_spec (length (sort_Z data)) 0) as [|_]; [lia|].
  assert (Hin : forall i, (i < length (sort_Z data))%nat ->
                In (nth i (sort_Z data) 0) data).
  { intros i Hi. apply (Permutation_in _ (sort_Z_perm data)). apply nth_In.
    exact Hi. }
  destruct (Nat.odd (length (sort_Z data))); eexists; split; try reflexivity;
    apply Hin.
  - apply Nat.div_lt; lia.
  - pose proof (Nat.div_lt (length (sort_Z data)) 2). lia.
Qed.

Lemma median_high_in (data : list Z) :
  data <> [] -> exists hi, median_high data = Some hi /\ In hi data.
Proof.
  intros Hne. unfold median_high.
  assert (Hl : length (sort_Z data) = length data)
    by apply Permutation_length, sort_Z_perm.
  assert (Hpos : (0 < length data)%nat)
    by (destruct data; [contradiction|simpl; lia]).
  destruct (Nat.eqb_spec (length (sort_Z data)) 0) as [|_]; [lia|].
  eexists. split; [reflexivity|].
  apply (Permutation_in _ (sort_Z_perm data)). apply nth_In.
  apply Nat.div_lt; lia.
Qed.

Lemma max_vals_spec (l : list Z) (mc : nat) (x : Z) :
  existsb (Z.eqb x)
    (map fst (List.filter (fun vc => (snd vc =? mc)%nat) (value_counts l)))
  = true <-> In x l /\ count_occ Z.eq_dec l x = mc.
Proof.
  rewrite existsb_exists. unfold value_counts. split.
  - intros (y & Hy & Hxy). apply Z.eqb_eq in Hxy. subst y.
    apply in_map_iff in Hy as ([v n] & Hv & Hin). simpl in Hv. subst v.
    apply filter_In in Hin as [Hin Hn]. simpl in Hn.
    apply in_map_iff in Hin as (w & Hw & Hwin). injection Hw as -> ->.
    apply Nat.eqb_eq in Hn. apply nodup_In in Hwin. split; assumption.
  - intros [Hin Hc]. exists x. split; [|apply Z.eqb_refl].
    apply in_map_iff. exists (x, count_occ Z.eq_dec l x). split; [reflexivity|].
    apply filter_In. split.
    + apply in_map_iff. exists x. split; [reflexivity|]. apply nodup_In. exact Hin.
    + simpl. apply Nat.eqb_eq. exact Hc.
Qed.


(** ** [choose_by_length] *)

Lemma choose_by_length_cases (sub cl : list row) (drop : bool)
    (st : selector) :
  sub <> [] ->
  (forall r, In r sub -> In (stem r) (prefs st)) ->
  exists c rsn cands,
    choose_by_length sub cl drop st = choose c cl rsn drop st /\
    In c cands /\ (forall r, In r cands -> In r sub) /\
    ((exists r, In r sub /\ (1 < length_count sub r)%nat) ->
       rsn = Mode (length cands) /\
       cands = List.filter (fun r => forallb
                 (fun r' => (length_count sub r' <=? length_count sub r)%nat)
                 sub) sub) /\
    ((forall r, In r sub -> (length_count sub r <= 1)%nat) ->
       rsn = Median /\
       exists lo hi, median_low (map protein_len sub) = Some lo /\
         median_high (map protein_len sub) = Some hi /\
         cands = List.filter (fun r => existsb (Z.eqb (protein_len r)) [lo; hi])
                   sub).
Proof.
  intros Hne Hst. unfold choose_by_length. cbv zeta.
  assert (Hlens : map protein_len sub <> [])
    by (destruct sub; [contradiction|discriminate]).
  destruct (list_max_nonempty (map snd (value_counts (map protein_len sub))))
    as [mc Hmc].
  { unfold value_counts. rewrite map_map. simpl.
    destruct (List.nodup Z.eq_dec (map protein_len sub)) eqn:E;
      [|discriminate].
    destruct (map protein_len sub) as [|v vs] eqn:E2; [contradiction|].
    assert (Hv : In v (List.nodup Z.eq_dec (v :: vs)))
      by (apply nodup_In; left; reflexivity).
    rewrite E in Hv. destruct Hv. }
  rewrite Hmc. destruct (list_max_spec _ _ Hmc) as [Hmc_in Hmc_ge].
  assert (Hle : forall r, In r sub -> (length_count sub r <= mc)%nat).
  { intros r Hr. apply Hmc_ge. unfold value_counts. rewrite map_map.
    apply in_map_iff. exists (protein_len r). split; [reflexivity|].
    apply nodup_In. apply in_map. exact Hr. }
  assert (Hatt : exists r0, In r0 sub /\ length_count sub r0 = mc).
  { unfold value_counts in Hmc_in. rewrite map_map in Hmc_in.
    apply in_map_iff in Hmc_in as (v & Hv & Hvin). simpl in Hv.
    apply nodup_In in Hvin. apply in_map_iff in Hvin as (r0 & Hr0 & Hr0in).
    exists r0. split; [exact Hr0in|]. unfold length_count. rewrite Hr0.
    exact Hv. }
  destruct Hatt as (r0 & Hr0 & Hcnt0).
  destruct (Nat.ltb_spec 1 mc) as [Hgt|Hle1].
  - set (modal := List.filter (fun r => existsb (Z.eqb (protein_len r))
        (map fst (List.filter (fun vc => (snd vc =? mc)%nat)
           (value_counts (map protein_len sub))))) sub).
    assert (Hin_modal : forall r, In r modal <-> In r sub /\ length_count sub r = mc).
    { intros r. unfold modal. rewrite filter_In, max_vals_spec.
      unfold length_count. split.
      - intros (Hr & _ & Hc). split; assumption.
      - intros [Hr Hc]. split; [exact Hr|]. split; [apply in_map; exact Hr|exact Hc]. }
    assert (Hmodal : modal = List.filter (fun r => forallb
              (fun r' => (length_count sub r' <=? length_count sub r)%nat)
              sub) sub).
    { unfold modal. apply filter_ext_in. intros r Hr.
      destruct (existsb _ _) eqn:E1; destruct (forallb _ _) eqn:E2;
        try reflexivity; exfalso.
      - apply max_vals_spec in E1 as [_ E1].
        assert (Hf : forallb (fun r' => (length_count sub r' <=? length_count sub r)%nat)
                       sub = true).
        { apply forallb_forall. intros r' Hr'. apply Nat.leb_le.
          unfold length_count at 2. rewrite E1. apply Hle. exact Hr'. }
        congruence.
      - rewrite forallb_forall in E2.
        specialize (E2 r0 Hr0). apply Nat.leb_le in E2.
        specialize (Hle r Hr).
        assert (Hc : count_occ Z.eq_dec (map protein_len sub) (protein_len r) = mc)
          by (unfold length_count in *; lia).
        assert (Ht : existsb (Z.eqb (protein_len r))
          (map fst (List.filter (fun vc => (snd vc =? mc)%nat)
             (value_counts (map protein_len sub)))) = true).
        { apply max_vals_spec. split; [apply in_map; exact Hr|exact Hc]. }
        congruence. }
    destruct (pick_in (prefs st) modal) as (c & Hpick & Hc).
    { exists r0. split; [apply Hin_modal; split; assumption|apply Hst; exact Hr0]. }
    exists c, (Mode (length modal)), modal.
    unfold choose_by_preference. rewrite Hpick.
    split; [reflexivity|]. split; [exact Hc|]. split.
    { intros r Hr. apply Hin_modal in Hr as [Hr _]. exact Hr. }
    split.
    + intros _. split; [reflexivity|exact Hmodal].
    + intros Hall. specialize (Hall r0 Hr0). lia.
  - destruct (median_low_in _ Hlens) as (lo & Hlo & Hloin).
    destruct (median_high_in _ Hlens) as (hi & Hhi & _).
    rewrite Hlo, Hhi.
    set (pair := List.filter (fun r => existsb (Z.eqb (protein_len r)) [lo; hi]) sub).
    apply in_map_iff in Hloin as (r1 & Hr1 & Hr1in).
    destruct (pick_in (prefs st) pair) as (c & Hpick & Hc).
    { exists r1. split; [|apply Hst; exact Hr1in].
      apply filter_In. split; [exact Hr1in|]. rewrite Hr1. simpl.
      rewrite Z.eqb_refl. reflexivity. }
    exists c, Median, pair.
    unfold choose_by_preference. rewrite Hpick.
    split; [reflexivity|]. split; [exact Hc|]. split.
    { intros r Hr. apply filter_In in Hr as [Hr _]. exact Hr. }
    split.
    + intros (r & Hr & Hgt). specialize (Hle r Hr). lia.
    + intros _. split; [reflexivity|]. exists lo, hi. split; [reflexivity|].
      split; reflexivity.
Qed.

(** ** [groupby] and one iteration of the synteny-group loop *)

Lemma group_by_spec (key : row -> Z) (l : list row) (v : Z) (sub : list row) :
  In (v, sub) (group_by key l) ->
  sub = List.filter (fun r => key r =? v) l /\ In v (map key l).
Proof.
  unfold group_by. intros H. apply in_map_iff in H as (w & Hw & Hwin).
  injection Hw as -> <-. split; [reflexivity|].
  apply (Permutation_in _ (sort_Z_perm _)) in Hwin. apply nodup_In in Hwin.
  exact Hwin.
Qed.

Lemma group_by_keys (key : row -> Z) (l : list row) :
  List.NoDup (map fst (group_by key l)) /\
  (forall v, In v (map fst (group_by key l)) <-> In v (map key l)).
Proof.
  unfold group_by. rewrite map_map. simpl. rewrite map_id. split.
  - apply (Permutation_NoDup (Permutation_sym (sort_Z_perm _))).
    apply NoDup_nodup.
  - intros v. split; intros H.
    + apply (Permutation_in _ (sort_Z_perm _)) in H. apply nodup_In in H.
      exact H.
    + apply (Permutation_in _ (Permutation_sym (sort_Z_perm _))).
      apply nodup_In. exact H.
Qed.

Lemma group_nonempty (key : row -> Z) (l : list row) (v : Z) (sub : list row) :
  In (v, sub) (group_by key l) ->
  sub <> [] /\ (forall r, In r sub -> In r l /\ key r = v).
Proof.
  intros H. destruct (group_by_spec key l v sub H) as [-> Hv]. split.
  - apply in_map_iff in Hv as (r & Hr & Hrin). intros E.
    assert (Hf : In r (List.filter (fun r0 => key r0 =? v) l)).
    { apply filter_In. split; [exact Hrin|]. apply Z.eqb_eq. exact Hr. }
    rewrite E in Hf. destruct Hf.
  - intros r Hr. apply filter_In in Hr as [Hr Hk]. apply Z.eqb_eq in Hk.
    split; assumption.
Qed.

Lemma select_group_spec (cl : list row) (sid : Z) (sub : list row)
    (st : selector) :
  sub <> [] -> (forall r, In r sub -> In r cl) ->
  (forall r, In r sub -> In (stem r) (prefs st)) ->
  exists c rest st',
    select_group cl sid sub st = inr (tt, st') /\ In c sub /\
    remove_first (rid c) (map rid cl) = Some rest /\
    length rest = (length cl - 1)%nat /\
    frame st' = frame st /\ prefs st' = prefs st /\
    drop_ids st' = (if sid =? 0 then drop_ids st ++ rest else drop_ids st) /\
    cluster_count st' =
      (if sid =? 0 then cluster_count st
       else cluster_count st + Z.of_nat (length rest)).
Proof.
  intros Hne Hsub Hst. unfold select_group.
  destruct (Nat.ltb_spec 1 (length sub)) as [Hlen|Hlen].
  - destruct (choose_by_length_cases sub cl (sid =? 0) st Hne Hst)
      as (c & rsn & cands & Heq & Hc & Hcs & _ & _).
    rewrite Heq.
    destruct (choose_ok c cl rsn (sid =? 0) st)
      as (rest & st' & Hr & Hl & Hch & Hf & Hp & _ & Hd & Hcc);
      [apply Hsub, Hcs, Hc|].
    exists c, rest, st'. repeat split; auto.
  - destruct sub as [|r rs]; [contradiction|].
    assert (Hr : In r (r :: rs)) by (left; reflexivity).
    destruct (choose_ok r cl (if negb (synteny_id r =? 0) then BadSynteny
                              else Single) (sid =? 0) st)
      as (rest & st' & Hrm & Hl & Hch & Hf & Hp & _ & Hd & Hcc);
      [apply Hsub, Hr|].
    exists r, rest, st'.
    split; [destruct (negb (synteny_id r =? 0)); exact Hch|].
    repeat split; auto.
Qed.

(** ** Claims on [choose_by_preference], [choose_by_length] and the
    synteny-group loop *)

(** C2 (as the code has it): one iteration of the synteny-group loop of
    [cluster_selector] chooses one row of the group; the rows of the whole
    cluster other than the chosen one ([non_chosen_ones]) are appended to
    [drop_ids] when the group's [synteny_id] is 0 ([drop_non_chosen = not
    synteny_id]), and when it is not 0 nothing is dropped and
    [cluster_count] grows by their number, [len(cluster) - 1]. *)
Theorem select_group_drop_rule (cl : list row) (sid : Z) (sub : list row)
    (st : selector) :
  In (sid, sub) (group_by synteny_id cl) ->
  (forall r, In r cl -> In (stem r) (prefs st)) ->
  exists c rest st',
    select_group cl sid sub st = inr (tt, st') /\ In c sub /\
    remove_first (rid c) (map rid cl) = Some rest /\
    (sid = 0 -> drop_ids st' = drop_ids st ++ rest /\
                cluster_count st' = cluster_count st) /\
    (sid <> 0 -> drop_ids st' = drop_ids st /\
                 cluster_count st' =
                   cluster_count st + Z.of_nat (length cl - 1)).
Proof.
  intros Hg Hst. destruct (group_nonempty synteny_id cl sid sub Hg) as [Hne Hin].
  destruct (select_group_spec cl sid sub st Hne)
    as (c & rest & st' & Hrun & Hc & Hrm & Hl & _ & _ & Hd & Hcc).
  - intros r Hr. apply (Hin r Hr).
  - intros r Hr. apply Hst, (Hin r Hr).
  - exists c, rest, st'. split; [exact Hrun|]. split; [exact Hc|].
    split; [exact Hrm|]. split.
    + intros ->. simpl in Hd, Hcc. split; assumption.
    + intros Hz. apply Z.eqb_neq in Hz. rewrite Hz in Hd, Hcc.
      split; [exact Hd|]. rewrite Hcc, Hl. reflexivity.
Qed.

Lemma select_group_drop_rule_witness :
  exists c rest st',
    select_group
      [mk_row "g1" 7 5 100 "A"; mk_row "g2" 7 0 120 "B"]
      5 [mk_row "g1" 7 5 100 "A"]
      (mk_selector [] ["A"; "B"] [] [] "A" 0 0 0) = inr (tt, st') /\
    In c [mk_row "g1" 7 5 100 "A"] /\
    remove_first (rid c) ["g1"; "g2"] = Some rest /\
    (5 = 0 -> drop_ids st' = [] ++ rest /\ cluster_count st' = 0) /\
    (5 <> 0 -> drop_ids st' = [] /\ cluster_count st' = 0 + Z.of_nat (2 - 1)).
Proof.
  apply (select_group_drop_rule
           [mk_row "g1" 7 5 100 "A"; mk_row "g2" 7 0 120 "B"]
           5 [mk_row "g1" 7 5 100 "A"]
           (mk_selector [] ["A"; "B"] [] [] "A" 0 0 0)).
  - vm_compute. right. left. reflexivity.
  - intros r Hr. simpl in Hr.
    destruct Hr as [<-|[<-|[]]]; simpl; auto.
Defined.

(** C2 fails as stated: the cluster 7 = {g1, g2, g3} has two synteny
    groups, 5 = {g1, g2} and 7 = {g3}, none with synteny_id 0. Group 5
    chooses g1 (median of two distinct lengths), yet its non-chosen member
    g2 is not dropped: [drop_non_chosen = (not 5)] is false, so g2 is only
    counted into [cluster_count], and it stays in the downselected frame. *)
Lemma select_group_nonzero_not_dropped :
  exists out st,
    proxy_select
      [mk_row "g1" 7 5 100 "A"; mk_row "g2" 7 5 120 "B"; mk_row "g3" 7 7 90 "A"]
      ["A"; "B"] = inr (out, st) /\
    In ("g1", Median) (reasons st) /\
    drop_ids st = [] /\ cluster_count st = 5 /\
    In (mk_row "g2" 7 5 120 "B") out.
Proof.
  eexists _, _. split; [vm_compute; reflexivity|].
  vm_compute. split; [right; left; reflexivity|].
  split; [reflexivity|]. split; [reflexivity|]. right; left; reflexivity.
Qed.

(** C3: two candidates of one subcluster share the most preferred stem
    "A"; [choose_by_preference] raises nothing and keeps the first of them
    (its uniqueness test [pref_lens[best_choice] > 1] compares a 0/1 flag). *)
Lemma choose_by_preference_duplicate_stem :
  pick_by_preference ["A"; "B"]
    [mk_row "g1" 7 0 100 "A"; mk_row "g2" 7 0 100 "A"]
  = inr (mk_row "g1" 7 0 100 "A") /\
  choose_by_preference
    [mk_row "g1" 7 0 100 "A"; mk_row "g2" 7 0 100 "A"]
    [mk_row "g1" 7 0 100 "A"; mk_row "g2" 7 0 100 "A"] Median true
    (mk_selector [] ["A"; "B"] [] [] "A" 0 0 0)
  = inr (tt, mk_selector [] ["A"; "B"] [("g1", Median)] ["g2"] "A" 1 0 0).
Proof. split; vm_compute; reflexivity. Qed.

(** C4 (as the code has it): for a subcluster of two or more rows,
    [choose_by_length] writes one reason for one chosen member. When some
    protein length occurs more than once, the candidates are all members
    whose length has the maximal count (every length tied at that count)
    and the reason is [mode<N>], N their number; when all lengths are
    distinct the reason is [median] and the chosen member's length is the
    low or the high median. *)
Theorem choose_by_length_reason (sub cl : list row) (drop : bool)
    (st : selector) :
  (2 <= length sub)%nat ->
  (forall r, In r sub -> In r cl) ->
  (forall r, In r sub -> In (stem r) (prefs st)) ->
  exists c rsn st',
    choose_by_length sub cl drop st = inr (tt, st') /\
    reasons st' = (rid c, rsn) :: reasons st /\ In c sub /\
    ((exists r, In r sub /\ (1 < length_count sub r)%nat) ->
       exists modal,
         modal = List.filter (fun r => forallb
                   (fun r' => (length_count sub r' <=? length_count sub r)%nat)
                   sub) sub /\
         rsn = Mode (length modal) /\ In c modal) /\
    ((forall r, In r sub -> (length_count sub r <= 1)%nat) ->
       rsn = Median /\
       exists lo hi, median_low (map protein_len sub) = Some lo /\
         median_high (map protein_len sub) = Some hi /\
         (protein_len c = lo \/ protein_len c = hi)).
Proof.
  intros Hlen Hsub Hst.
  assert (Hne : sub <> []) by (destruct sub; simpl in Hlen; [lia|discriminate]).
  destruct (choose_by_length_cases sub cl drop st Hne Hst)
    as (c & rsn & cands & Heq & Hc & Hcs & Hmode & Hmed).
  destruct (choose_ok c cl rsn drop st)
    as (rest & st' & _ & _ & Hch & _ & _ & Hr & _ & _);
    [apply Hsub, Hcs, Hc|].
  exists c, rsn, st'. rewrite Heq.
  split; [exact Hch|]. split; [exact Hr|]. split; [apply Hcs, Hc|]. split.
  - intros Hex. destruct (Hmode Hex) as [-> Hc'].
    exists cands. split; [exact Hc'|]. split; [reflexivity|exact Hc].
  - intros Hall. destruct (Hmed Hall) as (-> & lo & hi & Hlo & Hhi & Hc').
    split; [reflexivity|]. exists lo, hi. split; [exact Hlo|].
    split; [exact Hhi|].
    rewrite Hc' in Hc. apply filter_In in Hc as [_ Hc]. simpl in Hc.
    destruct (Z.eqb_spec (protein_len c) lo); [left; assumption|].
    destruct (Z.eqb_spec (protein_len c) hi); [right; assumption|].
    discriminate.
Qed.

Lemma choose_by_length_reason_witness :
  exists c rsn st',
    choose_by_length
      [mk_row "g1" 7 0 100 "B"; mk_row "g2" 7 0 100 "A"; mk_row "g3" 7 0 150 "C"]
      [mk_row "g1" 7 0 100 "B"; mk_row "g2" 7 0 100 "A"; mk_row "g3" 7 0 150 "C"]
      true (mk_selector [] ["A"; "B"; "C"] [] [] "A" 0 0 0) = inr (tt, st') /\
    reasons st' = [(rid c, rsn)].
Proof.
  destruct (choose_by_length_reason
      [mk_row "g1" 7 0 100 "B"; mk_row "g2" 7 0 100 "A"; mk_row "g3" 7 0 150 "C"]
      [mk_row "g1" 7 0 100 "B"; mk_row "g2" 7 0 100 "A"; mk_row "g3" 7 0 150 "C"]
      true (mk_selector [] ["A"; "B"; "C"] [] [] "A" 0 0 0))
    as (c & rsn & st' & Hrun & Hr & _).
  - simpl. lia.
  - intros r Hr. exact Hr.
  - intros r Hr. simpl in Hr. destruct Hr as [<-|[<-|[<-|[]]]]; simpl; auto.
  - exists c, rsn, st'. split; [exact Hrun|exact Hr].
Defined.

(** C4 fails as stated: lengths 100, 100, 150, 150 tie at the maximal
    count 2; the code takes the mode branch with all four members and
    records [mode4], not [median]. *)
Lemma choose_by_length_tie_is_mode :
  exists st',
    choose_by_length
      [mk_row "g1" 7 0 100 "B"; mk_row "g2" 7 0 100 "A";
       mk_row "g3" 7 0 150 "C"; mk_row "g4" 7 0 150 "D"]
      [mk_row "g1" 7 0 100 "B"; mk_row "g2" 7 0 100 "A";
       mk_row "g3" 7 0 150 "C"; mk_row "g4" 7 0 150 "D"]
      true (mk_selector [] ["A"; "B"; "C"; "D"] [] [] "A" 0 0 0)
    = inr (tt, st') /\
    reasons st' = [("g2", Mode 4)] /\ reasons st' <> [("g2", Median)].
Proof.
  eexists. split; [vm_compute; reflexivity|]. vm_compute.
  split; [reflexivity|congruence].
Qed.

(** ** [cluster_selector] and the [cluster_id] loop of [proxy_genes] *)

Lemma bind_modify (f : selector -> selector) (k : M unit) (st : selector) :
  (modify f ;;; k) st = k (f st).
Proof. reflexivity. Qed.

Lemma for_each_cons {A} (f : A -> M unit) (x : A) (l : list A) (st : selector) :
  for_each f (x :: l) st =
  match f x st with
  | inl e => inl e
  | inr (_, st1) => for_each f l st1
  end.
Proof. reflexivity. Qed.

Lemma remove_first_sub (x : string) (l rest : list string) :
  remove_first x l = Some rest -> forall y, In y rest -> In y l.
Proof.
  revert rest. induction l as [|z r IH]; simpl; intros rest H; [discriminate|].
  destruct (String.eqb x z).
  - injection H as <-. intros y Hy. right. exact Hy.
  - destruct (remove_first x r) as [r'|] eqn:E; [|discriminate].
    injection H as <-. intros y [<-|Hy]; [left; reflexivity|].
    right. apply (IH r' eq_refl y Hy).
Qed.

Lemma keeps_one_spec (cl : list row) :
  keeps_one cl = true <->
  (length cl = 1%nat \/ exists r, In r cl /\ synteny_id r = 0).
Proof.
  unfold keeps_one. rewrite orb_true_iff, Nat.eqb_eq, existsb_exists.
  split; intros [H|(r & Hr & Hs)]; auto; right; exists r; split; auto.
  - apply Z.eqb_eq. exact Hs.
  - apply Z.eqb_eq in Hs. exact Hs.
Qed.

Lemma group_loop_spec (cl : list row) (G : list (Z * list row))
    (st : selector) :
  (forall p, In p G -> In p (group_by synteny_id cl)) ->
  List.NoDup (map fst G) ->
  (forall r, In r cl -> In (stem r) (prefs st)) ->
  exists st',
    for_each (fun '(sid, sub) => select_group cl sid sub) G st = inr (tt, st') /\
    frame st' = frame st /\ prefs st' = prefs st /\
    (In 0 (map fst G) ->
       exists c rest, In c cl /\ remove_first (rid c) (map rid cl) = Some rest /\
                      drop_ids st' = drop_ids st ++ rest) /\
    (~ In 0 (map fst G) -> drop_ids st' = drop_ids st).
Proof.
  revert st. induction G as [|[sid sub] G IH]; intros st HG Hnd Hst.
  - exists st. repeat split; auto. intros [].
  - simpl in Hnd. inversion Hnd as [|? ? Hnin Hnd']; subst.
    assert (Hg : In (sid, sub) (group_by synteny_id cl)) by (apply HG; left; auto).
    destruct (group_nonempty _ _ _ _ Hg) as [Hne Hin].
    destruct (select_group_spec cl sid sub st Hne)
      as (c & rest & st1 & Hrun & Hc & Hrm & _ & Hf1 & Hp1 & Hd1 & _).
    { intros r Hr. apply (Hin r Hr). }
    { intros r Hr. apply Hst, (Hin r Hr). }
    destruct (IH st1) as (st' & Hrun' & Hf' & Hp' & H0 & Hn0).
    { intros p Hp. apply HG. right. exact Hp. }
    { exact Hnd'. }
    { intros r Hr. rewrite Hp1. apply Hst, Hr. }
    exists st'. rewrite for_each_cons. simpl. rewrite Hrun, Hrun'.
    split; [reflexivity|]. split; [congruence|]. split; [congruence|].
    simpl. destruct (Z.eqb_spec sid 0) as [->|Hsid].
    + rewrite Hn0 by exact Hnin. split.
      * intros _. exists c, rest. split; [apply (Hin c Hc)|].
        split; [exact Hrm|exact Hd1].
      * intros Hn. exfalso. apply Hn. left. reflexivity.
    + split.
      * intros [H|H]; [contradiction|].
        destruct (H0 H) as (c' & rest' & Hc' & Hrm' & Hd').
        exists c', rest'. split; [exact Hc'|]. split; [exact Hrm'|].
        rewrite Hd', Hd1. reflexivity.
      * intros Hn. rewrite Hn0; [exact Hd1|]. intros H. apply Hn. right. exact H.
Qed.

Lemma cluster_selector_spec (cl : list row) (st : selector) :
  cl <> [] -> List.NoDup (map rid cl) ->
  (forall r, In r cl -> In (stem r) (prefs st)) ->
  exists st' D,
    cluster_selector cl st = inr (tt, st') /\
    frame st' = frame st /\ prefs st' = prefs st /\
    drop_ids st' = drop_ids st ++ D /\
    (forall x, In x D -> In x (map rid cl)) /\
    length (List.filter (not_dropped D) cl) =
      (if keeps_one cl then 1%nat else length cl).
Proof.
  intros Hne Hnd Hst. unfold cluster_selector. rewrite bind_modify.
  destruct (Nat.eqb_spec (length cl) 1) as [H1|H1].
  - destruct cl as [|r [|r' rs]]; [contradiction| |simpl in H1; lia].
    destruct (choose_ok r [r] Singleton true (incr_cluster_count st))
      as (rest & st' & Hrm & _ & Hch & Hf & Hp & _ & Hd & _);
      [left; reflexivity|].
    exists st', rest. split; [exact Hch|]. split; [exact Hf|].
    split; [exact Hp|]. split; [exact Hd|]. split.
    + apply (remove_first_sub _ _ _ Hrm).
    + rewrite (remove_first_keeps_one [r] r rest Hnd (or_introl eq_refl) Hrm).
      reflexivity.
  - destruct (group_by_keys synteny_id cl) as [Hknd Hkeys].
    destruct (group_loop_spec cl (group_by synteny_id cl) (incr_cluster_count st))
      as (st' & Hrun & Hf & Hp & H0 & Hn0); [auto|exact Hknd|exact Hst|].
    exists st'.
    destruct (keeps_one cl) eqn:Hk.
    + apply keeps_one_spec in Hk as [Hk|(r0 & Hr0 & Hs0)]; [contradiction|].
      destruct H0 as (c & rest & Hc & Hrm & Hd).
      { apply Hkeys. rewrite <- Hs0. apply in_map. exact Hr0. }
      exists rest. split; [exact Hrun|]. split; [exact Hf|].
      split; [exact Hp|]. split; [exact Hd|]. split.
      * apply (remove_first_sub _ _ _ Hrm).
      * rewrite (remove_first_keeps_one cl c rest Hnd Hc Hrm). reflexivity.
    + exists []. split; [exact Hrun|]. split; [exact Hf|].
      split; [exact Hp|]. split.
      * rewrite app_nil_r. apply Hn0. intros Hin. apply Hkeys in Hin.
        apply in_map_iff in Hin as (r0 & Hs0 & Hr0).
        assert (Hk' : keeps_one cl = true).
        { apply keeps_one_spec. right. exists r0. split; assumption. }
        congruence.
      * split; [intros _ []|].
        rewrite (List.filter_ext_in _ (fun _ => true)).
        -- rewrite List.filter_true. reflexivity.
        -- intros r _. reflexivity.
Qed.

Lemma rid_disjoint (fr cl : list row) (c c0 : Z) (D : list string) (r : row) :
  List.NoDup (map rid fr) ->
  cl = List.filter (fun r0 => cluster_id r0 =? c) fr ->
  (forall x, In x D -> In x (map rid cl)) ->
  In r (List.filter (fun r0 => cluster_id r0 =? c0) fr) -> c0 <> c ->
  ~ In (rid r) D.
Proof.
  intros Hnd -> HD Hr Hc HinD.
  apply HD in HinD. apply in_map_iff in HinD as (r' & Hrid & Hr').
  apply filter_In in Hr' as [Hr'fr Hc'].
  apply filter_In in Hr as [Hrfr Hc0].
  assert (r' = r) as -> by (apply (NoDup_map_inj rid fr); assumption).
  apply Z.eqb_eq in Hc', Hc0. congruence.
Qed.

Lemma clusters_loop_spec (fr : list row) (G : list (Z * list row))
    (st : selector) :
  (forall p, In p G -> In p (group_by cluster_id fr)) ->
  List.NoDup (map fst G) -> List.NoDup (map rid fr) ->
  (forall r, In r fr -> In (stem r) (prefs st)) ->
  exists st',
    for_each (fun '(_, cl) => cluster_selector cl) G st = inr (tt, st') /\
    frame st' = frame st /\
    forall c0,
      (~ In c0 (map fst G) ->
         forall r, In r (List.filter (fun r0 => cluster_id r0 =? c0) fr) ->
           (In (rid r) (drop_ids st') <-> In (rid r) (drop_ids st))) /\
      (In c0 (map fst G) ->
         (forall r, In r (List.filter (fun r0 => cluster_id r0 =? c0) fr) ->
            ~ In (rid r) (drop_ids st)) ->
         length (List.filter (not_dropped (drop_ids st'))
                   (List.filter (fun r0 => cluster_id r0 =? c0) fr)) =
         (if keeps_one (List.filter (fun r0 => cluster_id r0 =? c0) fr)
          then 1%nat
          else length (List.filter (fun r0 => cluster_id r0 =? c0) fr))).
Proof.
  revert st. induction G as [|[c cl] G IH]; intros st HG Hnd Hndfr Hst.
  - exists st. split; [reflexivity|]. split; [reflexivity|].
    intros c0. split; [intros _ r _; reflexivity|intros []].
  - simpl in Hnd. inversion Hnd as [|? ? Hnin Hnd']; subst.
    assert (Hg : In (c, cl) (group_by cluster_id fr)) by (apply HG; left; auto).
    destruct (group_by_spec _ _ _ _ Hg) as [Hcl _].
    destruct (group_nonempty _ _ _ _ Hg) as [Hne Hin].
    destruct (cluster_selector_spec cl st Hne) as
      (st1 & D & Hrun & Hf1 & Hp1 & Hd1 & HD & Hlen).
    { rewrite Hcl. apply NoDup_map_filter. exact Hndfr. }
    { intros r Hr. apply Hst, (Hin r Hr). }
    destruct (IH st1) as (st' & Hrun' & Hf' & Hspec).
    { intros p Hp. apply HG. right. exact Hp. }
    { exact Hnd'. }
    { exact Hndfr. }
    { intros r Hr. rewrite Hp1. apply Hst, Hr. }
    exists st'. rewrite for_each_cons. simpl. rewrite Hrun, Hrun'.
    split; [reflexivity|]. split; [congruence|].
    intros c0. split.
    + intros Hc0 r Hr.
      assert (Hne0 : c0 <> c) by (intros ->; apply Hc0; left; reflexivity).
      rewrite (proj1 (Hspec c0) (fun H => Hc0 (or_intror H)) r Hr).
      rewrite Hd1, in_app_iff.
      pose proof (rid_disjoint fr cl c c0 D r Hndfr Hcl HD Hr Hne0). tauto.
    + intros Hc0 Hfresh. destruct (Z.eq_dec c0 c) as [->|Hne0].
      * rewrite <- Hcl.
        rewrite (List.filter_ext_in _ (not_dropped D)); [exact Hlen|].
        intros r Hr.
        assert (Hiff : In (rid r) (drop_ids st') <-> In (rid r) (drop_ids st1)).
        { apply (proj1 (Hspec c) Hnin). rewrite <- Hcl. exact Hr. }
        assert (Hfr : ~ In (rid r) (drop_ids st)).
        { apply Hfresh. rewrite <- Hcl. exact Hr. }
        destruct (not_dropped D r) eqn:ED.
        -- apply not_dropped_true in ED. apply not_dropped_true.
           rewrite Hiff, Hd1, in_app_iff. tauto.
        -- apply not_dropped_false in ED. apply not_dropped_false.
           apply Hiff. rewrite Hd1, in_app_iff. tauto.
      * destruct Hc0 as [Hc0|Hc0]; [congruence|].
        apply (proj2 (Hspec c0) Hc0). intros r Hr.
        rewrite Hd1, in_app_iff.
        pose proof (rid_disjoint fr cl c c0 D r Hndfr Hcl HD Hr Hne0).
        pose proof (Hfresh r Hr). tauto.
Qed.

(** C1 (as the code has it): for a non-empty frame with distinct gene ids
    whose genome stems all appear in the preference list, the selection
    runs without error, and in the output a cluster keeps exactly one row
    when it has a single row or contains a row with [synteny_id = 0];
    a cluster of two or more rows none of which has [synteny_id = 0]
    keeps all its rows. *)
Theorem proxy_rows_per_cluster (fr : list row) (ps : list string) :
  fr <> [] -> List.NoDup (map rid fr) ->
  (forall r, In r fr -> In (stem r) ps) ->
  exists out st,
    proxy_select fr ps = inr (out, st) /\
    forall c,
      let cl := List.filter (fun r => cluster_id r =? c) fr in
      ((length cl = 1%nat \/ exists r, In r cl /\ synteny_id r = 0) ->
         length (List.filter (fun r => cluster_id r =? c) out) = 1%nat) /\
      (~ (length cl = 1%nat \/ exists r, In r cl /\ synteny_id r = 0) ->
         length (List.filter (fun r => cluster_id r =? c) out) = length cl).
Proof.
  intros Hne Hnd Hst.
  destruct ps as [|p ps'].
  { destruct fr as [|r rs]; [contradiction|].
    destruct (Hst r (or_introl eq_refl)). }
  set (st0 := mk_selector fr (p :: ps') [] [] p 0 0 0).
  destruct (group_by_keys cluster_id fr) as [Hknd Hkeys].
  destruct (clusters_loop_spec fr (group_by cluster_id fr) st0)
    as (st' & Hrun & Hf & Hspec); [auto|exact Hknd|exact Hnd|exact Hst|].
  unfold proxy_select. simpl. fold st0. rewrite Hrun.
  unfold downselect_frame. rewrite Hf. simpl.
  destruct fr as [|r0 rs] eqn:Efr; [contradiction|].
  rewrite <- Efr in *.
  eexists _, st'. split; [reflexivity|].
  intros c. set (cl := List.filter (fun r => cluster_id r =? c) fr).
  change (List.filter (fun r => negb (existsb (String.eqb (rid r)) (drop_ids st'))) fr)
    with (List.filter (not_dropped (drop_ids st')) fr).
  rewrite filter_comm. fold cl.
  assert (Hcount : length (List.filter (not_dropped (drop_ids st')) cl) =
                   (if keeps_one cl then 1%nat else length cl)).
  { destruct (in_dec Z.eq_dec c (map fst (group_by cluster_id fr))) as [Hin|Hin].
    - apply (proj2 (Hspec c) Hin). intros r _ [].
    - assert (Hcl : cl = []).
      { apply filter_all_false. intros r Hr. apply Z.eqb_neq. intros <-.
        apply Hin, Hkeys, in_map, Hr. }
      rewrite Hcl. reflexivity. }
  rewrite Hcount. split.
  - intros H. apply keeps_one_spec in H. rewrite H. reflexivity.
  - intros H. destruct (keeps_one cl) eqn:Hk; [|reflexivity].
    apply keeps_one_spec in Hk. contradiction.
Qed.

Lemma proxy_rows_per_cluster_witness :
  exists out st,
    proxy_select
      [mk_row "g1" 7 5 100 "A"; mk_row "g2" 7 0 120 "B";
       mk_row "g3" 8 3 90 "A"; mk_row "g4" 8 3 95 "B"] ["A"; "B"]
    = inr (out, st) /\
    length (List.filter (fun r => cluster_id r =? 7) out) = 1%nat /\
    length (List.filter (fun r => cluster_id r =? 8) out) = 2%nat.
Proof.
  destruct (proxy_rows_per_cluster
      [mk_row "g1" 7 5 100 "A"; mk_row "g2" 7 0 120 "B";
       mk_row "g3" 8 3 90 "A"; mk_row "g4" 8 3 95 "B"] ["A"; "B"])
    as (out & st & Hrun & Hc).
  - discriminate.
  - repeat constructor; simpl; intros H; repeat destruct H as [H|H];
      try discriminate; exact H.
  - intros r Hr. simpl in Hr.
    destruct Hr as [<-|[<-|[<-|[<-|[]]]]]; simpl; auto.
  - exists out, st. split; [exact Hrun|]. split.
    + apply (proj1 (Hc 7)). right. exists (mk_row "g2" 7 0 120 "B").
      split; [simpl; auto|reflexivity].
    + apply (proj2 (Hc 8)). simpl.
      intros [H|(r & Hr & Hs)]; [discriminate|].
      destruct Hr as [<-|[<-|[]]]; simpl in Hs; discriminate.
Defined.

(** C1 fails as stated: the cluster 7 = {g1, g2}, both in synteny group 5,
    keeps both rows after [downselect_frame]. *)
Lemma proxy_cluster_keeps_two_rows :
  exists out st,
    proxy_select [mk_row "g1" 7 5 100 "A"; mk_row "g2" 7 5 120 "B"] ["A"; "B"]
    = inr (out, st) /\
    length (List.filter (fun r => cluster_id r =? 7) out) = 2%nat.
Proof.
  eexists _, _. split; [vm_compute; reflexivity|]. vm_compute. reflexivity.
Qed.

End ProxyFacts.

Module ClustersFacts.

Import Clusters.

(** *** Counters *)

Lemma counter_get_add (m : gmap string Z) k n c :
  counter_get (counter_add m k n) c
  = counter_get m c + (if String.string_dec k c then n else 0).
Proof.
  unfold counter_get, counter_add. rewrite lookup_insert.
  destruct (String.string_dec k c) as [<-|Hne].
  - rewrite decide_True by reflexivity. simpl. unfold counter_get. lia.
  - rewrite decide_False by exact Hne. unfold counter_get. lia.
Qed.

Lemma counter_update_get (ks : list string) n m c :
  counter_get (counter_update ks n m) c
  = counter_get m c + n * Z.of_nat (count_occ String.string_dec ks c).
Proof.
  unfold counter_update. revert m.
  induction ks as [|k ks IH]; intros m; simpl; [lia|].
  rewrite IH, counter_get_add.
  destruct (String.string_dec k c); simpl; lia.
Qed.

Lemma count_occ_filter_le (p : string -> bool) l x :
  (count_occ String.string_dec (List.filter p l) x
   <= count_occ String.string_dec l x)%nat.
Proof.
  induction l as [|a l IH]; simpl; [lia|].
  destruct (p a); simpl; destruct (String.string_dec a x); lia.
Qed.

(** *** The co-membership graph *)

Lemma default_lookup_edge (g : graph) u y :
  default ∅ (g !! u) !! y = edge_weight g u y.
Proof.
  unfold edge_weight. destruct (g !! u); simpl; [reflexivity|].
  apply lookup_empty.
Qed.

Lemma edge_weight_add_node g n x y :
  edge_weight (add_node g n) x y = edge_weight g x y.
Proof.
  unfold add_node. destruct (g !! n) eqn:E; [reflexivity|].
  unfold edge_weight. rewrite lookup_insert.
  destruct (decide (n = x)) as [<-|Hne]; [|reflexivity].
  rewrite E. apply lookup_empty.
Qed.

Lemma edge_weight_set (g : graph) u v w x y :
  edge_weight (<[u := <[v := w]> (default ∅ (g !! u))]> g) x y
  = if decide (x = u /\ y = v) then Some w else edge_weight g x y.
Proof.
  unfold edge_weight at 1. rewrite lookup_insert.
  destruct (decide (u = x)) as [<-|Hux].
  - rewrite lookup_insert. destruct (decide (v = y)) as [<-|Hvy].
    + rewrite decide_True by auto. reflexivity.
    + rewrite decide_False by naive_solver. apply default_lookup_edge.
  - rewrite decide_False by naive_solver. reflexivity.
Qed.

Lemma edge_weight_add_edge w g u v x y :
  edge_weight (add_edge w g (u, v)) x y
  = if decide (pair_hit x y (u, v)) then Some w else edge_weight g x y.
Proof.
  unfold add_edge. cbn beta iota zeta.
  rewrite !edge_weight_set, !edge_weight_add_node. unfold pair_hit; simpl.
  destruct (decide (x = v /\ y = u)); destruct (decide (x = u /\ y = v));
    destruct (decide _); naive_solver.
Qed.

Lemma add_node_is_Some (g : graph) n z :
  is_Some (g !! z) -> is_Some (add_node g n !! z).
Proof.
  unfold add_node. destruct (g !! n); [auto|]. intros H.
  apply lookup_insert_is_Some'. auto.
Qed.

Lemma add_node_self (g : graph) n : is_Some (add_node g n !! n).
Proof.
  unfold add_node. destruct (g !! n) eqn:E; [rewrite E; eauto|].
  rewrite lookup_insert_eq. eauto.
Qed.

Lemma add_edge_is_Some w (g : graph) e z :
  is_Some (g !! z) -> is_Some (add_edge w g e !! z).
Proof.
  destruct e as [u v]. unfold add_edge. cbn beta iota zeta. intros H.
  apply lookup_insert_is_Some'. right.
  apply lookup_insert_is_Some'. right.
  apply add_node_is_Some, add_node_is_Some, H.
Qed.

Lemma fold_add_node_edge ids g x y :
  edge_weight (fold_left add_node ids g) x y = edge_weight g x y.
Proof.
  revert g. induction ids as [|n ids IH]; intros g; simpl; [reflexivity|].
  rewrite IH. apply edge_weight_add_node.
Qed.

Lemma fold_add_node_keep ids (g : graph) z :
  is_Some (g !! z) -> is_Some (fold_left add_node ids g !! z).
Proof.
  revert g. induction ids as [|n ids IH]; intros g H; simpl; [exact H|].
  apply IH, add_node_is_Some, H.
Qed.

Lemma fold_add_node_in ids (g : graph) z :
  In z ids -> is_Some (fold_left add_node ids g !! z).
Proof.
  revert g. induction ids as [|n ids IH]; intros g H; simpl; [contradiction|].
  destruct H as [<-|H].
  - apply fold_add_node_keep, add_node_self.
  - apply IH, H.
Qed.

Lemma fold_add_edge_keep_node w es (g : graph) z :
  is_Some (g !! z) -> is_Some (fold_left (add_edge w) es g !! z).
Proof.
  revert g. induction es as [|e es IH]; intros g H; simpl; [exact H|].
  apply IH, add_edge_is_Some, H.
Qed.

Lemma fold_add_edge_same w es g x y :
  edge_weight g x y = Some w ->
  edge_weight (fold_left (add_edge w) es g) x y = Some w.
Proof.
  revert g. induction es as [|[u v] es IH]; intros g H; cbn [fold_left]; [exact H|].
  apply IH. rewrite edge_weight_add_edge. destruct (decide _); auto.
Qed.

Lemma fold_add_edge_keep w es g x y :
  is_Some (edge_weight g x y) ->
  is_Some (edge_weight (fold_left (add_edge w) es g) x y).
Proof.
  revert g. induction es as [|[u v] es IH]; intros g H; cbn [fold_left]; [exact H|].
  apply IH. rewrite edge_weight_add_edge. destruct (decide _); eauto.
Qed.

Lemma fold_add_edge_hit w es g x y :
  (exists e, In e es /\ pair_hit x y e) ->
  edge_weight (fold_left (add_edge w) es g) x y = Some w.
Proof.
  revert g. induction es as [|[u v] es IH]; intros g (e & He & Hh); cbn [fold_left];
    [contradiction|].
  destruct He as [<-|He].
  - apply fold_add_edge_same. rewrite edge_weight_add_edge.
    rewrite decide_True by exact Hh. reflexivity.
  - apply IH. eauto.
Qed.

Lemma fold_add_edge_miss w es g x y :
  (forall e, In e es -> ~ pair_hit x y e) ->
  edge_weight (fold_left (add_edge w) es g) x y = edge_weight g x y.
Proof.
  revert g. induction es as [|[u v] es IH]; intros g H; cbn [fold_left]; [reflexivity|].
  rewrite IH by (intros e He; apply H; right; exact He).
  rewrite edge_weight_add_edge, decide_False by (apply H; left; reflexivity).
  reflexivity.
Qed.

(** *** Pairs of [combinations(ids, 2)] *)

Lemma combinations2_in l e :
  In e (combinations2 l) -> In e.1 l /\ In e.2 l.
Proof.
  induction l as [|a l IH]; simpl; [contradiction|].
  intros H. apply in_app_or in H. destruct H as [H|H].
  - apply in_map_iff in H. destruct H as (y & <- & Hy). simpl. auto.
  - destruct (IH H). auto.
Qed.

Lemma combinations2_length l e :
  In e (combinations2 l) -> (2 <= length l)%nat.
Proof.
  induction l as [|a l IH]; simpl; [contradiction|].
  intros H. apply in_app_or in H. destruct H as [H|H].
  - destruct l; simpl in *; [contradiction|lia].
  - specialize (IH H). lia.
Qed.

Lemma combinations2_pair l a b :
  In a l -> In b l -> a <> b ->
  exists e, In e (combinations2 l) /\ pair_hit a b e.
Proof.
  induction l as [|z l IH]; simpl; [contradiction|].
  intros Ha Hb Hab.
  destruct Ha as [->|Ha]; destruct Hb as [->|Hb].
  - contradiction.
  - exists (a, b). split; [apply in_or_app; left; apply in_map; exact Hb|].
    left. auto.
  - exists (b, a). split; [apply in_or_app; left; apply in_map; exact Ha|].
    right. auto.
  - destruct (IH Ha Hb Hab) as (e & He & Hh). exists e.
    split; [apply in_or_app; right; exact He|exact Hh].
Qed.

Lemma combinations2_dup l x :
  (2 <= count_occ String.string_dec l x)%nat -> In (x, x) (combinations2 l).
Proof.
  induction l as [|z l IH]; simpl; [lia|].
  destruct (String.string_dec z x) as [<-|Hne]; intros H.
  - apply in_or_app. left. apply in_map.
    apply (count_occ_In String.string_dec). lia.
  - apply in_or_app. right. apply IH, H.
Qed.

Section ClusterFacts.

Variable parse_chromosome : string -> option string.

Lemma parse_cluster_all_le_any count_clusters synonyms s cluster :
  (forall c, counter_get (all_counter s) c <= counter_get (any_counter s) c) ->
  forall c,
    counter_get (all_counter
      (parse_cluster parse_chromosome count_clusters synonyms s cluster)) c
    <= counter_get (any_counter
      (parse_cluster parse_chromosome count_clusters synonyms s cluster)) c.
Proof.
  destruct cluster as [cid raw]. intros Hs c.
  unfold parse_cluster.
  set (ids := expand synonyms raw).
  set (comps := concat (map (parse_subids parse_chromosome) ids)).
  set (keys := List.nodup String.string_dec comps).
  set (p := fun k => (count_occ String.string_dec comps k =? length ids)%nat).
  pose proof (count_occ_filter_le p keys c) as Hle.
  destruct count_clusters; [|destruct (1 <? length ids)%nat]; cbn -[counter_update];
    rewrite ?counter_update_get; specialize (Hs c); nia.
Qed.

(** *** One cluster *)

Lemma parse_cluster_graph count_clusters synonyms s cid raw :
  graph_of (parse_cluster parse_chromosome count_clusters synonyms s (cid, raw))
  = let ids := expand synonyms raw in
    let g1 := fold_left add_node ids (graph_of s) in
    if (1 <? length ids)%nat then
      fold_left (add_edge (Z.of_nat (length ids))) (combinations2 ids) g1
    else g1.
Proof.
  unfold parse_cluster.
  destruct count_clusters; [|destruct (1 <? length (expand synonyms raw))%nat];
    reflexivity.
Qed.

Lemma parse_cluster_lists count_clusters synonyms s cid raw :
  let t := parse_cluster parse_chromosome count_clusters synonyms s (cid, raw) in
  let ids := expand synonyms raw in
  id_list t = id_list s ++ ids /\
  size_list t = size_list s ++ repeat (Z.of_nat (length ids)) (length ids) /\
  degree_list t = degree_list s ++ [Z.of_nat (length ids)].
Proof.
  unfold parse_cluster.
  destruct count_clusters; [|destruct (1 <? length (expand synonyms raw))%nat];
    simpl; auto.
Qed.

Lemma parse_cluster_edge_hit count_clusters synonyms s cid raw x y :
  (exists e, In e (combinations2 (expand synonyms raw)) /\ pair_hit x y e) ->
  edge_weight (graph_of
    (parse_cluster parse_chromosome count_clusters synonyms s (cid, raw))) x y
  = Some (Z.of_nat (length (expand synonyms raw))).
Proof.
  intros He. rewrite parse_cluster_graph. cbv zeta.
  destruct (1 <? length (expand synonyms raw))%nat eqn:E.
  - apply fold_add_edge_hit, He.
  - destruct He as (e & He & _). apply combinations2_length in He.
    apply Nat.ltb_ge in E. lia.
Qed.

Lemma parse_cluster_edge_miss count_clusters synonyms s cid raw x y :
  (forall e, In e (combinations2 (expand synonyms raw)) -> ~ pair_hit x y e) ->
  edge_weight (graph_of
    (parse_cluster parse_chromosome count_clusters synonyms s (cid, raw))) x y
  = edge_weight (graph_of s) x y.
Proof.
  intros H. rewrite parse_cluster_graph. cbv zeta.
  destruct (1 <? length (expand synonyms raw))%nat.
  - rewrite fold_add_edge_miss by exact H. apply fold_add_node_edge.
  - apply fold_add_node_edge.
Qed.

Lemma parse_cluster_edge_keep count_clusters synonyms s cluster x y :
  is_Some (edge_weight (graph_of s) x y) ->
  is_Some (edge_weight (graph_of
    (parse_cluster parse_chromosome count_clusters synonyms s cluster)) x y).
Proof.
  destruct cluster as [cid raw]. intros H.
  rewrite parse_cluster_graph. cbv zeta.
  destruct (1 <? length (expand synonyms raw))%nat.
  - apply fold_add_edge_keep. rewrite fold_add_node_edge. exact H.
  - rewrite fold_add_node_edge. exact H.
Qed.

Lemma parse_cluster_node_keep count_clusters synonyms s cluster z :
  is_Some (graph_of s !! z) ->
  is_Some (graph_of
    (parse_cluster parse_chromosome count_clusters synonyms s cluster) !! z).
Proof.
  destruct cluster as [cid raw]. intros H.
  rewrite parse_cluster_graph. cbv zeta.
  destruct (1 <? length (expand synonyms raw))%nat.
  - apply fold_add_edge_keep_node, fold_add_node_keep, H.
  - apply fold_add_node_keep, H.
Qed.

Lemma parse_cluster_node_in count_clusters synonyms s cid raw z :
  In z (expand synonyms raw) ->
  is_Some (graph_of
    (parse_cluster parse_chromosome count_clusters synonyms s (cid, raw)) !! z).
Proof.
  intros H. rewrite parse_cluster_graph. cbv zeta.
  destruct (1 <? length (expand synonyms raw))%nat.
  - apply fold_add_edge_keep_node, fold_add_node_in, H.
  - apply fold_add_node_in, H.
Qed.

(** *** Runs of clusters *)

Lemma fold_clusters_all_le_any count_clusters synonyms clusters s :
  (forall c, counter_get (all_counter s) c <= counter_get (any_counter s) c) ->
  forall c,
    counter_get (all_counter (fold_left
      (parse_cluster parse_chromosome count_clusters synonyms) clusters s)) c
    <= counter_get (any_counter (fold_left
      (parse_cluster parse_chromosome count_clusters synonyms) clusters s)) c.
Proof.
  revert s. induction clusters as [|cl clusters IH]; intros s H;
    cbn [fold_left]; [exact H|].
  apply IH, parse_cluster_all_le_any, H.
Qed.

Lemma fold_clusters_edge_miss count_clusters synonyms post s a b :
  (forall cid raw, In (cid, raw) post ->
     ~ (In a (expand synonyms raw) /\ In b (expand synonyms raw))) ->
  edge_weight (graph_of (fold_left
    (parse_cluster parse_chromosome count_clusters synonyms) post s)) a b
  = edge_weight (graph_of s) a b.
Proof.
  revert s. induction post as [|[cid raw] post IH]; intros s H;
    cbn [fold_left]; [reflexivity|].
  rewrite IH by (intros cid' raw' Hin; apply (H cid' raw'); right; exact Hin).
  apply parse_cluster_edge_miss. intros e He Hh.
  apply combinations2_in in He. apply (H cid raw); [left; reflexivity|].
  destruct Hh as [[-> ->]|[-> ->]]; tauto.
Qed.

Lemma fold_clusters_edge_keep count_clusters synonyms post s x y :
  is_Some (edge_weight (graph_of s) x y) ->
  is_Some (edge_weight (graph_of (fold_left
    (parse_cluster parse_chromosome count_clusters synonyms) post s)) x y).
Proof.
  revert s. induction post as [|cl post IH]; intros s H;
    cbn [fold_left]; [exact H|].
  apply IH, parse_cluster_edge_keep, H.
Qed.

Lemma fold_clusters_node_keep count_clusters synonyms post s z :
  is_Some (graph_of s !! z) ->
  is_Some (graph_of (fold_left
    (parse_cluster parse_chromosome count_clusters synonyms) post s) !! z).
Proof.
  revert s. induction post as [|cl post IH]; intros s H;
    cbn [fold_left]; [exact H|].
  apply IH, parse_cluster_node_keep, H.
Qed.

Lemma fold_clusters_lists count_clusters synonyms l s :
  exists ids sizes,
    let t := fold_left
      (parse_cluster parse_chromosome count_clusters synonyms) l s in
    id_list t = id_list s ++ ids /\ size_list t = size_list s ++ sizes /\
    length ids = length sizes /\
    degree_list t = degree_list s
      ++ map (fun cl => Z.of_nat (length (expand synonyms cl.2))) l.
Proof.
  revert s. induction l as [|[cid raw] l IH]; intros s; cbn [fold_left].
  - exists [], []. simpl. rewrite !app_nil_r. auto.
  - destruct (IH (parse_cluster parse_chromosome count_clusters synonyms s
                    (cid, raw))) as (ids & sizes & Hi & Hs & Hl & Hd).
    destruct (parse_cluster_lists count_clusters synonyms s cid raw)
      as (Hi' & Hs' & Hd').
    exists (expand synonyms raw ++ ids),
      (repeat (Z.of_nat (length (expand synonyms raw)))
         (length (expand synonyms raw)) ++ sizes).
    rewrite Hi, Hs, Hd, Hi', Hs', Hd', <- !app_assoc.
    rewrite !length_app, repeat_length, Hl. simpl. auto.
Qed.

(** *** Repeated members *)

Lemma nodup_length_le (l : list string) :
  (length (List.nodup String.string_dec l) <= length l)%nat.
Proof.
  induction l as [|a l IH]; simpl; [lia|].
  destruct (in_dec String.string_dec a l); simpl; lia.
Qed.

Lemma nodup_length_lt (l : list string) x :
  (2 <= count_occ String.string_dec l x)%nat ->
  (length (List.nodup String.string_dec l) < length l)%nat.
Proof.
  induction l as [|a l IH]; simpl; [lia|].
  destruct (String.string_dec a x) as [<-|Hne]; intros H.
  - destruct (in_dec String.string_dec a l) as [_|Hn].
    + pose proof (nodup_length_le l). lia.
    + exfalso. apply Hn, (count_occ_In String.string_dec). lia.
  - specialize (IH H).
    destruct (in_dec String.string_dec a l); simpl; lia.
Qed.

(** *** Claims *)

(** C7: in a run of [parse_clusters], any two distinct members [a], [b]
    of a cluster are joined both ways by an edge whose weight is that
    cluster's post-expansion size [n_ids] when no later cluster contains
    both (the last cluster to contain a pair sets its weight, weights are
    not added up); every member of every cluster is a node of the graph;
    and a cluster with [n_ids <= 1] adds no edge at all. *)
Theorem comembership_graph count_clusters synonyms pre cid raw post a b :
  In a (expand synonyms raw) -> In b (expand synonyms raw) -> a <> b ->
  (forall cid' raw', In (cid', raw') post ->
     ~ (In a (expand synonyms raw') /\ In b (expand synonyms raw'))) ->
  let g := graph_of (parse_clusters parse_chromosome count_clusters synonyms
                       (pre ++ (cid, raw) :: post)) in
  (edge_weight g a b = Some (Z.of_nat (length (expand synonyms raw))) /\
   edge_weight g b a = Some (Z.of_nat (length (expand synonyms raw)))) /\
  (forall cid' raw' x, In (cid', raw') (pre ++ (cid, raw) :: post) ->
     In x (expand synonyms raw') -> is_Some (g !! x)) /\
  (forall s cid' raw', (length (expand synonyms raw') <= 1)%nat ->
     forall x y,
       edge_weight (graph_of (parse_cluster parse_chromosome count_clusters
                                synonyms s (cid', raw'))) x y
       = edge_weight (graph_of s) x y).
Proof.
  intros Ha Hb Hab Hpost g. unfold g, parse_clusters.
  split; [|split].
  - rewrite fold_left_app. cbn [fold_left].
    rewrite !fold_clusters_edge_miss
      by (intros cid' raw' Hin [H1 H2]; apply (Hpost cid' raw' Hin); tauto).
    split; apply parse_cluster_edge_hit.
    + apply combinations2_pair; assumption.
    + apply combinations2_pair; auto.
  - intros cid' raw' x Hin Hx.
    apply in_split in Hin. destruct Hin as (l1 & l2 & ->).
    rewrite fold_left_app. cbn [fold_left].
    apply fold_clusters_node_keep, parse_cluster_node_in, Hx.
  - intros s cid' raw' Hn x y. apply parse_cluster_edge_miss.
    intros e He. apply combinations2_length in He. lia.
Qed.

(** C9: whatever the clusters and in both counting modes, every
    identifier component [c] has [all_counter[c] <= any_counter[c]]. *)
Theorem all_counter_le_any_counter count_clusters synonyms clusters c :
  counter_get (all_counter
    (parse_clusters parse_chromosome count_clusters synonyms clusters)) c
  <= counter_get (any_counter
    (parse_clusters parse_chromosome count_clusters synonyms clusters)) c.
Proof.
  unfold parse_clusters. apply fold_clusters_all_le_any.
  intros c'. unfold counter_get. simpl. lia.
Qed.

(** C10: when the expanded member list of a cluster holds some id twice,
    its [n_ids] exceeds its number of distinct members, [n_ids] is the
    degree recorded for the cluster and the size recorded for its first
    id row, and the graph has a self-loop at that id. *)
Theorem duplicate_member_counted count_clusters synonyms pre cid raw post x :
  (2 <= count_occ String.string_dec (expand synonyms raw) x)%nat ->
  let res := parse_clusters parse_chromosome count_clusters synonyms
               (pre ++ (cid, raw) :: post) in
  let n_ids := length (expand synonyms raw) in
  (length (List.nodup String.string_dec (expand synonyms raw)) < n_ids)%nat /\
  nth (length pre) (degree_list res) 0 = Z.of_nat n_ids /\
  nth (length (id_list (parse_clusters parse_chromosome count_clusters
                          synonyms pre))) (size_list res) 0 = Z.of_nat n_ids /\
  is_Some (edge_weight (graph_of res) x x).
Proof.
  intros Hx res n_ids. split; [|split; [|split]].
  - apply (nodup_length_lt _ x Hx).
  - unfold res, parse_clusters.
    destruct (fold_clusters_lists count_clusters synonyms
                (pre ++ (cid, raw) :: post) parsed_empty)
      as (ids & sizes & _ & _ & _ & Hd).
    cbv zeta in Hd. rewrite Hd. simpl. rewrite map_app. simpl.
    rewrite app_nth2 by (rewrite length_map; lia).
    rewrite length_map, Nat.sub_diag. reflexivity.
  - unfold res, parse_clusters. rewrite fold_left_app. cbn [fold_left].
    set (s0 := fold_left (parse_cluster parse_chromosome count_clusters
                 synonyms) pre parsed_empty).
    destruct (fold_clusters_lists count_clusters synonyms pre parsed_empty)
      as (ids0 & sizes0 & Hi0 & Hs0 & Hl0 & _).
    destruct (parse_cluster_lists count_clusters synonyms s0 cid raw)
      as (_ & Hs1 & _).
    destruct (fold_clusters_lists count_clusters synonyms post
                (parse_cluster parse_chromosome count_clusters synonyms s0
                   (cid, raw))) as (ids2 & sizes2 & _ & Hs2 & _ & _).
    cbv zeta in Hi0, Hs0, Hs1, Hs2. fold s0 in Hi0, Hs0.
    rewrite Hs2, Hs1, Hs0, Hi0. simpl.
    assert (Hn : (2 <= n_ids)%nat).
    { unfold n_ids. pose proof (count_occ_bound String.string_dec x
        (expand synonyms raw)). lia. }
    rewrite <- app_assoc, app_nth2 by lia. rewrite Hl0, Nat.sub_diag.
    fold n_ids. destruct n_ids as [|n]; [lia|]. reflexivity.
  - unfold res, parse_clusters. rewrite fold_left_app. cbn [fold_left].
    apply fold_clusters_edge_keep. rewrite parse_cluster_edge_hit; [eauto|].
    exists (x, x). split; [apply combinations2_dup, Hx|left; auto].
Qed.

End ClusterFacts.

(** The clusters of Scenario C, {1: {a, b, c}, 2: {b, c}}: the edge b-c
    ends with cluster 2's size. *)
Lemma comembership_graph_witness :
  edge_weight (graph_of (parse_clusters (fun _ => None) true ∅
    ([(1%Z, ["a"; "b"; "c"])] ++ (2%Z, ["b"; "c"]) :: []))) "b" "c"
  = Some 2%Z.
Proof.
  destruct (comembership_graph (fun _ => None) true ∅
      [(1%Z, ["a"; "b"; "c"])] 2%Z ["b"; "c"] [] "b" "c")
    as [[H _] _].
  - vm_compute. left. reflexivity.
  - vm_compute. right. left. reflexivity.
  - discriminate.
  - intros ? ? [].
  - exact H.
Defined.

(** A synonym equal to an existing member: cluster 1 = {a, b} with the
    synonym a -> a is expanded to [a; b; a]. *)
Lemma duplicate_member_counted_witness :
  is_Some (edge_weight (graph_of (parse_clusters (fun _ => None) false
    {[ "a" := ["a"] ]} ([] ++ (1%Z, ["a"; "b"]) :: []))) "a" "a").
Proof.
  destruct (duplicate_member_counted (fun _ => None) false
      {[ "a" := ["a"] ]} [] 1%Z ["a"; "b"] [] "a") as (_ & _ & _ & H).
  - vm_compute. lia.
  - exact H.
Defined.

End ClustersFacts.

(* ===================================================================== *)
(** ** Further properties of the cluster code *)
(* ===================================================================== *)

Module ClustersExtra.

Import Clusters.
Import ClustersFacts.

Lemma counter_get_add_gen {K} `{Countable K} (m : gmap K Z) (k c : K) n :
  counter_get (counter_add m k n) c
  = counter_get m c + (if decide (k = c) then n else 0).
Proof.
  unfold counter_get, counter_add. rewrite lookup_insert.
  destruct (decide (k = c)) as [<-|Hne]; simpl; unfold counter_get; lia.
Qed.

Lemma counter_update_is_Some (ks : list string) n (m : gmap string Z) c :
  is_Some (counter_update ks n m !! c) <-> In c ks \/ is_Some (m !! c).
Proof.
  unfold counter_update. revert m.
  induction ks as [|k ks IH]; intros m; simpl; [tauto|].
  rewrite IH. unfold counter_add. rewrite lookup_insert_is_Some'. tauto.
Qed.

Lemma count_occ_nodup_str (l : list string) x :
  count_occ String.string_dec (List.nodup String.string_dec l) x
  = if in_dec String.string_dec x l then 1%nat else 0%nat.
Proof.
  induction l as [|a l IH]; simpl; [reflexivity|].
  destruct (in_dec String.string_dec a l) as [Ha|Ha]; simpl; rewrite ?IH;
    destruct (String.string_dec a x); subst;
    repeat match goal with
           | |- context [in_dec ?d ?y ?m] => destruct (in_dec d y m)
           end;
    simpl in *; try rewrite IH; intuition congruence.
Qed.

Lemma count_occ_filter_str (p : string -> bool) (l : list string) x :
  count_occ String.string_dec (List.filter p l) x
  = if p x then count_occ String.string_dec l x else 0%nat.
Proof.
  induction l as [|a l IH]; simpl; [destruct (p x); reflexivity|].
  destruct (p a) eqn:Hpa; simpl; rewrite IH;
    destruct (String.string_dec a x) as [->|Hax]; try rewrite Hpa;
    destruct (p x); try reflexivity; discriminate.
Qed.

Section ColumnFacts.

Variable parse_chromosome : string -> option string.

Lemma parse_cluster_columns count_clusters synonyms s cid raw :
  let t := parse_cluster parse_chromosome count_clusters synonyms s (cid, raw) in
  let n := length (expand synonyms raw) in
  cluster_list t = cluster_list s ++ repeat cid n /\
  degree_counter t = counter_add (degree_counter s) (Z.of_nat n) 1.
Proof.
  unfold parse_cluster.
  destruct count_clusters; [|destruct (1 <? length (expand synonyms raw))%nat];
    simpl; auto.
Qed.

Lemma fold_clusters_columns count_clusters synonyms l s :
  let t := fold_left (parse_cluster parse_chromosome count_clusters synonyms) l s in
  let n := fun cl : Z * list string => length (expand synonyms cl.2) in
  cluster_list t = cluster_list s ++ concat (map (fun cl => repeat cl.1 (n cl)) l) /\
  id_list t = id_list s ++ concat (map (fun cl => expand synonyms cl.2) l) /\
  size_list t = size_list s
    ++ concat (map (fun cl => repeat (Z.of_nat (n cl)) (n cl)) l) /\
  degree_list t = degree_list s ++ map (fun cl => Z.of_nat (n cl)) l.
Proof.
  revert s. induction l as [|[cid raw] l IH]; intros s; cbn [fold_left].
  - simpl. rewrite !app_nil_r. auto.
  - destruct (IH (parse_cluster parse_chromosome count_clusters synonyms s
                    (cid, raw))) as (Hc & Hi & Hs & Hd).
    destruct (parse_cluster_lists parse_chromosome count_clusters synonyms s
                cid raw) as (Hi' & Hs' & Hd').
    destruct (parse_cluster_columns count_clusters synonyms s cid raw)
      as (Hc' & _).
    cbv zeta in *. rewrite Hc, Hi, Hs, Hd, Hc', Hi', Hs', Hd'.
    simpl. rewrite <- !app_assoc. auto.
Qed.

Lemma sum_Z_app l1 l2 : sum_Z (l1 ++ l2) = sum_Z l1 + sum_Z l2.
Proof. induction l1; simpl; lia. Qed.

(** X1: [parse_clusters] returns as [id_list] the synonym-expanded members
    of the clusters in order; the cluster, size and id lists have equal
    length, there is one degree per cluster, and the degrees sum to the
    number of ids. *)
Theorem parse_clusters_columns count_clusters synonyms clusters :
  let r := parse_clusters parse_chromosome count_clusters synonyms clusters in
  id_list r = concat (map (fun cl => expand synonyms cl.2) clusters) /\
  length (cluster_list r) = length (id_list r) /\
  length (size_list r) = length (id_list r) /\
  length (degree_list r) = length clusters /\
  sum_Z (degree_list r) = Z.of_nat (length (id_list r)).
Proof.
  cbv zeta. unfold parse_clusters.
  destruct (fold_clusters_columns count_clusters synonyms clusters parsed_empty)
    as (Hc & Hi & Hs & Hd).
  cbv zeta in *. rewrite Hc, Hi, Hs, Hd. simpl. split; [reflexivity|].
  clear. induction clusters as [|[cid raw] l IH]; simpl; [auto|].
  destruct IH as (IH2 & IH3 & IH4 & IH5).
  rewrite !length_app, !repeat_length. repeat split; lia.
Qed.

(** X2: the degree counter maps each degree [n] to the number of entries
    [n] of the degree list. *)
Theorem degree_counter_histogram count_clusters synonyms clusters n :
  let r := parse_clusters parse_chromosome count_clusters synonyms clusters in
  counter_get (degree_counter r) n
  = Z.of_nat (count_occ Z.eq_dec (degree_list r) n).
Proof.
  cbv zeta. unfold parse_clusters.
  assert (Hinv : forall l s,
    counter_get (degree_counter s) n = Z.of_nat (count_occ Z.eq_dec (degree_list s) n) ->
    let t := fold_left (parse_cluster parse_chromosome count_clusters synonyms) l s in
    counter_get (degree_counter t) n = Z.of_nat (count_occ Z.eq_dec (degree_list t) n)).
  { induction l as [|[cid raw] l IH]; intros s Hs; cbn [fold_left]; [exact Hs|].
    apply IH.
    destruct (parse_cluster_lists parse_chromosome count_clusters synonyms s
                cid raw) as (_ & _ & Hd).
    destruct (parse_cluster_columns count_clusters synonyms s cid raw)
      as (_ & Hdc).
    cbv zeta in *. rewrite Hd, Hdc, counter_get_add_gen, Hs, count_occ_app.
    simpl. destruct (decide (Z.of_nat (length (expand synonyms raw)) = n));
      destruct (Z.eq_dec (Z.of_nat (length (expand synonyms raw))) n);
      try contradiction; lia. }
  apply Hinv. reflexivity.
Qed.

Lemma existsb_eqb_In (c : string) l :
  existsb (String.eqb c) l = true <-> In c l.
Proof.
  rewrite existsb_exists. split.
  - intros (x & Hx & He). apply String.eqb_eq in He. subst. exact Hx.
  - intros H. exists c. split; [exact H|apply String.eqb_refl].
Qed.

Lemma count_occ_nodup_existsb (l : list string) x :
  count_occ String.string_dec (List.nodup String.string_dec l) x
  = if existsb (String.eqb x) l then 1%nat else 0%nat.
Proof.
  rewrite count_occ_nodup_str.
  destruct (in_dec String.string_dec x l) as [H|H];
    destruct (existsb (String.eqb x) l) eqn:E; try reflexivity;
    apply existsb_eqb_In in E || (rewrite <- existsb_eqb_In in H);
    congruence || contradiction.
Qed.

(** X3: with [count_clusters], the any counter of [c] is the number of
    clusters whose parsed components contain [c], and the all counter the
    number of clusters whose components contain [c] exactly [n_ids] times. *)
Theorem count_mode_counters synonyms clusters c :
  let comps := fun cl : Z * list string =>
    concat (map (parse_subids parse_chromosome) (expand synonyms cl.2)) in
  let r := parse_clusters parse_chromosome true synonyms clusters in
  counter_get (any_counter r) c
  = Z.of_nat (length (List.filter
      (fun cl => existsb (String.eqb c) (comps cl)) clusters)) /\
  counter_get (all_counter r) c
  = Z.of_nat (length (List.filter
      (fun cl => existsb (String.eqb c) (comps cl)
                 && (count_occ String.string_dec (comps cl) c
                     =? length (expand synonyms cl.2))%nat) clusters)).
Proof.
  cbv zeta. unfold parse_clusters.
  assert (H : forall l s,
    let t := fold_left (parse_cluster parse_chromosome true synonyms) l s in
    let comps := fun cl : Z * list string =>
      concat (map (parse_subids parse_chromosome) (expand synonyms cl.2)) in
    counter_get (any_counter t) c
    = counter_get (any_counter s) c
      + Z.of_nat (length (List.filter
          (fun cl => existsb (String.eqb c) (comps cl)) l)) /\
    counter_get (all_counter t) c
    = counter_get (all_counter s) c
      + Z.of_nat (length (List.filter
          (fun cl => existsb (String.eqb c) (comps cl)
                     && (count_occ String.string_dec (comps cl) c
                         =? length (expand synonyms cl.2))%nat) l))).
  { induction l as [|[cid raw] l IH]; intros s; cbn [fold_left].
    - simpl. lia.
    - destruct (IH (parse_cluster parse_chromosome true synonyms s (cid, raw)))
        as [IH1 IH2].
      cbv zeta in *. rewrite IH1, IH2. unfold parse_cluster. cbn -[counter_update].
      rewrite !counter_update_get, count_occ_filter_str, !count_occ_nodup_existsb.
      simpl.
      destruct (existsb (String.eqb c)
                  (concat (map (parse_subids parse_chromosome)
                     (expand synonyms raw))));
      destruct (count_occ String.string_dec
                  (concat (map (parse_subids parse_chromosome)
                     (expand synonyms raw))) c =? length (expand synonyms raw))%nat;
        simpl; split; lia. }
  destruct (H clusters parsed_empty) as [H1 H2]. cbv zeta in H1, H2.
  rewrite H1, H2. unfold counter_get.
  cbn [all_counter any_counter parsed_empty]. rewrite !lookup_empty. simpl.
  split; lia.
Qed.

Lemma parse_cluster_dom count_clusters synonyms s cluster :
  (forall c, is_Some (all_counter s !! c) -> is_Some (any_counter s !! c)) ->
  forall c,
    is_Some (all_counter
      (parse_cluster parse_chromosome count_clusters synonyms s cluster) !! c) ->
    is_Some (any_counter
      (parse_cluster parse_chromosome count_clusters synonyms s cluster) !! c).
Proof.
  destruct cluster as [cid raw]. intros Hs c.
  unfold parse_cluster.
  set (ids := expand synonyms raw).
  set (comps := concat (map (parse_subids parse_chromosome) ids)).
  set (keys := List.nodup String.string_dec comps).
  set (p := fun k => (count_occ String.string_dec comps k =? length ids)%nat).
  destruct count_clusters; [|destruct (1 <? length ids)%nat];
    cbn -[counter_update]; intros H; rewrite ?counter_update_is_Some in H |- *;
    [| |auto];
    (destruct H as [Hc|Hc]; [left; apply filter_In in Hc; tauto|right; auto]).
Qed.

Lemma fold_clusters_dom count_clusters synonyms clusters s :
  (forall c, is_Some (all_counter s !! c) -> is_Some (any_counter s !! c)) ->
  forall c,
    is_Some (all_counter (fold_left
      (parse_cluster parse_chromosome count_clusters synonyms) clusters s) !! c) ->
    is_Some (any_counter (fold_left
      (parse_cluster parse_chromosome count_clusters synonyms) clusters s) !! c).
Proof.
  revert s. induction clusters as [|cl clusters IH]; intros s H;
    cbn [fold_left]; [exact H|].
  apply IH, parse_cluster_dom, H.
Qed.

Lemma in_map_to_list_lookup (m : gmap string Z) c v :
  In (c, v) (map_to_list m) <-> m !! c = Some v.
Proof. rewrite <- list_elem_of_In. apply elem_of_map_to_list. Qed.

(** X4: every id listed in the all histogram of [usearch_cluster] is listed
    in the any histogram, with or without the [min_id_freq] filter. *)
Theorem hist_all_ids_in_any count_clusters synonyms clusters min_id_freq c :
  let r := parse_clusters parse_chromosome count_clusters synonyms clusters in
  In c (hist_ids min_id_freq (all_counter r)) ->
  In c (hist_ids min_id_freq (any_counter r)).
Proof.
  cbv zeta. unfold parse_clusters.
  set (r := fold_left (parse_cluster parse_chromosome count_clusters synonyms)
              clusters parsed_empty).
  assert (Hdom : forall c, is_Some (all_counter r !! c) ->
                           is_Some (any_counter r !! c)).
  { apply fold_clusters_dom. intros c' [v Hv]. simpl in Hv. discriminate. }
  assert (Hle : forall c, counter_get (all_counter r) c
                          <= counter_get (any_counter r) c).
  { apply fold_clusters_all_le_any. intros c'. unfold counter_get. simpl. lia. }
  unfold hist_ids. intros Hin. apply in_map_iff in Hin.
  destruct Hin as ([c' v] & Hc & Hin). simpl in Hc. subst c'.
  assert (Hall : all_counter r !! c = Some v /\
                 ((min_id_freq =? 0) = false -> min_id_freq < v)).
  { destruct (min_id_freq =? 0).
    - split; [apply in_map_to_list_lookup, Hin|discriminate].
    - apply filter_In in Hin. destruct Hin as [Hin Hv]. simpl in Hv.
      split; [apply in_map_to_list_lookup, Hin|intros _; lia]. }
  destruct Hall as [Hall Hv].
  destruct (Hdom c) as [v' Hany]; [eauto|].
  specialize (Hle c). unfold counter_get in Hle. rewrite Hall, Hany in Hle.
  simpl in Hle.
  apply in_map_iff. exists (c, v'). split; [reflexivity|].
  destruct (min_id_freq =? 0).
  - apply in_map_to_list_lookup, Hany.
  - apply filter_In. split; [apply in_map_to_list_lookup, Hany|].
    simpl. specialize (Hv eq_refl). apply Z.ltb_lt. lia.
Qed.

End ColumnFacts.

(** ** [adjacency_to_graph] *)

Lemma add_node_lookup_inv (g : graph) n z :
  is_Some (add_node g n !! z) -> z = n \/ is_Some (g !! z).
Proof.
  unfold add_node. destruct (g !! n); [auto|].
  rewrite lookup_insert. destruct (decide (n = z)); auto.
Qed.

Lemma add_edge_lookup_inv w (g : graph) u v z :
  is_Some (add_edge w g (u, v) !! z) -> z = u \/ z = v \/ is_Some (g !! z).
Proof.
  unfold add_edge. cbn beta iota zeta.
  rewrite !lookup_insert.
  destruct (decide (v = z)); [auto|]. destruct (decide (u = z)); [auto|].
  intros H. apply add_node_lookup_inv in H as [H|H]; [auto|].
  apply add_node_lookup_inv in H as [H|H]; auto.
Qed.

Lemma fold_add_node_inv ids (g : graph) z :
  is_Some (fold_left add_node ids g !! z) -> In z ids \/ is_Some (g !! z).
Proof.
  revert g. induction ids as [|n ids IH]; intros g H; simpl in *; [auto|].
  apply IH in H as [H|H]; [auto|].
  apply add_node_lookup_inv in H as [H|H]; auto.
Qed.

Lemma fold_add_edge_inv w es (g : graph) z :
  is_Some (fold_left (add_edge w) es g !! z) ->
  (exists e, In e es /\ (z = e.1 \/ z = e.2)) \/ is_Some (g !! z).
Proof.
  revert g. induction es as [|[u v] es IH]; intros g H; cbn [fold_left] in *; [auto|].
  apply IH in H as [(e & He & Hz)|H]; [left; exists e; simpl; auto|].
  apply add_edge_lookup_inv in H as [->|[->|H]]; [| |auto];
    left; exists (u, v); simpl; auto.
Qed.

Lemma adjacency_step_nodes rows (g : graph) idx z :
  is_Some (adjacency_step rows g idx !! z) <->
  In z (cluster_ids rows idx) \/ is_Some (g !! z).
Proof.
  unfold adjacency_step. split.
  - intros H. destruct (1 <? _)%nat.
    + apply fold_add_edge_inv in H as [(e & He & Hz)|H].
      * apply combinations2_in in He. left. destruct Hz as [->| ->]; tauto.
      * apply fold_add_node_inv in H. exact H.
    + apply fold_add_node_inv in H. exact H.
  - intros H. destruct (1 <? _)%nat; [apply fold_add_edge_keep_node|];
      (destruct H as [H|H]; [apply fold_add_node_in, H|apply fold_add_node_keep, H]).
Qed.

Lemma adjacency_step_miss rows g idx a b :
  ~ (In a (cluster_ids rows idx) /\ In b (cluster_ids rows idx)) ->
  edge_weight (adjacency_step rows g idx) a b = edge_weight g a b.
Proof.
  intros Hn. unfold adjacency_step.
  destruct (1 <? _)%nat; [|apply fold_add_node_edge].
  rewrite fold_add_edge_miss; [apply fold_add_node_edge|].
  intros [u v] He Hh. apply combinations2_in in He. simpl in He.
  destruct Hh as [[-> ->]|[-> ->]]; simpl in *; tauto.
Qed.

Lemma adjacency_step_hit rows g idx a b :
  In a (cluster_ids rows idx) -> In b (cluster_ids rows idx) -> a <> b ->
  edge_weight (adjacency_step rows g idx) a b
  = Some (Z.of_nat (length (cluster_ids rows idx))).
Proof.
  intros Ha Hb Hab. unfold adjacency_step.
  destruct (combinations2_pair _ _ _ Ha Hb Hab) as (e & He & Hh).
  pose proof (combinations2_length _ _ He) as Hl.
  replace (1 <? _)%nat with true by (symmetry; apply Nat.ltb_lt; lia).
  apply fold_add_edge_hit. eauto.
Qed.

Lemma adjacency_fold_miss rows order g a b :
  (forall idx, In idx order ->
     ~ (In a (cluster_ids rows idx) /\ In b (cluster_ids rows idx))) ->
  edge_weight (fold_left (adjacency_step rows) order g) a b = edge_weight g a b.
Proof.
  revert g. induction order as [|idx order IH]; intros g H; simpl; [reflexivity|].
  rewrite IH by (intros i Hi; apply H; right; exact Hi).
  apply adjacency_step_miss, H. left. reflexivity.
Qed.

Lemma adjacency_fold_nodes rows order g z :
  is_Some (fold_left (adjacency_step rows) order g !! z) <->
  (exists idx, In idx order /\ In z (cluster_ids rows idx)) \/ is_Some (g !! z).
Proof.
  revert g. induction order as [|idx order IH]; intros g; simpl.
  - split; [auto|]. intros [(i & [] & _)|H]; exact H.
  - rewrite IH, adjacency_step_nodes. split.
    + intros [(i & Hi & Hz)|[Hz|Hz]]; [left; eauto|left; eauto|auto].
    + intros [(i & [<-|Hi] & Hz)|Hz]; [right; left; exact Hz|left; eauto|auto].
Qed.

Lemma cluster_ids_In rows idx x : In x (cluster_ids rows idx) <-> In (idx, x) rows.
Proof.
  unfold cluster_ids. rewrite in_map_iff. split.
  - intros ([c y] & <- & Hr). apply filter_In in Hr as [Hr Hc].
    simpl in *. apply Z.eqb_eq in Hc. subst. exact Hr.
  - intros Hr. exists (idx, x). split; [reflexivity|].
    apply filter_In. simpl. rewrite Z.eqb_refl. auto.
Qed.

Section Adjacency.

Variable rows : list (Z * string).

Lemma adjacency_fold_min order g a b :
  StronglySorted (by_size_desc rows) order -> a <> b ->
  (exists idx, In idx order /\ In a (cluster_ids rows idx) /\ In b (cluster_ids rows idx)) ->
  exists idx, In idx order /\ In a (cluster_ids rows idx) /\ In b (cluster_ids rows idx) /\
    edge_weight (fold_left (adjacency_step rows) order g) a b
    = Some (Z.of_nat (length (cluster_ids rows idx))) /\
    (forall idx', In idx' order -> In a (cluster_ids rows idx') ->
       In b (cluster_ids rows idx') ->
       (length (cluster_ids rows idx) <= length (cluster_ids rows idx'))%nat).
Proof.
  revert g. induction order as [|i order IH]; intros g Hs Hab Hex;
    [destruct Hex as (? & [] & _)|].
  apply StronglySorted_inv in Hs as [Hs Hf]. simpl.
  assert (Hd : forall j, {In a (cluster_ids rows j) /\ In b (cluster_ids rows j)} +
                         {~ (In a (cluster_ids rows j) /\ In b (cluster_ids rows j))}).
  { intros j. destruct (In_dec String.string_dec a (cluster_ids rows j));
      destruct (In_dec String.string_dec b (cluster_ids rows j)); tauto. }
  destruct (List.Exists_dec _ order Hd) as [Hr|Hr].
  - apply List.Exists_exists in Hr.
    destruct (IH (adjacency_step rows g i) Hs Hab Hr)
      as (j & Hj & Ha & Hb & Hw & Hmin).
    exists j. split; [right; exact Hj|]. do 3 (split; [assumption|]).
    intros j' [<-|Hj'] Ha' Hb'; [|apply Hmin; assumption].
    rewrite List.Forall_forall in Hf. apply (Hf j Hj).
  - destruct Hex as (j & [->|Hj] & Ha & Hb);
      [|exfalso; apply Hr, List.Exists_exists; eauto].
    exists j. split; [left; reflexivity|]. do 2 (split; [assumption|]). split.
    + rewrite adjacency_fold_miss.
      * apply adjacency_step_hit; assumption.
      * intros j' Hj' Hboth. apply Hr, List.Exists_exists. eauto.
    + intros j' [<-|Hj'] Ha' Hb'; [lia|].
      exfalso. apply Hr, List.Exists_exists. eauto.
Qed.

(** X5: [adjacency_to_graph] builds the graph whose nodes are exactly the
    ids of the clusters processed, and in which two distinct ids are
    adjacent iff they share a cluster, the edge weighing the size of the
    smallest cluster they share (later, smaller clusters overwrite the
    weights of earlier ones). *)
Theorem adjacency_graph_spec order a b :
  StronglySorted (by_size_desc rows) order -> a <> b ->
  (is_Some (adjacency_graph rows order !! a) <->
     exists idx, In idx order /\ In (idx, a) rows) /\
  ((forall idx, In idx order -> ~ (In (idx, a) rows /\ In (idx, b) rows)) ->
     edge_weight (adjacency_graph rows order) a b = None) /\
  (forall idx, In idx order -> In (idx, a) rows -> In (idx, b) rows ->
     exists idx', In idx' order /\ In (idx', a) rows /\ In (idx', b) rows /\
       edge_weight (adjacency_graph rows order) a b
       = Some (Z.of_nat (length (cluster_ids rows idx'))) /\
       (length (cluster_ids rows idx') <= length (cluster_ids rows idx))%nat).
Proof.
  intros Hs Hab. unfold adjacency_graph. split; [|split].
  - rewrite adjacency_fold_nodes. setoid_rewrite cluster_ids_In.
    rewrite lookup_empty. split; [intros [H|[? [=]]]; exact H|intros H; left; exact H].
  - intros H. rewrite adjacency_fold_miss; [unfold edge_weight; rewrite lookup_empty; reflexivity|].
    intros idx Hi. rewrite !cluster_ids_In. apply H, Hi.
  - intros idx Hi Ha Hb. rewrite <- cluster_ids_In in Ha, Hb.
    destruct (adjacency_fold_min order ∅ a b Hs Hab) as (j & Hj & Ha' & Hb' & Hw & Hmin);
      [eauto|].
    exists j. rewrite <- !cluster_ids_In. split; [exact Hj|]. do 3 (split; [assumption|]).
    apply Hmin; assumption.
Qed.

End Adjacency.

(** ** The size histogram of [clusters_to_histograms] *)

Lemma sum_Z_perm (l1 l2 : list Z) : Permutation l1 l2 -> sum_Z l1 = sum_Z l2.
Proof. unfold sum_Z. induction 1; simpl; lia. Qed.

Lemma sum_Z_cons x l : sum_Z (x :: l) = x + sum_Z l.
Proof. reflexivity. Qed.

Lemma sum_Z_map_add {A} (f g : A -> Z) l :
  sum_Z (map (fun v => f v + g v) l) = sum_Z (map f l) + sum_Z (map g l).
Proof. induction l as [|a l IH]; simpl; rewrite ?sum_Z_cons; [reflexivity|lia]. Qed.

Lemma sum_Z_indicator (a : Z) l :
  List.NoDup l ->
  sum_Z (map (fun v => if Z.eq_dec a v then 1 else 0) l) = if in_dec Z.eq_dec a l then 1 else 0.
Proof.
  induction 1 as [|x l Hx Hl IH]; [reflexivity|].
  cbn [map]. rewrite sum_Z_cons, IH.
  destruct (in_dec Z.eq_dec a (x :: l)) as [Hi|Hi];
    destruct (in_dec Z.eq_dec a l) as [Hj|Hj];
    destruct (Z.eq_dec a x) as [E|E]; try lia;
    first [ subst; contradiction
          | destruct Hi as [Hi|Hi]; [congruence|contradiction]
          | exfalso; apply Hi; (left; congruence) || (right; assumption) ].
Qed.

Lemma count_occ_sum (col l : list Z) :
  List.NoDup l -> (forall x, In x col -> In x l) ->
  sum_Z (map (fun v => Z.of_nat (count_occ Z.eq_dec col v)) l) = Z.of_nat (length col).
Proof.
  intros Hl. induction col as [|a col IH]; intros Hsub.
  - simpl. clear Hl Hsub. induction l as [|x l IHl]; [reflexivity|].
    cbn [map]. rewrite sum_Z_cons, IHl. reflexivity.
  - rewrite (map_ext _ (fun v => (if Z.eq_dec a v then 1 else 0)
                                 + Z.of_nat (count_occ Z.eq_dec col v)));
      [|intros v; simpl; destruct (Z.eq_dec a v); lia].
    rewrite sum_Z_map_add, sum_Z_indicator by exact Hl.
    rewrite IH by (intros x Hx; apply Hsub; right; exact Hx).
    destruct (in_dec Z.eq_dec a l) as [_|Hn]; [simpl; lia|].
    exfalso. apply Hn, Hsub. left. reflexivity.
Qed.

Lemma sum_counter_add (f : Z * Z -> Z) (m : gmap Z Z) k :
  (forall k v, f (k, v + 1) = f (k, v) + f (k, 1)) ->
  sum_Z (map f (map_to_list (counter_add m k 1)))
  = sum_Z (map f (map_to_list m)) + f (k, 1).
Proof.
  intros Hf. unfold counter_add, counter_get.
  destruct (m !! k) as [v|] eqn:E; simpl.
  - rewrite <- (insert_delete_eq m).
    rewrite (sum_Z_perm _ (map f ((k, v + 1) :: map_to_list (delete k m))))
      by (apply Permutation_map, map_to_list_insert, lookup_delete_eq).
    rewrite <- (sum_Z_perm (map f ((k, v) :: map_to_list (delete k m)))
                  (map f (map_to_list m)))
      by (apply Permutation_map, map_to_list_delete, E).
    cbn [map]. rewrite !sum_Z_cons, Hf. lia.
  - rewrite (sum_Z_perm _ (map f ((k, 0 + 1) :: map_to_list m)))
      by (apply Permutation_map, map_to_list_insert, E).
    cbn [map]. rewrite sum_Z_cons. replace (0 + 1) with 1 by lia. lia.
Qed.

Lemma hist_fold_sum (f : Z * Z -> Z) (l : list nat) (m : gmap Z Z) :
  (forall k v, f (k, v + 1) = f (k, v) + f (k, 1)) ->
  sum_Z (map f (map_to_list (fold_left (fun m sz => counter_add m (Z.of_nat sz) 1) l m)))
  = sum_Z (map f (map_to_list m)) + sum_Z (map (fun sz => f (Z.of_nat sz, 1)) l).
Proof.
  intros Hf. revert m. induction l as [|sz l IH]; intros m; cbn [fold_left map].
  - rewrite Z.add_0_r. reflexivity.
  - rewrite IH, sum_counter_add by exact Hf. rewrite sum_Z_cons. lia.
Qed.

Lemma hist_fold_get (l : list nat) (m : gmap Z Z) n :
  counter_get (fold_left (fun m sz => counter_add m (Z.of_nat sz) 1) l m) n
  = counter_get m n + Z.of_nat (count_occ Z.eq_dec (map Z.of_nat l) n).
Proof.
  revert m. induction l as [|sz l IH]; intros m; simpl; [lia|].
  rewrite IH, counter_get_add_gen.
  destruct (decide (Z.of_nat sz = n)); destruct (Z.eq_dec (Z.of_nat sz) n); simpl; lia.
Qed.

Lemma count_occ_map_sizes (g : Z -> nat) (l : list Z) n :
  count_occ Z.eq_dec (map Z.of_nat (map g l)) (Z.of_nat n)
  = length (List.filter (fun v => (g v =? n)%nat) l).
Proof.
  induction l as [|a l IH]; simpl; [reflexivity|].
  destruct (Z.eq_dec (Z.of_nat (g a)) (Z.of_nat n)) as [E|E];
    destruct (Nat.eqb_spec (g a) n); simpl; rewrite ?IH; lia.
Qed.

Lemma filter_length_perm {A} (p : A -> bool) (l1 l2 : list A) :
  Permutation l1 l2 -> length (List.filter p l1) = length (List.filter p l2).
Proof.
  induction 1; simpl; repeat match goal with |- context [p ?x] => destruct (p x) end;
    simpl; lia.
Qed.

(** X6: the histogram of [clusters_to_histograms] maps each size [n] to the
    number of clusters of [n] rows; its [clusts] column sums to the number
    of clusters, and [clusts * siz] sums to the number of rows, so that the
    [%clusts] and [%genes] columns each total 100. *)
Theorem size_histogram_spec (cluster_col : list Z) :
  (forall n : nat, counter_get (size_histogram cluster_col) (Z.of_nat n)
     = Z.of_nat (length (List.filter
         (fun v => (count_occ Z.eq_dec cluster_col v =? n)%nat)
         (List.nodup Z.eq_dec cluster_col)))) /\
  sum_Z (map snd (map_to_list (size_histogram cluster_col)))
  = Z.of_nat (length (List.nodup Z.eq_dec cluster_col)) /\
  sum_Z (map (fun kv => kv.1 * kv.2) (map_to_list (size_histogram cluster_col)))
  = Z.of_nat (length cluster_col).
Proof.
  pose proof (ProxyFacts.sort_Z_perm (List.nodup Z.eq_dec cluster_col)) as Hp.
  unfold size_histogram. split; [|split].
  - intros n. rewrite hist_fold_get. unfold counter_get at 1. rewrite lookup_empty.
    unfold group_sizes. rewrite count_occ_map_sizes.
    rewrite (filter_length_perm _ _ _ Hp). simpl. lia.
  - rewrite hist_fold_sum by (intros; simpl; lia).
    rewrite map_to_list_empty. cbn [map]. change (sum_Z []) with 0.
    unfold group_sizes. rewrite map_map.
    rewrite (map_ext _ (fun _ => 1)) by reflexivity.
    rewrite <- (Permutation_length Hp). clear Hp.
    induction (Proxy.sort_Z (List.nodup Z.eq_dec cluster_col)) as [|x l IH];
      [reflexivity|].
    cbn [map length]. rewrite sum_Z_cons. lia.
  - rewrite hist_fold_sum by (intros; simpl; lia).
    rewrite map_to_list_empty. cbn [map]. change (sum_Z []) with 0.
    unfold group_sizes. rewrite map_map.
    rewrite (map_ext _ (fun v => Z.of_nat (count_occ Z.eq_dec cluster_col v)))
      by (intros; simpl; lia).
    rewrite (sum_Z_perm _ _ (Permutation_map _ Hp)), Z.add_0_l.
    apply count_occ_sum; [apply NoDup_nodup|].
    intros x Hx. apply nodup_In. exact Hx.
Qed.

Lemma hist_all_ids_in_any_witness :
  In "a"%string (hist_ids 1 (all_counter
    (parse_clusters (fun _ => None) true ∅
       [(1, ["a.1"]%string); (2, ["a.2"; "b.2"]%string); (3, ["a.3"]%string)]))) /\
  In "a"%string (hist_ids 1 (any_counter
    (parse_clusters (fun _ => None) true ∅
       [(1, ["a.1"]%string); (2, ["a.2"; "b.2"]%string); (3, ["a.3"]%string)]))).
Proof.
  assert (H : In "a"%string (hist_ids 1 (all_counter
    (parse_clusters (fun _ => None) true ∅
       [(1, ["a.1"]%string); (2, ["a.2"; "b.2"]%string); (3, ["a.3"]%string)])))).
  { vm_compute. tauto. }
  split; [exact H|].
  exact (hist_all_ids_in_any (fun _ => None) true ∅ _ 1 "a"%string H).
Defined.

Lemma adjacency_graph_spec_witness :
  StronglySorted (by_size_desc [(1, "a"); (1, "b"); (1, "c"); (2, "a"); (2, "b")]%string)
    [1; 2] /\
  edge_weight (adjacency_graph [(1, "a"); (1, "b"); (1, "c"); (2, "a"); (2, "b")]%string
    [1; 2]) "a"%string "b"%string = Some 2.
Proof.
  assert (Hs : StronglySorted (by_size_desc [(1, "a"); (1, "b"); (1, "c"); (2, "a"); (2, "b")]%string)
    [1; 2]).
  { repeat constructor; vm_compute; lia. }
  split; [exact Hs|].
  destruct (adjacency_graph_spec _ _ "a"%string "b"%string Hs ltac:(discriminate))
    as (_ & _ & Hmin).
  destruct (Hmin 2) as (j & Hj & Ha & Hb & Hw & Hle); [simpl; tauto|simpl; tauto|simpl; tauto|].
  rewrite Hw. vm_compute in Hle. destruct Hj as [<-|[<-|[]]]; vm_compute in *; [lia|reflexivity].
Defined.

End ClustersExtra.

(* ===================================================================== *)
(** ** Identifiers *)
(* ===================================================================== *)

Module IdentsFacts.
Import Clusters Idents.

(** *** Characters *)

Ltac code_facts :=
  rewrite ?Bool.orb_true_iff, ?Bool.andb_true_iff, ?Nat.eqb_eq, ?Nat.leb_le,
    ?Bool.orb_false_iff, ?Bool.andb_false_iff, ?Nat.eqb_neq, ?Nat.leb_gt,
    ?Bool.negb_true_iff, ?Bool.negb_false_iff in *.

Lemma code_inj (c1 c2 : ascii) : code c1 = code c2 -> c1 = c2.
Proof.
  unfold code. intros H.
  rewrite <- (ascii_nat_embedding c1), <- (ascii_nat_embedding c2), H.
  reflexivity.
Qed.

Lemma eqb_code (c1 c2 : ascii) : Ascii.eqb c1 c2 = (code c1 =? code c2)%nat.
Proof.
  destruct (Ascii.eqb_spec c1 c2) as [->|Hne]; symmetry;
    [apply Nat.eqb_refl|].
  apply Nat.eqb_neq. intros H. apply Hne, code_inj, H.
Qed.

Lemma code_lt (c : ascii) : (code c < 256)%nat.
Proof. unfold code. apply nat_ascii_bounded. Qed.

Lemma digit_char_code (d : N) : (d < 10)%N -> code (digit_char d) = (48 + N.to_nat d)%nat.
Proof.
  intros Hd. unfold digit_char, code. apply nat_ascii_embedding. lia.
Qed.

Lemma digit_char_digit (d : N) : (d < 10)%N -> is_digit (digit_char d) = true.
Proof.
  intros Hd. unfold is_digit. rewrite digit_char_code by exact Hd.
  apply andb_true_intro. split; apply Nat.leb_le; lia.
Qed.

Lemma digit_char_value (d : N) : (d < 10)%N -> digit_value (digit_char d) = d.
Proof.
  intros Hd. unfold digit_value. rewrite digit_char_code by exact Hd. lia.
Qed.

Lemma digit_value_lt (c : ascii) : is_digit c = true -> (digit_value c < 10)%N.
Proof. unfold is_digit, digit_value. intros H. code_facts. lia. Qed.

(** A digit is not white space, a sign or an underscore. *)
Lemma digit_not_special (c : ascii) :
  is_digit c = true ->
  int_space c = false /\ Ascii.eqb c "-"%char = false /\
  Ascii.eqb c "+"%char = false /\ Ascii.eqb c "_"%char = false.
Proof.
  unfold is_digit, int_space. rewrite !eqb_code. intros H.
  change (code "-"%char) with 45%nat. change (code "+"%char) with 43%nat.
  change (code "_"%char) with 95%nat.
  code_facts. repeat split; lia.
Qed.

Lemma numeric_not_special (c : ascii) :
  is_numeric_char c = true ->
  int_space c = false /\ Ascii.eqb c "-"%char = false /\
  Ascii.eqb c "+"%char = false /\ Ascii.eqb c "_"%char = false.
Proof.
  unfold is_numeric_char, is_digit, int_space. rewrite !eqb_code. intros H.
  change (code "-"%char) with 45%nat. change (code "+"%char) with 43%nat.
  change (code "_"%char) with 95%nat.
  code_facts. repeat split; lia.
Qed.

Lemma digit_numeric (c : ascii) : is_digit c = true -> is_numeric_char c = true.
Proof. unfold is_numeric_char. intros ->. reflexivity. Qed.

(** *** Scanning the digits of [int()] *)

Lemma app_cons (c : ascii) (s t : string) : String c s +:+ t = String c (s +:+ t).
Proof. reflexivity. Qed.

Lemma app_nil (t : string) : EmptyString +:+ t = t.
Proof. reflexivity. Qed.

Lemma append_empty_r (s : string) : s +:+ EmptyString = s.
Proof. induction s as [|c s IH]; [reflexivity|]. rewrite app_cons, IH. reflexivity. Qed.

Lemma scan_digits_run (s rest : string) a nd pu :
  str_forallb is_digit s = true -> s <> EmptyString ->
  scan_digits (s +:+ rest) a nd pu
  = scan_digits rest (dec_value_from a s) (nd + String.length s) false.
Proof.
  revert a nd pu. induction s as [|c r IH]; intros a nd pu Hd Hne; [contradiction|].
  simpl in Hd. apply andb_prop in Hd as [Hc Hr]. rewrite app_cons. cbn [scan_digits].
  rewrite Hc. destruct r as [|c' r'].
  - rewrite app_nil. simpl. rewrite Nat.add_1_r. reflexivity.
  - rewrite IH by (auto || discriminate). cbn [dec_value_from String.length].
    f_equal. lia.
Qed.

Lemma scan_digits_numeric (s : string) a nd pu v k rest :
  str_forallb is_numeric_char s = true ->
  scan_digits s a nd pu = Some (v, k, rest) ->
  str_forallb int_space rest = true ->
  rest = EmptyString /\ str_forallb is_digit s = true /\
  v = dec_value_from a s /\ k = (nd + String.length s)%nat.
Proof.
  revert a nd pu. induction s as [|c r IH]; intros a nd pu Hn Hs Hsp.
  - simpl in Hs. destruct pu; [discriminate|]. injection Hs as <- <- <-.
    simpl. rewrite Nat.add_0_r. auto.
  - simpl in Hn. apply andb_prop in Hn as [Hc Hr].
    destruct (numeric_not_special c Hc) as (Hsp_c & _ & _ & Hus).
    cbn [scan_digits] in Hs. rewrite Hus in Hs.
    destruct (is_digit c) eqn:Hdc.
    + destruct (IH _ _ _ Hr Hs Hsp) as (-> & Hd & -> & ->).
      simpl. rewrite Hd, Hdc. auto.
    + destruct pu; [discriminate|]. injection Hs as _ _ <-.
      simpl in Hsp. rewrite Hsp_c in Hsp. discriminate.
Qed.

(** [int()] of a digit string is its value. *)
Lemma py_int_digits (d : string) :
  d <> EmptyString -> str_forallb is_digit d = true ->
  (String.length d <= max_str_digits)%nat ->
  py_int d = Some (Z.of_N (dec_value d)).
Proof.
  intros Hne Hd Hl. unfold py_int.
  destruct d as [|c r]; [contradiction|].
  assert (Hc : is_digit c = true) by (simpl in Hd; apply andb_prop in Hd; tauto).
  destruct (digit_not_special c Hc) as (Hsp & Hm & Hp & _).
  cbn [lstrip_int]. rewrite Hsp. cbn iota beta. rewrite Hm, Hp.
  rewrite <- (append_empty_r (String c r)), scan_digits_run by (auto || discriminate).
  cbn [scan_digits]. rewrite append_empty_r.
  replace (max_str_digits <? 0 + String.length (String c r))%nat with false
    by (symmetry; apply Nat.ltb_ge; lia).
  reflexivity.
Qed.

Lemma py_int_numeric (d : string) z :
  str_forallb is_numeric_char d = true -> py_int d = Some z ->
  str_forallb is_digit d = true /\ (String.length d <= max_str_digits)%nat /\
  z = Z.of_N (dec_value d).
Proof.
  intros Hn. unfold py_int.
  destruct d as [|c r]; [discriminate|].
  assert (Hc : is_numeric_char c = true) by (simpl in Hn; apply andb_prop in Hn; tauto).
  destruct (numeric_not_special c Hc) as (Hsp & Hm & Hp & _).
  cbn [lstrip_int]. rewrite Hsp. cbn iota beta. rewrite Hm, Hp.
  destruct (scan_digits (String c r) 0 0 true) as [[[v k] rest]|] eqn:Hs; [|discriminate].
  destruct (max_str_digits <? k)%nat eqn:Hk; [discriminate|].
  destruct (str_forallb int_space rest) eqn:Hr; [|discriminate].
  intros Hz. injection Hz as <-.
  destruct (scan_digits_numeric _ _ _ _ _ _ _ Hn Hs Hr) as (_ & Hd & -> & ->).
  apply Nat.ltb_ge in Hk. auto.
Qed.

Lemma scan_digits_all (d : string) :
  d <> EmptyString -> str_forallb is_digit d = true ->
  scan_digits d 0 0 true = Some (dec_value d, String.length d, EmptyString).
Proof.
  intros Hne Hd. rewrite <- (append_empty_r d) at 1.
  rewrite scan_digits_run by assumption. reflexivity.
Qed.

Lemma py_int_neg_digits (d : string) :
  d <> EmptyString -> str_forallb is_digit d = true ->
  (String.length d <= max_str_digits)%nat ->
  py_int (String "-"%char d) = Some (- Z.of_N (dec_value d)).
Proof.
  intros Hne Hd Hl. unfold py_int. cbn [lstrip_int].
  replace (int_space "-"%char) with false by reflexivity.
  replace (Ascii.eqb "-"%char "-"%char) with true by reflexivity.
  cbn iota beta. rewrite scan_digits_all by assumption.
  replace (max_str_digits <? String.length d)%nat with false
    by (symmetry; apply Nat.ltb_ge; lia).
  reflexivity.
Qed.

(** *** Decimal printing *)

Lemma N_digits_app f n acc : N_digits f n acc = N_digits f n [] ++ acc.
Proof.
  revert n acc. induction f as [|f IH]; intros n acc; simpl; [reflexivity|].
  destruct (n <? 10)%N; [reflexivity|].
  rewrite IH, (IH _ [_]), <- app_assoc. reflexivity.
Qed.

Lemma N_digits_lt f n acc :
  Forall (fun d => d < 10)%N acc -> Forall (fun d => d < 10)%N (N_digits f n acc).
Proof.
  revert n acc. induction f as [|f IH]; intros n acc H; simpl; [exact H|].
  destruct (n <? 10)%N eqn:E.
  - constructor; [apply N.ltb_lt, E|exact H].
  - apply IH. constructor; [apply N.mod_lt; lia|exact H].
Qed.

Lemma pow10_succ (k : nat) : (10 ^ N.of_nat (S k) = 10 * 10 ^ N.of_nat k)%N.
Proof. rewrite Nat2N.inj_succ, N.pow_succ_r'. reflexivity. Qed.

Lemma N_digits_value f n :
  (n < 10 ^ N.of_nat f)%N ->
  fold_left (fun a d => a * 10 + d)%N (N_digits f n []) 0%N = n.
Proof.
  revert n. induction f as [|f IH]; intros n Hn.
  - simpl in *. lia.
  - cbn [N_digits]. destruct (n <? 10)%N eqn:E; [simpl; lia|].
    rewrite N_digits_app, fold_left_app, IH.
    + simpl. pose proof (N.div_mod' n 10). lia.
    + rewrite pow10_succ in Hn. apply N.Div0.div_lt_upper_bound; lia.
Qed.

Lemma N_digits_length f n k :
  (n < 10 ^ N.of_nat k)%N -> (1 <= k)%nat -> (length (N_digits f n []) <= k)%nat.
Proof.
  revert n k. induction f as [|f IH]; intros n k Hn Hk; cbn [N_digits]; [simpl; lia|].
  destruct (n <? 10)%N eqn:E; [simpl; lia|].
  apply N.ltb_ge in E.
  rewrite N_digits_app, length_app. simpl.
  destruct k as [|[|k]]; [lia| |].
  - simpl in Hn. lia.
  - assert (length (N_digits f (n / 10) []) <= S k)%nat; [|lia].
    apply IH; [|lia]. rewrite pow10_succ in Hn. apply N.Div0.div_lt_upper_bound; lia.
Qed.

Lemma digits_to_string_digit ds :
  Forall (fun d => d < 10)%N ds -> str_forallb is_digit (digits_to_string ds) = true.
Proof.
  induction 1 as [|d ds Hd _ IH]; [reflexivity|].
  cbn [digits_to_string str_forallb]. rewrite digit_char_digit, IH by exact Hd.
  reflexivity.
Qed.

Lemma digits_to_string_length ds : String.length (digits_to_string ds) = length ds.
Proof.
  induction ds as [|d ds IH]; cbn [digits_to_string String.length length];
    [reflexivity|].
  rewrite IH. reflexivity.
Qed.

Lemma digits_to_string_value ds a :
  Forall (fun d => d < 10)%N ds ->
  dec_value_from a (digits_to_string ds) = fold_left (fun a d => a * 10 + d)%N ds a.
Proof.
  intros H. revert a. induction H as [|d ds Hd _ IH]; intros a; [reflexivity|].
  cbn [digits_to_string dec_value_from fold_left]. rewrite digit_char_value by exact Hd.
  apply IH.
Qed.

Lemma N_to_dec_spec (n : N) :
  N_to_dec n <> EmptyString /\ str_forallb is_digit (N_to_dec n) = true /\
  dec_value (N_to_dec n) = n /\
  (forall k, (n < 10 ^ N.of_nat k)%N -> (1 <= k)%nat ->
     (String.length (N_to_dec n) <= k)%nat).
Proof.
  unfold N_to_dec, dec_value.
  set (f := S (N.to_nat (N.size n))).
  assert (Hf : (n < 10 ^ N.of_nat f)%N).
  { unfold f. rewrite Nat2N.inj_succ, N2Nat.id.
    apply (N.lt_le_trans _ (2 ^ N.size n)); [apply N.size_gt|].
    apply (N.le_trans _ (10 ^ N.size n)); [apply N.pow_le_mono_l; lia|].
    apply N.pow_le_mono_r; lia. }
  pose proof (N_digits_lt f n [] (List.Forall_nil _)) as Hlt.
  split; [|split; [|split]].
  - assert (Hne : N_digits f n [] <> []).
    { unfold f. cbn [N_digits]. destruct (n <? 10)%N; [intros H; inversion H|].
      rewrite N_digits_app. intros H. apply app_eq_nil in H as [_ H]. inversion H. }
    destruct (N_digits f n []) as [|d ds]; [contradiction|].
    cbn [digits_to_string]. intros H. inversion H.
  - apply digits_to_string_digit, Hlt.
  - rewrite digits_to_string_value by exact Hlt. apply N_digits_value, Hf.
  - intros k Hk H1. rewrite digits_to_string_length. apply N_digits_length; assumption.
Qed.

Lemma py_int_py_str_digits (z : Z) (k : nat) :
  (1 <= k <= max_str_digits)%nat -> Z.abs z < 10 ^ Z.of_nat k ->
  py_int (py_str z) = Some z.
Proof.
  intros Hk Hz. unfold py_str.
  set (m := Z.to_N (if z <? 0 then - z else z)).
  assert (Hm : (m < 10 ^ N.of_nat k)%N).
  { apply N2Z.inj_lt. rewrite N2Z.inj_pow, nat_N_Z. unfold m.
    destruct (z <? 0) eqn:E; [apply Z.ltb_lt in E|apply Z.ltb_ge in E];
      rewrite Z2N.id by lia; change (Z.of_N 10) with 10; lia. }
  destruct (N_to_dec_spec m) as (Hne & Hd & Hv & Hl).
  specialize (Hl k Hm ltac:(lia)).
  destruct (z <? 0) eqn:E; unfold m in *.
  - rewrite py_int_neg_digits, Hv by (assumption || lia). apply Z.ltb_lt in E.
    rewrite Z2N.id by lia. f_equal. lia.
  - rewrite py_int_digits, Hv by (assumption || lia). apply Z.ltb_ge in E.
    rewrite Z2N.id by lia. reflexivity.
Qed.

(** X7: [int(str(z)) == z] for every integer of at most 4300 digits. *)
Theorem py_int_py_str (z : Z) : Z.abs z < 10 ^ 4300 -> py_int (py_str z) = Some z.
Proof.
  intros Hz. apply (py_int_py_str_digits z max_str_digits).
  - split; [apply Nat.leb_le; reflexivity|apply Nat.le_refl].
  - exact Hz.
Qed.

(** *** String prefixes, slices and searches *)

Lemma app_assoc_str (s t u : string) : (s +:+ t) +:+ u = s +:+ (t +:+ u).
Proof.
  induction s as [|c s IH]; [reflexivity|]. rewrite !app_cons, IH. reflexivity.
Qed.

Lemma starts_with_app (p s : string) :
  starts_with p s = true -> s = p +:+ str_drop (String.length p) s.
Proof.
  revert s. induction p as [|a p IH]; intros s H; [reflexivity|].
  destruct s as [|b s]; [discriminate|].
  cbn [starts_with] in H. apply andb_prop in H as [Hab H].
  apply Ascii.eqb_eq in Hab as ->. rewrite app_cons. cbn [String.length str_drop].
  rewrite <- IH by exact H. reflexivity.
Qed.

Lemma starts_with_self (p t : string) : starts_with p (p +:+ t) = true.
Proof.
  induction p as [|a p IH]; [reflexivity|].
  rewrite app_cons. cbn [starts_with]. rewrite Ascii.eqb_refl, IH. reflexivity.
Qed.

Lemma str_drop_app (p t : string) : str_drop (String.length p) (p +:+ t) = t.
Proof. induction p as [|a p IH]; [reflexivity|]. rewrite app_cons. exact IH. Qed.

Lemma str_take_app (p t : string) : str_take (String.length p) (p +:+ t) = p.
Proof.
  induction p as [|a p IH]; [reflexivity|].
  rewrite app_cons. cbn [String.length str_take]. rewrite IH. reflexivity.
Qed.

Lemma str_forallb_impl (p q : ascii -> bool) (s : string) :
  (forall c, p c = true -> q c = true) ->
  str_forallb p s = true -> str_forallb q s = true.
Proof.
  intros Hpq. induction s as [|c s IH]; [reflexivity|].
  cbn [str_forallb]. intros H. apply andb_prop in H as [Hc Hs].
  rewrite Hpq, IH by assumption. reflexivity.
Qed.

Lemma find_char_digits (d u : string) :
  str_forallb is_digit d = true ->
  find_char "G"%char (d +:+ String "G"%char u) = Some (String.length d).
Proof.
  induction d as [|c d IH]; intros Hd; [reflexivity|].
  cbn [str_forallb] in Hd. apply andb_prop in Hd as [Hc Hd].
  rewrite app_cons. cbn [find_char].
  replace (Ascii.eqb c "G"%char) with false.
  - rewrite IH by exact Hd. reflexivity.
  - symmetry. rewrite eqb_code. change (code "G"%char) with 71%nat.
    unfold is_digit in Hc. code_facts. lia.
Qed.

(** *** [str.upper()] *)

Lemma upper_app (s t : string) : upper (s +:+ t) = upper s +:+ upper t.
Proof.
  induction s as [|c s IH]; [reflexivity|].
  rewrite app_cons. cbn [upper]. rewrite IH, app_assoc_str. reflexivity.
Qed.

Lemma upper_digits (d : string) : str_forallb is_digit d = true -> upper d = d.
Proof.
  induction d as [|c d IH]; intros Hd; [reflexivity|].
  cbn [str_forallb] in Hd. apply andb_prop in Hd as [Hc Hd].
  cbn [upper]. rewrite IH by exact Hd.
  assert (Hu : upper_char c = String c EmptyString).
  { unfold is_digit in Hc. unfold upper_char. code_facts.
    destruct ((97 <=? code c) && (code c <=? 122))%nat eqn:E1;
      [code_facts; lia|].
    destruct (code c =? 223)%nat eqn:E2; [code_facts; lia|].
    destruct ((224 <=? code c) && (code c <=? 254) && negb (code c =? 247))%nat eqn:E3;
      [code_facts; lia|].
    reflexivity. }
  rewrite Hu. reflexivity.
Qed.

(** *** [str.split("_")] *)

Lemma split_on_nosep (sep : ascii) (t : string) :
  str_forallb (fun c => negb (Ascii.eqb c sep)) t = true -> split_on sep t = [t].
Proof.
  induction t as [|c t IH]; intros H; [reflexivity|].
  cbn [str_forallb] in H. apply andb_prop in H as [Hc H].
  apply negb_true_iff in Hc. cbn [split_on]. rewrite IH, Hc by exact H. reflexivity.
Qed.

Lemma split_on_last (sep : ascii) (p t : string) :
  str_forallb (fun c => negb (Ascii.eqb c sep)) t = true ->
  exists h, split_on sep (p +:+ String sep t) = h ++ [t] /\ h <> [].
Proof.
  intros Ht. induction p as [|a p IH].
  - exists [EmptyString]. split; [|discriminate].
    rewrite app_nil. cbn [split_on]. rewrite Ascii.eqb_refl, split_on_nosep by exact Ht.
    reflexivity.
  - destruct IH as (h & Hs & Hh). rewrite app_cons. cbn [split_on]. rewrite Hs.
    destruct (Ascii.eqb a sep).
    + exists (EmptyString :: h). split; [reflexivity|discriminate].
    + destruct h as [|x h]; [contradiction|].
      exists (String a x :: h). split; [reflexivity|discriminate].
Qed.

(** X8: the chromosome of an identifier with an underscore is read from
    its last part, upper-cased: after an optional "CHR", the decimal
    digits up to the first "G" give "Chr" followed by their value (so
    "MtrunA17_Chr04g0009691" gives "Chr4"). *)
Theorem parse_chromosome_last_part (p t c d u : string) :
  str_forallb (fun x => negb (Ascii.eqb x "_"%char)) t = true ->
  (c = "CHR"%string \/ c = EmptyString) ->
  upper t = c +:+ d +:+ String "G"%char u ->
  d <> EmptyString -> str_forallb is_digit d = true ->
  (String.length d <= max_str_digits)%nat ->
  parse_chromosome (p +:+ String "_"%char t)
  = Some ("Chr" +:+ py_str (Z.of_N (dec_value d))).
Proof.
  intros Ht Hc Hu Hne Hd Hl. unfold parse_chromosome.
  destruct (split_on_last "_"%char p t Ht) as (h & Hs & Hh). rewrite Hs.
  replace (1 <? length (h ++ [t]))%nat with true.
  2:{ symmetry. apply Nat.ltb_lt. rewrite length_app.
      destruct h; [contradiction|]. simpl. lia. }
  rewrite last_last, Hu.
  assert (Hrest : (if starts_with "CHR" (c +:+ d +:+ String "G"%char u)
                   then str_drop 3 (c +:+ d +:+ String "G"%char u)
                   else c +:+ d +:+ String "G"%char u) = d +:+ String "G"%char u).
  { destruct Hc as [->| ->].
    - rewrite starts_with_self. apply (str_drop_app "CHR"%string).
    - rewrite app_nil. destruct d as [|x d']; [contradiction|].
      rewrite app_cons. cbn [starts_with].
      replace (Ascii.eqb "C"%char x) with false; [reflexivity|].
      symmetry. rewrite eqb_code. change (code "C"%char) with 67%nat.
      cbn [str_forallb] in Hd. apply andb_prop in Hd as [Hx _].
      unfold is_digit in Hx. code_facts. lia. }
  rewrite Hrest, find_char_digits, str_take_app, py_int_digits by assumption.
  reflexivity.
Qed.

(** X9: an identifier without underscore is neither split nor upper-cased:
    when it has no capital "G" (as "Chr4g0009691"), it has no chromosome. *)
Theorem parse_chromosome_no_underscore (ident : string) :
  str_forallb (fun x => negb (Ascii.eqb x "_"%char)) ident = true ->
  find_char "G"%char ident = None ->
  parse_chromosome ident = None.
Proof.
  intros Hi Hg. unfold parse_chromosome.
  rewrite split_on_nosep by exact Hi. cbn [length Nat.ltb Nat.leb]. rewrite Hg.
  reflexivity.
Qed.

(** *** [dagchainer_id_to_int] *)

(** X10: [dagchainer_id_to_int] returns an integer exactly on "cl" followed
    by at most 4300 ASCII digits, the value of these digits; on every other
    id it raises [ValueError]. *)
Theorem dagchainer_id_to_int_spec (ident : string) :
  (forall z, dagchainer_id_to_int ident = inr z <->
     exists d, ident = "cl" +:+ d /\ d <> EmptyString /\
       str_forallb is_digit d = true /\ (String.length d <= max_str_digits)%nat /\
       z = Z.of_N (dec_value d)) /\
  (forall e, dagchainer_id_to_int ident = inl e -> e = ValueError).
Proof.
  split.
  - intros z. split.
    + unfold dagchainer_id_to_int.
      destruct (starts_with "cl" ident) eqn:Hs; [|discriminate]. cbn [negb].
      destruct (isnumeric (str_drop 2 ident)) eqn:Hn; [|discriminate]. cbn [negb].
      destruct (py_int (str_drop 2 ident)) as [z'|] eqn:Hp; [|discriminate].
      intros Hz. injection Hz as <-.
      exists (str_drop 2 ident). apply starts_with_app in Hs.
      change (String.length "cl") with 2%nat in Hs.
      assert (Hn' : str_forallb is_numeric_char (str_drop 2 ident) = true
                    /\ str_drop 2 ident <> EmptyString).
      { destruct (str_drop 2 ident); [discriminate|].
        split; [exact Hn|intros H; inversion H]. }
      destruct Hn' as [Hn' Hne].
      destruct (py_int_numeric _ _ Hn' Hp) as (Hd & Hl & ->).
      repeat split; auto.
    + intros (d & -> & Hne & Hd & Hl & ->). unfold dagchainer_id_to_int.
      rewrite starts_with_self. cbn [negb].
      replace (str_drop 2 ("cl" +:+ d)) with d by (symmetry; apply (str_drop_app "cl"%string)).
      replace (isnumeric d) with true.
      * cbn [negb]. rewrite py_int_digits by assumption. reflexivity.
      * destruct d as [|x r]; [contradiction|]. symmetry.
        apply (str_forallb_impl is_digit); [apply digit_numeric|exact Hd].
  - intros e. unfold dagchainer_id_to_int.
    destruct (starts_with _ _); cbn [negb];
      [destruct (isnumeric _); cbn [negb]; [destruct (py_int _)|]|];
      intros H; inversion H; reflexivity.
Qed.

(** *** [dagchainer_synteny] *)

Lemma map_synteny_ids_ok dag l :
  map_synteny_ids dag = inr l ->
  l = map (fun r => (r.2, match dagchainer_id_to_int r.1 with inr n => n | inl _ => 0 end)) dag /\
  (forall r, In r dag -> exists n, dagchainer_id_to_int r.1 = inr n).
Proof.
  revert l. induction dag as [|[cl i] dag IH]; intros l H.
  - injection H as <-. split; [reflexivity|]. intros r [].
  - cbn [map_synteny_ids] in H.
    destruct (dagchainer_id_to_int cl) as [e|n] eqn:E; [discriminate|].
    destruct (map_synteny_ids dag) as [e|l'] eqn:E'; [discriminate|].
    injection H as <-. destruct (IH l' eq_refl) as [-> Hall].
    split; [simpl; rewrite E; reflexivity|].
    intros r [<-|Hr]; [exists n; exact E|apply Hall, Hr].
Qed.

Lemma filter_map_comm {A B} (p : B -> bool) (f : A -> B) (l : list A) :
  List.filter p (map f l) = map f (List.filter (fun x => p (f x)) l).
Proof.
  induction l as [|x l IH]; simpl; [reflexivity|].
  destruct (p (f x)); simpl; rewrite IH; reflexivity.
Qed.

Lemma count_occ_labels (dag : list (string * string)) n :
  (forall r, In r dag -> exists m, dagchainer_id_to_int r.1 = inr m) ->
  count_occ Z.eq_dec
    (map (fun r => match dagchainer_id_to_int r.1 with inr m => m | inl _ => 0 end) dag) n
  = length (List.filter
      (fun r => match dagchainer_id_to_int r.1 with inr m => m =? n | inl _ => false end) dag).
Proof.
  induction dag as [|r dag IH]; intros Hall; [reflexivity|].
  destruct (Hall r (or_introl eq_refl)) as [m Hm].
  cbn [map List.filter count_occ]. rewrite Hm.
  rewrite IH by (intros q Hq; apply Hall; right; exact Hq).
  destruct (Z.eq_dec m n) as [->|Hne].
  - rewrite Z.eqb_refl. reflexivity.
  - replace (m =? n) with false by (symmetry; apply Z.eqb_neq, Hne). reflexivity.
Qed.

(** X11: after [dagchainer_synteny] reads the DAGchainer rows
    [(cluster, id)], a gene id found on no row gets [synteny_id] and
    [synteny_count] 0; an id found on one row gets the integer of its
    cluster label and the number of rows whose label has that integer
    (labels such as "cl1" and "cl01" are merged); an id found on two rows or
    more makes the lookup raise [TypeError]. *)
Theorem dagchainer_synteny_lookup dag fr ident :
  dagchainer_frame dag = inr fr ->
  let rows := List.filter (fun r => String.eqb r.2 ident) dag in
  (rows = [] ->
     id_to_synteny_property fr ident SyntenyId = inr 0 /\
     id_to_synteny_property fr ident SyntenyCount = inr 0) /\
  (forall r, rows = [r] ->
     exists n, dagchainer_id_to_int r.1 = inr n /\
       id_to_synteny_property fr ident SyntenyId = inr n /\
       id_to_synteny_property fr ident SyntenyCount
       = inr (Z.of_nat (length (List.filter
           (fun q => match dagchainer_id_to_int q.1 with inr m => m =? n | inl _ => false end)
           dag)))) /\
  ((2 <= length rows)%nat ->
     id_to_synteny_property fr ident SyntenyId = inl TypeError /\
     id_to_synteny_property fr ident SyntenyCount = inl TypeError).
Proof.
  unfold dagchainer_frame. destruct (map_synteny_ids dag) as [e|l] eqn:E; [discriminate|].
  intros H. injection H as <-. cbv zeta.
  destruct (map_synteny_ids_ok _ _ E) as [-> Hall].
  unfold id_to_synteny_property.
  rewrite filter_map_comm, filter_map_comm. cbn beta. cbn [fst snd].
  set (rows := List.filter (fun r => String.eqb r.2 ident) dag).
  split; [|split].
  - intros Hr. rewrite Hr. split; reflexivity.
  - intros r Hr. rewrite Hr.
    assert (Hin : In r dag).
    { assert (In r rows) as Hr' by (rewrite Hr; left; reflexivity).
      apply filter_In in Hr'. tauto. }
    destruct (Hall r Hin) as [n Hn]. exists n.
    cbn [map fst snd]. rewrite Hn. repeat split.
    rewrite map_map. cbn [snd]. rewrite count_occ_labels by exact Hall.
    reflexivity.
  - intros Hl. destruct rows as [|a [|b rest]]; simpl in Hl; [lia|lia|].
    split; reflexivity.
Qed.

Lemma py_int_py_str_witness :
  Z.abs (-42) < 10 ^ 4300 /\ py_int (py_str (-42)) = Some (-42).
Proof.
  assert (H : Z.abs (-42) < 10 ^ 4300) by (vm_compute; reflexivity).
  split; [exact H|]. exact (py_int_py_str (-42) H).
Defined.

Lemma parse_chromosome_last_part_witness :
  parse_chromosome "MtrunA17_Chr04g0009691"%string = Some "Chr4"%string.
Proof.
  assert (Hne : "04"%string <> EmptyString) by (intros H; inversion H).
  assert (Hl : (String.length "04" <= max_str_digits)%nat) by (apply Nat.leb_le; reflexivity).
  pose proof (parse_chromosome_last_part "MtrunA17" "Chr04g0009691" "CHR" "04" "0009691"
    eq_refl (or_introl eq_refl) eq_refl Hne eq_refl Hl) as H.
  vm_compute in H. exact H.
Defined.

Lemma parse_chromosome_no_underscore_witness :
  parse_chromosome "Chr4g0009691"%string = None.
Proof.
  exact (parse_chromosome_no_underscore "Chr4g0009691" eq_refl eq_refl).
Defined.

Lemma dagchainer_synteny_lookup_witness :
  dagchainer_frame [("cl1", "a"); ("cl01", "b"); ("cl2", "c"); ("cl2", "a")]%string
  = inr [("a", 1, 2); ("b", 1, 2); ("c", 2, 2); ("a", 2, 2)]%string /\
  id_to_synteny_property [("a", 1, 2); ("b", 1, 2); ("c", 2, 2); ("a", 2, 2)]%string
    "b"%string SyntenyCount = inr 2.
Proof.
  assert (H : dagchainer_frame [("cl1", "a"); ("cl01", "b"); ("cl2", "c"); ("cl2", "a")]%string
              = inr [("a", 1, 2); ("b", 1, 2); ("c", 2, 2); ("a", 2, 2)]%string)
    by (vm_compute; reflexivity).
  split; [exact H|].
  destruct (dagchainer_synteny_lookup _ _ "b"%string H) as (_ & H1 & _).
  destruct (H1 ("cl01", "b")%string) as (n & Hn & _ & Hc); [vm_compute; reflexivity|].
  rewrite Hc. vm_compute in Hn. injection Hn as <-. vm_compute. reflexivity.
Defined.

End IdentsFacts.

(* ===================================================================== *)
(** ** Further properties of the synteny window closures *)

Module SyntenyExtra.
Import Synteny.

Section WindowExtra.

Variable hash_tuple : list Z -> Z.
Variable k : nat.

Lemma kmer_collect_some (l : list locus) (n : nat) :
  (n <= length l)%nat ->
  Forall (fun x => cluster_size x <> 1) (take n l) ->
  kmer_collect l n = Some (map cluster_id (take n l)).
Proof.
  revert l. induction n as [|n IH]; intros l Hn Hall; [rewrite take_0; destruct l; reflexivity|].
  destruct l as [|x r]; simpl in Hn; [lia|].
  simpl in Hall |- *. inversion Hall as [|? ? Hx Hr]; subst.
  apply Z.eqb_neq in Hx. rewrite Hx.
  rewrite (IH r) by (lia || exact Hr). reflexivity.
Qed.

Lemma kmer_collect_some_inv (l : list locus) (n : nat) (cs : list Z) :
  kmer_collect l n = Some cs ->
  (n <= length l)%nat /\ Forall (fun x => cluster_size x <> 1) (take n l).
Proof.
  revert l cs. induction n as [|n IH]; intros l cs H.
  - split; [lia|constructor].
  - destruct l as [|x r]; simpl in H; [discriminate|].
    destruct (Z.eqb_spec (cluster_size x) 1) as [H1|H1]; [discriminate|].
    destruct (kmer_collect r n) as [cs'|] eqn:E; [|discriminate].
    destruct (IH r cs' E) as [Hn Hall].
    simpl. split; [lia|constructor; assumption].
Qed.

Lemma collapse_from_length (last : option Z) (l : list Z) :
  (length (collapse_from last l) <= length l)%nat.
Proof.
  revert last. induction l as [|x r IH]; intros last; simpl; [lia|].
  destruct (decide (Some x = last)); simpl;
    [specialize (IH last)|specialize (IH (Some x))]; lia.
Qed.

Lemma rmer_go_run (p r : list locus) (acc : list Z) (last : option Z)
    (c : nat) :
  (length acc + length p = k)%nat ->
  Forall (fun x => cluster_size x <> 1) p ->
  (forall j x y, p !! j = Some x -> p !! S j = Some y ->
     cluster_id x <> cluster_id y) ->
  (forall x, p !! O = Some x -> Some (cluster_id x) <> last) ->
  rmer_go k (p ++ r) acc last c = Some (acc ++ map cluster_id p, (c + length p)%nat).
Proof.
  revert acc last c. induction p as [|x p IH]; intros acc last c Hlen Hall Hadj Hhd.
  - simpl in *. rewrite app_nil_r, Nat.add_0_r.
    destruct r as [|y r]; simpl;
      (destruct (Nat.ltb_spec (length acc) k); [lia|reflexivity]).
  - simpl in Hlen. apply List.Forall_cons_iff in Hall as [Hx Hr].
    simpl. destruct (Nat.ltb_spec (length acc) k) as [_|]; [|lia].
    apply Z.eqb_neq in Hx. rewrite Hx.
    rewrite decide_False by (apply (Hhd x); reflexivity).
    rewrite (IH (acc ++ [cluster_id x]) (Some (cluster_id x)) (S c)).
    + rewrite <- app_assoc. f_equal. f_equal. lia.
    + rewrite length_app. simpl. lia.
    + exact Hr.
    + intros j y z Hy Hz. apply (Hadj (S j) y z); assumption.
    + intros y Hy E. injection E as E. apply (Hadj O x y); [reflexivity|exact Hy|].
      symmetry. exact E.
Qed.

(** X12: A k-mer window is defined exactly when the [k] positions from
    [first_index] all hold loci and none has cluster size 1 (always, for
    [k = 0], since the loop body never runs); it then spans [k] loci and
    hashes their cluster ids in order. Otherwise it is [(0, 0, 0)]. *)
Theorem kmer_block_spec (frame : list locus) (i : nat) :
  let w := take k (drop i frame) in
  ((k <= length frame - i)%nat /\ Forall (fun x => cluster_size x <> 1) w ->
     kmer_block hash_tuple k frame i = canonical hash_tuple (map cluster_id w) k /\
     wspan (kmer_block hash_tuple k frame i) = Z.of_nat k /\
     wdir (kmer_block hash_tuple k frame i) <> 0) /\
  (~ ((k <= length frame - i)%nat /\ Forall (fun x => cluster_size x <> 1) w) ->
     kmer_block hash_tuple k frame i = undefined_window).
Proof.
  intros w. unfold kmer_block. split.
  - intros [Hlen Hall].
    rewrite (kmer_collect_some (drop i frame) k) by
      (rewrite ?length_drop; lia || exact Hall).
    fold w. split; [reflexivity|].
    unfold canonical, wspan, wdir.
    destruct (hash_tuple (map cluster_id w) >? hash_tuple (rev (map cluster_id w)));
      simpl; split; (reflexivity || lia).
  - intros Hn. destruct (kmer_collect (drop i frame) k) as [cs|] eqn:E;
      [|reflexivity].
    exfalso. apply Hn. destruct (kmer_collect_some_inv _ _ _ E) as [Hl Hall].
    rewrite length_drop in Hl. split; [lia|exact Hall].
Qed.

(** X13: When the [k] loci from [first_index] all exist, none has cluster size 1
    and no two neighbours among them share a cluster id, the r-mer closure
    collapses nothing and returns the same window as the k-mer closure. *)
Theorem rmer_block_eq_kmer_block (frame : list locus) (i : nat) :
  let w := take k (drop i frame) in
  (i + k <= length frame)%nat ->
  Forall (fun x => cluster_size x <> 1) w ->
  (forall j x y, w !! j = Some x -> w !! S j = Some y ->
     cluster_id x <> cluster_id y) ->
  rmer_block hash_tuple k frame i = kmer_block hash_tuple k frame i.
Proof.
  intros w Hlen Hall Hadj.
  assert (Hw : length w = k) by (subst w; rewrite length_take, length_drop; lia).
  unfold rmer_block, kmer_block.
  rewrite <- (take_drop k (drop i frame)) at 1. fold w.
  rewrite (rmer_go_run w (drop k (drop i frame)) [] None O).
  - rewrite (kmer_collect_some (drop i frame) k)
      by (rewrite ?length_drop; lia || exact Hall).
    fold w. simpl. rewrite Hw. reflexivity.
  - simpl. exact Hw.
  - exact Hall.
  - exact Hadj.
  - intros x _ E. discriminate.
Qed.

(** X14: A defined r-mer window spans at least [k] loci (each token takes one
    locus or more) and no more loci than remain from [first_index]. *)
Theorem rmer_span_bounds (frame : list locus) (i : nat) (span dir h : Z) :
  rmer_block hash_tuple k frame i = (span, dir, h) ->
  dir <> 0 ->
  Z.of_nat k <= span <= Z.of_nat (length frame - i).
Proof.
  unfold rmer_block.
  destruct (rmer_go k (drop i frame) [] None 0) as [[T n]|] eqn:Hgo.
  - intros Hw _.
    destruct (SyntenyFacts.rmer_go_spec k (drop i frame) [] None O T n) as
      (m & Hc & Hm & HT & HlenT & _); [simpl; lia|exact Hgo|].
    simpl in Hc. subst m.
    assert (Hs : span = Z.of_nat n).
    { unfold canonical in Hw.
      destruct (hash_tuple T >? hash_tuple (rev T));
        injection Hw as <- _ _; reflexivity. }
    subst span. rewrite length_drop in Hm.
    pose proof (collapse_from_length None (map cluster_id (take n (drop i frame))))
      as Hc.
    rewrite length_map, length_take in Hc. simpl in HT. subst T. lia.
  - intros Hw Hdir. unfold undefined_window in Hw.
    injection Hw as _ <- _. contradiction.
Qed.

End WindowExtra.

Lemma rmer_block_eq_kmer_block_witness :
  rmer_block demo_hash 3 [mk_locus 4 2; mk_locus 5 2; mk_locus 7 3; mk_locus 8 3] 1%nat
  = kmer_block demo_hash 3 [mk_locus 4 2; mk_locus 5 2; mk_locus 7 3; mk_locus 8 3] 1%nat.
Proof.
  apply (rmer_block_eq_kmer_block demo_hash 3
           [mk_locus 4 2; mk_locus 5 2; mk_locus 7 3; mk_locus 8 3] 1%nat).
  - simpl. lia.
  - vm_compute. repeat constructor; discriminate.
  - intros j x y Hx Hy. vm_compute in Hx, Hy.
    destruct j as [|[|[|j]]]; try discriminate;
      injection Hx as <-; injection Hy as <-; discriminate.
Defined.

Lemma rmer_span_bounds_witness :
  Z.of_nat 2 <= 3 <= Z.of_nat (length
    [mk_locus 5 2; mk_locus 5 2; mk_locus 7 2; mk_locus 9 2] - 0).
Proof.
  assert (Hw : rmer_block demo_hash 2
                 [mk_locus 5 2; mk_locus 5 2; mk_locus 7 2; mk_locus 9 2] 0%nat
               = (3, -1, 6949)) by (vm_compute; reflexivity).
  exact (rmer_span_bounds demo_hash 2 _ 0%nat 3 (-1) 6949 Hw
           ltac:(discriminate)).
Defined.

End SyntenyExtra.

(* ===================================================================== *)
(** ** Further properties of [proxy_genes] and [ProxySelector] *)

Module ProxyExtra.
Import Proxy.

(** ** The preference order *)

Lemma filter_filter_andb {A} (p q : A -> bool) (l : list A) :
  List.filter p (List.filter q l) = List.filter (fun x => q x && p x) l.
Proof.
  induction l as [|x r IH]; simpl; [reflexivity|].
  destruct (q x) eqn:Eq, (p x) eqn:Ep; simpl; rewrite ?Eq, ?Ep, ?IH; reflexivity.
Qed.

Lemma remove_first_nodup (x : string) (d : list string) :
  List.NoDup d -> In x d ->
  remove_first x d = Some (List.filter (fun y => negb (String.eqb y x)) d).
Proof.
  induction d as [|y r IH]; intros Hnd Hin; [destruct Hin|].
  inversion Hnd as [|? ? Hy Hr]; subst. simpl.
  destruct (String.eqb_spec x y) as [<-|Hxy].
  - rewrite String.eqb_refl. simpl. f_equal.
    symmetry. rewrite (List.filter_ext_in _ (fun _ => true)).
    + apply List.filter_true.
    + intros z Hz. destruct (String.eqb_spec z x) as [->|]; [contradiction|reflexivity].
  - destruct Hin as [->|Hin]; [contradiction|].
    rewrite (IH Hr Hin).
    destruct (String.eqb_spec y x) as [->|]; [contradiction|reflexivity].
Qed.

Lemma remove_prefs_ok (ps d : list string) :
  List.NoDup d -> List.NoDup ps -> (forall x, In x ps -> In x d) ->
  remove_prefs ps d = Some (List.filter (not_in_prefs ps) d).
Proof.
  revert d. induction ps as [|x r IH]; intros d Hnd Hps Hin; simpl.
  - f_equal. symmetry. rewrite (List.filter_ext_in _ (fun _ => true));
      [apply List.filter_true|reflexivity].
  - inversion Hps as [|? ? Hx Hr]; subst.
    assert (Hxd : In x d) by (apply Hin; left; reflexivity).
    apply ClustersExtra.existsb_eqb_In in Hxd as Hb. rewrite Hb. simpl.
    rewrite (remove_first_nodup x d Hnd Hxd).
    rewrite IH.
    + rewrite filter_filter_andb. f_equal. apply List.filter_ext. intros y.
      unfold not_in_prefs. simpl.
      destruct (String.eqb_spec y x); reflexivity.
    + apply List.NoDup_filter. exact Hnd.
    + exact Hr.
    + intros y Hy. apply filter_In. split; [apply Hin; right; exact Hy|].
      destruct (String.eqb_spec y x) as [->|]; [contradiction|reflexivity].
Qed.

Lemma remove_prefs_some (ps d d' : list string) :
  List.NoDup d -> remove_prefs ps d = Some d' ->
  List.NoDup ps /\ (forall x, In x ps -> In x d).
Proof.
  revert d d'. induction ps as [|x r IH]; intros d d' Hnd H.
  - split; [constructor|intros _ []].
  - simpl in H. destruct (existsb (String.eqb x) d) eqn:Hb; [|discriminate].
    apply ClustersExtra.existsb_eqb_In in Hb.
    rewrite (remove_first_nodup x d Hnd Hb) in H. simpl in H.
    destruct (IH _ _ (List.NoDup_filter _ Hnd) H) as [Hr Hin].
    split.
    + constructor; [|exact Hr]. intros Hx. apply Hin in Hx.
      apply filter_In in Hx as [_ E]. rewrite String.eqb_refl in E. discriminate.
    + intros y [<-|Hy]; [exact Hb|]. apply Hin in Hy.
      apply filter_In in Hy as [Hy _]. exact Hy.
Qed.

(** X15: The genome preference order of [proxy_genes]: with distinct genome
    stems [set_keys], the given stems are accepted exactly when they are
    distinct stems of the set (else the command exits); the order is then
    the given stems followed by the remaining stems in reverse file order,
    a permutation of [set_keys]. With no stems given it is [set_keys]
    reversed. *)
Theorem build_prefs_spec (set_keys ps : list string) :
  List.NoDup set_keys ->
  (build_prefs set_keys ps = None <->
     ~ (List.NoDup ps /\ forall x, In x ps -> In x set_keys)) /\
  (forall out, build_prefs set_keys ps = Some out ->
     out = ps ++ List.filter (not_in_prefs ps) (rev set_keys) /\
     Permutation out set_keys).
Proof.
  intros Hnd.
  assert (Hndr : List.NoDup (rev set_keys)) by (apply NoDup_rev; exact Hnd).
  assert (Hok : List.NoDup ps -> (forall x, In x ps -> In x set_keys) ->
    build_prefs set_keys ps = Some (ps ++ List.filter (not_in_prefs ps) (rev set_keys))).
  { intros Hps Hin. unfold build_prefs. destruct ps as [|p ps'].
    - simpl. f_equal. symmetry. rewrite (List.filter_ext_in _ (fun _ => true));
        [apply List.filter_true|reflexivity].
    - rewrite remove_prefs_ok; [reflexivity|exact Hndr|exact Hps|].
      intros x Hx. apply in_rev. rewrite rev_involutive. apply Hin, Hx. }
  assert (Hsome : forall out, build_prefs set_keys ps = Some out ->
    List.NoDup ps /\ forall x, In x ps -> In x set_keys).
  { intros out. unfold build_prefs. destruct ps as [|p ps'].
    - intros _. split; [constructor|intros _ []].
    - destruct (remove_prefs (p :: ps') (rev set_keys)) as [d|] eqn:E;
        [|discriminate].
      intros _. destruct (remove_prefs_some _ _ _ Hndr E) as [Hps Hin].
      split; [exact Hps|]. intros x Hx. apply in_rev, Hin, Hx. }
  split.
  - split.
    + intros Hnone [Hps Hin]. rewrite (Hok Hps Hin) in Hnone. discriminate.
    + intros Hn. destruct (build_prefs set_keys ps) as [out|] eqn:E;
        [|reflexivity].
      exfalso. apply Hn. exact (Hsome out eq_refl).
  - intros out Hout. destruct (Hsome out Hout) as [Hps Hin].
    rewrite (Hok Hps Hin) in Hout. injection Hout as <-.
    split; [reflexivity|].
    apply Stdlib.Sorting.Permutation.NoDup_Permutation.
    + apply List.NoDup_app; [exact Hps|apply List.NoDup_filter, Hndr|].
      intros a Ha Hf. apply filter_In in Hf as [_ Hf].
      unfold not_in_prefs in Hf. apply negb_true_iff in Hf.
      apply not_true_iff_false in Hf. apply Hf, ClustersExtra.existsb_eqb_In, Ha.
    + exact Hnd.
    + intros x. rewrite in_app_iff, filter_In, <- in_rev. split.
      * intros [Hx|[Hx _]]; [apply Hin, Hx|exact Hx].
      * intros Hx. unfold not_in_prefs.
        destruct (existsb (String.eqb x) ps) eqn:Hb.
        -- left. apply ClustersExtra.existsb_eqb_In, Hb.
        -- right. split; [exact Hx|reflexivity].
Qed.

(** ** The selection statistics *)

Lemma grows_refl (cl : list row) (st : selector) : grows cl st st.
Proof.
  unfold grows. split; [reflexivity|]. split; [reflexivity|].
  split; [reflexivity|]. split; [|lia].
  exists [], []. rewrite app_nil_r. simpl.
  repeat split; try lia; intros g [].
Qed.

Lemma grows_trans (cl : list row) (st1 st2 st3 : selector) :
  grows cl st1 st2 -> grows cl st2 st3 -> grows cl st1 st3.
Proof.
  intros (Hf1 & Hp1 & Hc1 & (R1 & D1 & Hr1 & Hd1 & HR1 & HD1 & Hh1 & Hu1 & Hs1) & Hk1)
         (Hf2 & Hp2 & Hc2 & (R2 & D2 & Hr2 & Hd2 & HR2 & HD2 & Hh2 & Hu2 & Hs2) & Hk2).
  unfold grows. split; [congruence|]. split; [congruence|]. split; [congruence|].
  split; [|lia].
  exists (R2 ++ R1), (D1 ++ D2). split; [rewrite Hr2, Hr1, app_assoc; reflexivity|].
  split; [rewrite Hd2, Hd1, app_assoc; reflexivity|].
  split; [intros g Hg; rewrite map_app, in_app_iff in Hg; destruct Hg; auto|].
  split; [intros g Hg; rewrite in_app_iff in Hg; destruct Hg; auto|].
  rewrite length_app. lia.
Qed.

Lemma grows_mono (cl cl' : list row) (st st' : selector) :
  (forall r, In r cl -> In r cl') -> grows cl st st' -> grows cl' st st'.
Proof.
  intros Hsub (Hf & Hp & Hc & (R & D & Hr & Hd & HR & HD & Hrest) & Hk).
  assert (Hm : forall g, In g (map rid cl) -> In g (map rid cl')).
  { intros g Hg. apply in_map_iff in Hg as (r & <- & Hr'). apply in_map, Hsub, Hr'. }
  unfold grows. split; [exact Hf|]. split; [exact Hp|]. split; [exact Hc|].
  split; [|exact Hk].
  exists R, D. split; [exact Hr|]. split; [exact Hd|].
  split; [intros g Hg; apply Hm, HR, Hg|].
  split; [intros g Hg; apply Hm, HD, Hg|]. exact Hrest.
Qed.

Lemma choose_grows (c : row) (cl : list row) (rsn : reason) (drop : bool)
    (st st' : selector) :
  In c cl -> choose c cl rsn drop st = inr (tt, st') -> grows cl st st'.
Proof.
  intros Hc H. unfold choose in H.
  destruct (remove_first (rid c) (map rid cl)) as [rest|] eqn:Hr; [|discriminate].
  injection H as <-. unfold grows; simpl.
  split; [reflexivity|]. split; [reflexivity|]. split; [reflexivity|].
  split; [|destruct drop; lia].
  exists [(rid c, rsn)], (if drop then rest else []).
  split; [reflexivity|].
  split; [destruct drop; [reflexivity|rewrite app_nil_r; reflexivity]|].
  split; [intros g Hg; simpl in Hg; destruct Hg as [<-|[]]; apply in_map, Hc|].
  split; [intros g Hg; destruct drop; [apply (ProxyFacts.remove_first_sub _ _ _ Hr g Hg)|destruct Hg]|].
  assert (Hex : String.eqb (stem c) (first_choice st) = true ->
                existsb (String.eqb (first_choice st)) (map stem cl) = true).
  { intros E. apply String.eqb_eq in E. apply existsb_exists.
    exists (stem c). split; [apply in_map, Hc|rewrite E; apply String.eqb_refl]. }
  destruct (String.eqb (stem c) (first_choice st));
    destruct (existsb (String.eqb (first_choice st)) (map stem cl));
    simpl; try lia.
Qed.

Lemma pick_in_sub (ps : list string) (sub : list row) (c : row) :
  pick_by_preference ps sub = inr c -> In c sub.
Proof.
  unfold pick_by_preference.
  set (F := fun pref => List.filter (fun r0 => String.eqb (stem r0) pref) sub).
  fold F.
  destruct (argmax _) as [b|]; [|discriminate].
  destruct (1 <? _)%nat; [discriminate|].
  destruct (nth b (map F ps) []) as [|r rest] eqn:E; [discriminate|].
  intros H. injection H as <-.
  destruct (nth_in_or_default b (map F ps) []) as [Hin|Hd]; [|congruence].
  rewrite E in Hin. apply in_map_iff in Hin as (pref & HF & _).
  assert (Hr : In r (F pref)) by (rewrite HF; left; reflexivity).
  apply filter_In in Hr as [Hr _]. exact Hr.
Qed.

Lemma choose_by_preference_grows (sub cl : list row) (rsn : reason)
    (drop : bool) (st st' : selector) :
  (forall r, In r sub -> In r cl) ->
  choose_by_preference sub cl rsn drop st = inr (tt, st') -> grows cl st st'.
Proof.
  intros Hsub H. unfold choose_by_preference in H.
  destruct (pick_by_preference (prefs st) sub) as [e|c] eqn:E; [discriminate|].
  apply (choose_grows c cl rsn drop st st'); [|exact H].
  apply Hsub, (pick_in_sub _ _ _ E).
Qed.

Lemma choose_by_length_grows (sub cl : list row) (drop : bool)
    (st st' : selector) :
  (forall r, In r sub -> In r cl) ->
  choose_by_length sub cl drop st = inr (tt, st') -> grows cl st st'.
Proof.
  intros Hsub H. unfold choose_by_length in H. cbv zeta in H.
  destruct (list_max _) as [m|]; [|unfold raise in H; discriminate].
  destruct (1 <? m)%nat.
  - eapply (choose_by_preference_grows _ cl _ drop st st'); [|exact H].
    intros r Hr. apply filter_In in Hr as [Hr _]. apply Hsub, Hr.
  - destruct (median_low (map protein_len sub)) as [lo|], (median_high (map protein_len sub)) as [hi|];
      try (unfold raise in H; discriminate).
    eapply (choose_by_preference_grows _ cl _ drop st st'); [|exact H].
    intros r Hr. apply filter_In in Hr as [Hr _]. apply Hsub, Hr.
Qed.

Lemma select_group_grows (cl : list row) (sid : Z) (sub : list row)
    (st st' : selector) :
  (forall r, In r sub -> In r cl) ->
  select_group cl sid sub st = inr (tt, st') -> grows cl st st'.
Proof.
  intros Hsub H. unfold select_group in H.
  destruct (1 <? length sub)%nat.
  - exact (choose_by_length_grows sub cl _ st st' Hsub H).
  - destruct sub as [|r rs].
    + injection H as <-. apply grows_refl.
    + assert (Hr : In r cl) by (apply Hsub; left; reflexivity).
      destruct (negb (synteny_id r =? 0));
        exact (choose_grows r cl _ _ st st' Hr H).
Qed.

Lemma for_each_grows {A} (f : A -> M unit) (l : list A) (cl : list row)
    (st st' : selector) :
  (forall x, In x l -> forall s s', f x s = inr (tt, s') -> grows cl s s') ->
  for_each f l st = inr (tt, st') -> grows cl st st'.
Proof.
  revert st. induction l as [|x r IH]; intros st Hf H.
  - injection H as <-. apply grows_refl.
  - rewrite ProxyFacts.for_each_cons in H.
    destruct (f x st) as [e|[[] st1]] eqn:E; [discriminate|].
    apply (grows_trans cl st st1 st').
    + apply (Hf x (or_introl eq_refl) st st1 E).
    + apply (IH st1); [|exact H]. intros y Hy. apply Hf. right. exact Hy.
Qed.

Lemma cluster_selector_grows (cl : list row) (st st' : selector) :
  cluster_selector cl st = inr (tt, st') ->
  grows cl st st' /\ cluster_count st + 1 <= cluster_count st'.
Proof.
  intros H. unfold cluster_selector in H. rewrite ProxyFacts.bind_modify in H.
  assert (H1 : grows cl st (incr_cluster_count st)).
  { unfold grows, incr_cluster_count; simpl. split; [reflexivity|].
    split; [reflexivity|]. split; [reflexivity|]. split; [|lia].
    exists [], []. rewrite app_nil_r. simpl.
    repeat split; try lia; intros g []. }
  assert (H2 : grows cl (incr_cluster_count st) st').
  { destruct (length cl =? 1)%nat.
    - destruct cl as [|r rs]; [injection H as <-; apply grows_refl|].
      exact (choose_grows r (r :: rs) _ _ _ st' (or_introl eq_refl) H).
    - refine (for_each_grows _ (group_by synteny_id cl) cl _ st' _ H).
      intros [sid sub] Hg s s' Hs. apply (select_group_grows cl sid sub s s'); [|exact Hs].
      intros r Hr. apply (proj2 (ProxyFacts.group_nonempty _ _ _ _ Hg) r Hr). }
  split; [exact (grows_trans cl _ _ _ H1 H2)|].
  destruct H2 as (_ & _ & _ & _ & Hk). unfold incr_cluster_count in Hk.
  simpl in Hk. exact Hk.
Qed.

Lemma clusters_loop_grows (fr : list row) (G : list (Z * list row))
    (st st' : selector) :
  (forall p, In p G -> forall r, In r (snd p) -> In r fr) ->
  for_each (fun '(_, cl) => cluster_selector cl) G st = inr (tt, st') ->
  grows fr st st' /\ cluster_count st + Z.of_nat (length G) <= cluster_count st'.
Proof.
  revert st. induction G as [|[c cl] G IH]; intros st HG H.
  - injection H as <-. split; [apply grows_refl|simpl; lia].
  - rewrite ProxyFacts.for_each_cons in H. simpl in H.
    destruct (cluster_selector cl st) as [e|[[] st1]] eqn:E; [discriminate|].
    destruct (cluster_selector_grows cl st st1 E) as [Hg1 Hk1].
    destruct (IH st1) as [Hg2 Hk2]; [intros p Hp; apply HG; right; exact Hp|exact H|].
    split.
    + apply (grows_trans fr st st1 st'); [|exact Hg2].
      apply (grows_mono cl); [|exact Hg1].
      intros r Hr. apply (HG (c, cl) (or_introl eq_refl) r Hr).
    + simpl length. lia.
Qed.

Lemma singleton_cluster_selector (r : row) (st : selector) :
  stem r <> first_choice st ->
  cluster_selector [r] st =
  inr (tt, mk_selector (frame st) (prefs st) ((rid r, Singleton) :: reasons st)
             (drop_ids st ++ []) (first_choice st) (first_choice_hits st + 0)
             (first_choice_unavailable st + 1) (cluster_count st + 1)).
Proof.
  intros H. unfold cluster_selector. rewrite ProxyFacts.bind_modify.
  unfold choose, incr_cluster_count. cbn [length Nat.eqb frame prefs reasons
    drop_ids first_choice first_choice_hits first_choice_unavailable
    cluster_count map remove_first existsb].
  rewrite String.eqb_refl.
  assert (E1 : String.eqb (stem r) (first_choice st) = false)
    by (apply String.eqb_neq; exact H).
  assert (E2 : String.eqb (first_choice st) (stem r) = false)
    by (apply String.eqb_neq; intros E; apply H; symmetry; exact E).
  rewrite E1, E2. reflexivity.
Qed.

Lemma singleton_loop (G : list (Z * list row)) (st : selector) :
  (forall c cl, In (c, cl) G -> exists r, cl = [r] /\ stem r <> first_choice st) ->
  exists st',
    for_each (fun '(_, cl) => cluster_selector cl) G st = inr (tt, st') /\
    frame st' = frame st /\ drop_ids st' = drop_ids st /\
    first_choice st' = first_choice st /\
    first_choice_hits st' = first_choice_hits st /\
    first_choice_unavailable st' = first_choice_unavailable st + Z.of_nat (length G) /\
    cluster_count st' = cluster_count st + Z.of_nat (length G).
Proof.
  revert st. induction G as [|[c cl] G IH]; intros st HG.
  - exists st. simpl. repeat split; lia.
  - destruct (HG c cl (or_introl eq_refl)) as (r & -> & Hr).
    set (st1 := mk_selector (frame st) (prefs st) ((rid r, Singleton) :: reasons st)
             (drop_ids st ++ []) (first_choice st) (first_choice_hits st + 0)
             (first_choice_unavailable st + 1) (cluster_count st + 1)).
    destruct (IH st1) as (st' & Hrun & Hf & Hd & Hc & Hh & Hu & Hk).
    { intros c' cl' Hin. apply (HG c' cl'). right. exact Hin. }
    exists st'. rewrite ProxyFacts.for_each_cons. simpl.
    rewrite (singleton_cluster_selector r st Hr). fold st1. rewrite Hrun.
    subst st1. simpl in *. rewrite app_nil_r in Hd.
    split; [reflexivity|]. split; [exact Hf|]. split; [exact Hd|].
    split; [exact Hc|]. split; [lia|]. split; lia.
Qed.

Lemma filter_key_le1 (key : row -> Z) (l : list row) (v : Z) :
  List.NoDup (map key l) ->
  (length (List.filter (fun r => Z.eqb (key r) v) l) <= 1)%nat.
Proof.
  induction l as [|x r IH]; intros Hnd; simpl; [lia|].
  inversion Hnd as [|? ? Hx Hr]; subst.
  destruct (Z.eqb_spec (key x) v) as [<-|Hne]; [|exact (IH Hr)].
  rewrite ProxyFacts.filter_all_false; [simpl; lia|].
  intros z Hz. apply Z.eqb_neq. intros E. apply Hx. rewrite <- E. apply in_map, Hz.
Qed.

Lemma groups_singleton (fr : list row) (c : Z) (cl : list row) :
  List.NoDup (map cluster_id fr) ->
  In (c, cl) (group_by cluster_id fr) -> exists r, cl = [r] /\ In r fr.
Proof.
  intros Hnd Hin.
  destruct (ProxyFacts.group_by_spec _ _ _ _ Hin) as [Hcl _].
  destruct (ProxyFacts.group_nonempty _ _ _ _ Hin) as [Hne Hsub].
  pose proof (filter_key_le1 cluster_id fr c Hnd) as Hle. rewrite <- Hcl in Hle.
  destruct cl as [|r [|r' rs]]; [contradiction| |simpl in Hle; lia].
  exists r. split; [reflexivity|]. apply (Hsub r (or_introl eq_refl)).
Qed.

(** X16: when every cluster id occurs once and no row belongs to the
    first-choice genome [prefs[0]], every cluster is a singleton without
    the first choice: nothing is dropped, [cluster_count] and
    [first_choice_unavailable] both equal the number of rows, and the
    statistics printed by [proxy_genes] divide by
    [cluster_count - first_choice_unavailable = 0], raising
    [ZeroDivisionError] after the downselected frame is written. *)
Theorem proxy_stats_zero_division (fr : list row) (p : string) (ps : list string) :
  fr <> [] ->
  List.NoDup (map cluster_id fr) ->
  (forall r, In r fr -> stem r <> p) ->
  exists st,
    proxy_select fr (p :: ps) = inr (fr, st) /\
    first_choice_hits st = 0 /\
    first_choice_unavailable st = Z.of_nat (length fr) /\
    cluster_count st = Z.of_nat (length fr) /\
    selection_percents st = inl ZeroDivisionError.
Proof.
  intros Hne Hnd Hst.
  set (st0 := mk_selector fr (p :: ps) [] [] p 0 0 0).
  destruct (singleton_loop (group_by cluster_id fr) st0)
    as (st & Hrun & Hf & Hd & Hc & Hh & Hu & Hk).
  { intros c cl Hin. destruct (groups_singleton fr c cl Hnd Hin) as (r & -> & Hr).
    exists r. split; [reflexivity|]. apply Hst, Hr. }
  assert (Hlen : length (group_by cluster_id fr) = length fr).
  { unfold group_by. rewrite length_map.
    transitivity (length (List.nodup Z.eq_dec (map cluster_id fr))).
    - apply Permutation_length, ProxyFacts.sort_Z_perm.
    - rewrite (nodup_fixed_point Z.eq_dec Hnd). apply length_map. }
  rewrite Hlen in Hu, Hk. subst st0. simpl in Hf, Hd, Hh, Hu, Hk.
  exists st. unfold proxy_select. simpl. rewrite Hrun.
  unfold downselect_frame. rewrite Hf.
  destruct fr as [|r0 rs] eqn:Efr; [contradiction|]. rewrite <- Efr.
  split.
  - rewrite Hd. simpl. f_equal. f_equal. apply List.filter_true.
  - rewrite Efr. split; [exact Hh|]. split; [rewrite Hu; lia|].
    split; [rewrite Hk; lia|].
    unfold selection_percents. rewrite Hu, Hk, Z.sub_diag. reflexivity.
Qed.

(** X17: After a successful selection, the frame and the preferences are those
    given and [first_choice] is the first preference; the output is the
    frame without the rows whose gene id is in [drop_ids]; [drop_ids] and
    the rows given a reason are gene ids of the frame; the two first-choice
    counters are non-negative and together at most the number of choices
    made (a chosen row of the first-choice genome means that genome was
    available); and [cluster_count] is at least the number of distinct
    cluster ids. *)
Theorem proxy_select_stats (fr : list row) (ps : list string) (out : list row)
    (st : selector) :
  proxy_select fr ps = inr (out, st) ->
  frame st = fr /\ prefs st = ps /\ hd_error ps = Some (first_choice st) /\
  out = List.filter (not_dropped (drop_ids st)) fr /\
  (forall g, In g (drop_ids st) -> In g (map rid fr)) /\
  (forall g, In g (map fst (reasons st)) -> In g (map rid fr)) /\
  0 <= first_choice_hits st /\ 0 <= first_choice_unavailable st /\
  first_choice_hits st + first_choice_unavailable st
    <= Z.of_nat (length (reasons st)) /\
  Z.of_nat (length (List.nodup Z.eq_dec (map cluster_id fr)))
    <= cluster_count st.
Proof.
  unfold proxy_select. destruct ps as [|p ps']; [discriminate|]. simpl.
  set (st0 := mk_selector fr (p :: ps') [] [] p 0 0 0).
  destruct (for_each _ (group_by cluster_id fr) st0) as [e|[[] st1]] eqn:E;
    [discriminate|].
  destruct (clusters_loop_grows fr (group_by cluster_id fr) st0 st1) as [Hg Hk];
    [|exact E|].
  { intros [c cl] Hp r Hr. apply (proj2 (ProxyFacts.group_nonempty _ _ _ _ Hp) r Hr). }
  destruct Hg as (Hf & Hp & Hc & (R & D & Hr & Hd & HR & HD & Hh & Hu & Hs) & _).
  unfold downselect_frame.
  destruct (frame st1) as [|r0 rs] eqn:Ef1; [discriminate|].
  intros H. injection H as <- <-.
  subst st0. simpl in *.
  rewrite app_nil_r in Hr. rewrite Hr.
  split; [rewrite Ef1; exact Hf|]. split; [exact Hp|].
  split; [rewrite Hc; reflexivity|].
  split; [rewrite <- Hf; reflexivity|].
  split; [intros g Hg; apply HD; rewrite Hd in Hg; exact Hg|].
  split; [exact HR|].
  split; [lia|]. split; [lia|]. split; [lia|].
  assert (Hlen : length (group_by cluster_id fr)
                 = length (List.nodup Z.eq_dec (map cluster_id fr))).
  { unfold group_by. rewrite length_map.
    apply Permutation_length, ProxyFacts.sort_Z_perm. }
  lia.
Qed.

Lemma build_prefs_spec_witness :
  build_prefs ["A"; "B"; "C"] ["B"] = Some ["B"; "C"; "A"] /\
  Permutation ["B"; "C"; "A"] ["A"; "B"; "C"].
Proof.
  assert (Hnd : List.NoDup ["A"; "B"; "C"]).
  { repeat constructor; simpl; intros H; repeat destruct H as [H|H];
      try discriminate; exact H. }
  assert (E : build_prefs ["A"; "B"; "C"] ["B"] = Some ["B"; "C"; "A"])
    by (vm_compute; reflexivity).
  split; [exact E|].
  exact (proj2 (proj2 (build_prefs_spec ["A"; "B"; "C"] ["B"] Hnd) _ E)).
Defined.

Lemma proxy_stats_zero_division_witness :
  exists st,
    proxy_select [mk_row "g1" 1 0 100 "B"; mk_row "g2" 2 0 90 "C"] ["A"; "B"; "C"]
    = inr ([mk_row "g1" 1 0 100 "B"; mk_row "g2" 2 0 90 "C"], st) /\
    selection_percents st = inl ZeroDivisionError.
Proof.
  destruct (proxy_stats_zero_division
              [mk_row "g1" 1 0 100 "B"; mk_row "g2" 2 0 90 "C"] "A" ["B"; "C"])
    as (st & Hrun & _ & _ & _ & Hz).
  - discriminate.
  - repeat constructor; simpl; intros H; repeat destruct H as [H|H];
      try discriminate; exact H.
  - intros r Hr E. simpl in Hr.
    destruct Hr as [<-|[<-|[]]]; simpl in E; discriminate.
  - exists st. split; [exact Hrun|exact Hz].
Defined.

Lemma proxy_select_stats_witness :
  exists out st,
    proxy_select
      [mk_row "g1" 7 5 100 "A"; mk_row "g2" 7 0 120 "B";
       mk_row "g3" 8 3 90 "A"; mk_row "g4" 8 3 95 "B"] ["A"; "B"]
    = inr (out, st) /\
    first_choice_hits st + first_choice_unavailable st
      <= Z.of_nat (length (reasons st)) /\
    2 <= cluster_count st.
Proof.
  destruct (proxy_select
      [mk_row "g1" 7 5 100 "A"; mk_row "g2" 7 0 120 "B";
       mk_row "g3" 8 3 90 "A"; mk_row "g4" 8 3 95 "B"] ["A"; "B"])
    as [e|[out st]] eqn:Hrun; [vm_compute in Hrun; discriminate|].
  exists out, st. split; [reflexivity|].
  destruct (proxy_select_stats _ _ _ _ Hrun)
    as (_ & _ & _ & _ & _ & _ & _ & _ & Hs & Hk).
  split; [exact Hs|]. simpl in Hk. exact Hk.
Defined.

End ProxyExtra.

(* ===================================================================== *)
(** ** [parse_subids] and [str.split] *)

Module SubidsExtra.
Import Clusters Idents IdentsFacts.

Lemma split_on_cons (sep : ascii) (s : string) :
  exists p ps, split_on sep s = p :: ps.
Proof.
  induction s as [|a r IH]; [eexists _, _; reflexivity|].
  destruct IH as (p & ps & E). cbn [split_on]. rewrite E.
  destruct (Ascii.eqb a sep); eexists _, _; reflexivity.
Qed.

Lemma join_split_on (sep : ascii) (s : string) :
  join sep (split_on sep s) = s.
Proof.
  induction s as [|a r IH]; [reflexivity|].
  cbn [split_on]. destruct (split_on_cons sep r) as (p & ps & E).
  rewrite E in IH |- *.
  destruct (Ascii.eqb_spec a sep) as [->|Ha].
  - change (join sep (EmptyString :: p :: ps))
      with (EmptyString +:+ String sep (join sep (p :: ps))).
    rewrite app_nil, IH. reflexivity.
  - destruct ps as [|q qs].
    + cbn [join] in IH |- *. rewrite IH. reflexivity.
    + change (join sep (String a p :: q :: qs))
        with (String a p +:+ String sep (join sep (q :: qs))).
      change (join sep (p :: q :: qs))
        with (p +:+ String sep (join sep (q :: qs))) in IH.
      rewrite app_cons, IH. reflexivity.
Qed.

Lemma split_on_parts (sep : ascii) (s : string) :
  Forall (fun p => str_forallb (fun c => negb (Ascii.eqb c sep)) p = true)
    (split_on sep s) /\
  length (split_on sep s)
  = S (length (List.filter (fun c => Ascii.eqb c sep) (String.list_ascii_of_string s))).
Proof.
  induction s as [|a r [IHf IHl]]; [split; [repeat constructor|reflexivity]|].
  cbn [split_on String.list_ascii_of_string]. simpl List.filter.
  destruct (split_on_cons sep r) as (p & ps & E).
  rewrite E in IHf, IHl |- *.
  destruct (Ascii.eqb_spec a sep) as [->|Ha].
  - split; [constructor; [reflexivity|exact IHf]|].
    simpl. simpl in IHl. lia.
  - apply Ascii.eqb_neq in Ha.
    inversion IHf as [|? ? Hp Hps]; subst.
    split; [constructor; [|exact Hps]|exact IHl].
    cbn [str_forallb]. rewrite Ha, Hp. reflexivity.
Qed.

(** X18: [parse_subids] returns the parts of [ident.split(".")] followed by the
    chromosome names parsed from them: the parts contain no ["."], there is
    one more part than there are dots, joining them with ["."] gives back
    [ident], and each of the at most as many trailing names is
    [parse_chromosome] of some part, in the order of the parts. *)
Theorem parse_subids_split (parse_chromosome : string -> option string)
    (ident : string) :
  exists subids chroms,
    parse_subids parse_chromosome ident = subids ++ chroms /\
    join ID_SEPARATOR subids = ident /\
    Forall (fun p => str_forallb (fun c => negb (Ascii.eqb c ID_SEPARATOR)) p = true)
      subids /\
    length subids
    = S (length (List.filter (fun c => Ascii.eqb c ID_SEPARATOR)
                   (String.list_ascii_of_string ident))) /\
    (length chroms <= length subids)%nat /\
    chroms = omap parse_chromosome subids.
Proof.
  exists (split_on ID_SEPARATOR ident),
         (omap parse_chromosome (split_on ID_SEPARATOR ident)).
  destruct (split_on_parts ID_SEPARATOR ident) as [Hf Hl].
  split; [reflexivity|]. split; [apply join_split_on|].
  split; [exact Hf|]. split; [exact Hl|]. split; [|reflexivity].
  generalize (split_on ID_SEPARATOR ident). intros l.
  induction l as [|x r IH]; [simpl; lia|].
  change (omap parse_chromosome (x :: r)) with
    (match parse_chromosome x with
     | Some y => y :: omap parse_chromosome r
     | None => omap parse_chromosome r
     end).
  destruct (parse_chromosome x); simpl; lia.
Qed.

End SubidsExtra.
